(** * coBib / CReMa: the entry model, the source parsers, the Add pipeline
      and the Undo engine

    A shallow embedding of

      - [crema/parser.py]          (class [Entry] and its static parsers),
      - [cobib/commands/add.py]    ([AddCommand.execute]),
      - [cobib/commands/undo.py]   ([UndoCommand.execute]),
      - [cobib/commands/open.py]   ([OpenCommand.execute]),
      - [main.py]                  ([_dict_to_bibtex], [_bibtex_to_dict]),

    followed by the properties of these functions.

    Conventions.  Python [str] is [string]; the character classes of [re]
    and of [str.strip]/[str.split] are given for code points below 128 (a
    code point above 127 is classified as neither whitespace nor a word
    character).  A [dict]/[OrderedDict] is an insertion-ordered association
    list with unique keys.  A Python call either returns or raises:
    [result]. *)

From Stdlib Require Import String Ascii List Bool Arith Lia.
From stdpp Require Import base option list strings gmap.

Import ListNotations.
Local Open Scope string_scope.
Local Open Scope list_scope.

(* ===================================================================== *)
(** * Exceptions and results                                              *)
(* ===================================================================== *)

(** The exception classes that the embedded code can raise, and
    [ParseError], the class the specification of the parsers names (no
    function below constructs it). *)
Inductive exn : Type :=
  | AssertionError
  | KeyError (key : string)
  | IndexError
  | ValueError
  | CalledProcessError
  | ParseError.

Inductive result (A : Type) : Type :=
  | Ok (a : A)
  | Raise (e : exn).

Arguments Ok {A} a.
Arguments Raise {A} e.

#[global] Instance result_ret : MRet result := fun _ a => Ok a.
#[global] Instance result_bind : MBind result := fun _ _ k r =>
  match r with
  | Ok a => k a
  | Raise e => Raise e
  end.

(** [assert b] *)
Definition py_assert (b : bool) : result unit :=
  if b then Ok tt else Raise AssertionError.

(* ===================================================================== *)
(** * Python string primitives                                            *)
(* ===================================================================== *)

Module PyStr.

Definition code (c : ascii) : nat := nat_of_ascii c.

Definition between (lo hi : nat) (c : ascii) : bool :=
  (lo <=? code c)%nat && (code c <=? hi)%nat.

(** [str.isspace] on one character: TAB, LF, VT, FF, CR, FS, GS, RS, US
    and SPACE. *)
Definition is_space (c : ascii) : bool :=
  between 9 13 c || between 28 32 c.

Definition is_digit (c : ascii) : bool := between 48 57 c.
Definition is_upper (c : ascii) : bool := between 65 90 c.
Definition is_lower (c : ascii) : bool := between 97 122 c.

(** The class [[0-9a-zA-Z]]. *)
Definition is_alnum (c : ascii) : bool :=
  is_digit c || is_lower c || is_upper c.

(** The class [\w], which decides [\b]. *)
Definition is_word (c : ascii) : bool :=
  is_alnum c || Ascii.eqb c "_".

Fixpoint mem_char (c : ascii) (cs : string) : bool :=
  match cs with
  | EmptyString => false
  | String d cs' => Ascii.eqb c d || mem_char c cs'
  end.

Fixpoint take_while (p : ascii -> bool) (s : string) : string :=
  match s with
  | EmptyString => EmptyString
  | String c s' => if p c then String c (take_while p s') else EmptyString
  end.

Fixpoint drop_while (p : ascii -> bool) (s : string) : string :=
  match s with
  | EmptyString => EmptyString
  | String c s' => if p c then drop_while p s' else s
  end.

(** The characters of [s] all satisfy [p]. *)
Fixpoint all_chars (p : ascii -> bool) (s : string) : bool :=
  match s with
  | EmptyString => true
  | String c s' => p c && all_chars p s'
  end.

Definition is_empty (s : string) : bool :=
  match s with EmptyString => true | String _ _ => false end.

(** [s.lstrip(chars)], [s.rstrip(chars)], [s.strip(chars)], with the set
    of characters given as a predicate. *)
Definition lstrip_by (p : ascii -> bool) (s : string) : string :=
  drop_while p s.

Fixpoint rstrip_by (p : ascii -> bool) (s : string) : string :=
  match s with
  | EmptyString => EmptyString
  | String c s' =>
      let r := rstrip_by p s' in
      if is_empty r && p c then EmptyString else String c r
  end.

Definition strip_by (p : ascii -> bool) (s : string) : string :=
  lstrip_by p (rstrip_by p s).

(** [s.strip(chars)] *)
Definition strip_chars (chars : string) (s : string) : string :=
  strip_by (fun c => mem_char c chars) s.

(** [s.strip()] *)
Definition strip (s : string) : string := strip_by is_space s.

(** [sep.join(l)] *)
Fixpoint join (sep : string) (l : list string) : string :=
  match l with
  | [] => EmptyString
  | [x] => x
  | x :: l' => x +:+ sep +:+ join sep l'
  end.

(** [''.join(l)] *)
Fixpoint concat (l : list string) : string :=
  match l with
  | [] => EmptyString
  | x :: l' => x +:+ concat l'
  end.

(** [s.split(sep)] for a one-character separator: the fields between
    the separators, at least one. *)
Fixpoint split_on (sep : ascii) (s : string) : list string :=
  match s with
  | EmptyString => [EmptyString]
  | String c s' =>
      if Ascii.eqb c sep then EmptyString :: split_on sep s'
      else match split_on sep s' with
           | [] => [String c EmptyString]
           | w :: ws => String c w :: ws
           end
  end.

(** [s.split()]: the maximal runs of non-whitespace characters.  The
    accumulator [cur] is the run being read, reversed. *)
Fixpoint split_ws_from (cur : list ascii) (s : string) : list string :=
  let flush (rest : list string) :=
    match cur with
    | [] => rest
    | _ :: _ => string_of_list_ascii (rev cur) :: rest
    end in
  match s with
  | EmptyString => flush []
  | String c s' =>
      if is_space c then flush (split_ws_from [] s')
      else split_ws_from (c :: cur) s'
  end.

Definition split_ws (s : string) : list string := split_ws_from [] s.

(** A token: a non-empty string without whitespace. *)
Definition is_token (s : string) : bool :=
  negb (is_empty s) && all_chars (fun c => negb (is_space c)) s.

(** [s.startswith(p)], returning the rest of [s]. *)
Fixpoint strip_prefix (p s : string) : option string :=
  match p, s with
  | EmptyString, _ => Some s
  | String a p', String b s' =>
      if Ascii.eqb a b then strip_prefix p' s' else None
  | String _ _, EmptyString => None
  end.

Definition starts_with (p s : string) : bool :=
  match strip_prefix p s with Some _ => true | None => false end.

(** [sub in s] for strings: [sub] occurs at some position of [s]. *)
Fixpoint contains (sub s : string) : bool :=
  starts_with sub s ||
  match s with
  | EmptyString => false
  | String _ s' => contains sub s'
  end.

(** [l.count(x)] *)
Fixpoint count (x : string) (l : list string) : nat :=
  match l with
  | [] => 0
  | y :: l' => (if String.eqb x y then 1 else 0) + count x l'
  end.

(** [x in l] for a list of strings. *)
Definition mem (x : string) (l : list string) : bool :=
  existsb (String.eqb x) l.

(** [l[-1]] *)
Fixpoint last_item (l : list string) : result string :=
  match l with
  | [] => Raise IndexError
  | [x] => Ok x
  | _ :: l' => last_item l'
  end.

(** [max(l, key=key)]: the first element whose key is maximal;
    [ValueError] on an empty sequence. *)
Definition max_by (key : string -> nat) (l : list string) : result string :=
  match l with
  | [] => Raise ValueError
  | x :: l' =>
      Ok (fold_left (fun best y => if (key best <? key y)%nat then y else best) l' x)
  end.

End PyStr.

(* ===================================================================== *)
(** * Insertion-ordered dictionaries                                      *)
(* ===================================================================== *)

(** A Python [dict] (or [OrderedDict]) with string keys: the items in
    insertion order, each key once. *)
Definition odict (V : Type) : Type := list (string * V).

Section odict.
Context {V : Type}.

(** [d.get(k)] *)
Fixpoint od_get (k : string) (d : odict V) : option V :=
  match d with
  | [] => None
  | (k', v) :: d' => if String.eqb k k' then Some v else od_get k d'
  end.

(** [k in d] *)
Definition od_in (k : string) (d : odict V) : bool :=
  match od_get k d with Some _ => true | None => false end.

(** [d[k] = v]: an existing key keeps its position, a new key goes to
    the end. *)
Fixpoint od_set (k : string) (v : V) (d : odict V) : odict V :=
  match d with
  | [] => [(k, v)]
  | (k', v') :: d' =>
      if String.eqb k k' then (k, v) :: d' else (k', v') :: od_set k v d'
  end.

(** [d.update(other)] *)
Definition od_update (other d : odict V) : odict V :=
  fold_left (fun acc kv => od_set kv.1 kv.2 acc) other d.

(** [OrderedDict(items)] *)
Definition od_of_items (items : list (string * V)) : odict V :=
  od_update items [].

(** [d.values()], [d.keys()] *)
Definition od_values (d : odict V) : list V := map snd d.
Definition od_keys (d : odict V) : list string := map fst d.
End odict.

(* ===================================================================== *)
(** * crema/parser.py                                                     *)
(* ===================================================================== *)

(** The collaborators of the parsers that are not part of the
    repository. *)

(** [requests.get(url, headers=...).text] *)
Class Web := http_get : string -> string.

(** [bibtexparser.loads(text).entries] when the library returns: one
    string-valued record per BibTeX entry.  The errors of the library
    itself are outside the model, and so is the branch [string=False]
    of [from_bibtex], which has the library read a file. *)
Class Bibtex := bibtex_loads : string -> list (odict string).

(** [os.path.abspath] *)
Class FileSystem := abspath : string -> string.

(** The order in which a [set] built from a list is iterated.  It follows
    the hashes of the elements, which vary from one process to the next;
    what is fixed is that each distinct element comes once. *)
Class SetOrder := {
  set_iter : list string -> list string;
  set_iter_NoDup : forall l, NoDup (set_iter l);
  set_iter_elem : forall l x, x ∈ set_iter l <-> x ∈ l
}.

(** A field value: a string or a list of strings.  Values of other
    types (an [int] that the YAML library loads, say) are outside the
    model. *)
Inductive value : Type :=
  | VStr (s : string)
  | VList (l : list string).

Definition fields : Type := odict value.

(** The YAML library ([ruamel.yaml]): a document is a mapping from labels
    to field mappings. *)
Class Yaml := {
  yaml_dump : odict fields -> string;
  yaml_load_all : string -> list (odict fields)
}.

Module Parser.
Import PyStr.

Definition DOI_URL : string := "https://doi.org/".

(** An [Entry] object: the attributes [label] and [data] that
    [__init__] sets, and [attrs], the attributes that were assigned on
    the instance from outside the class (no function below assigns
    one). *)
Record Entry : Type := mkEntry {
  label : string;
  data : fields;
  attrs : odict value
}.

(** [Entry(label, data)] *)
Definition new (label : string) (data : fields) : Entry :=
  mkEntry label data [].

Definition with_data (e : Entry) (d : fields) : Entry :=
  mkEntry (label e) d (attrs e).

(** [Entry.set_label] *)
Definition set_label (lbl : string) (e : Entry) : Entry :=
  mkEntry lbl (od_set "ID" (VStr lbl) (data e)) (attrs e).

(** [Entry.set_tags] *)
Definition set_tags (tags : list string) (e : Entry) : Entry :=
  with_data e
    (od_set "tags"
       (VStr (strip_chars ", "
                (concat (map (fun tag => strip_chars "+" tag +:+ ", ") tags))))
       (data e)).

(** [e.data.get('tags')] *)
Definition tags_of (e : Entry) : option value := od_get "tags" (data e).

(** [Entry.set_file] *)
Definition set_file `{FileSystem} (file : string) (e : Entry) : Entry :=
  with_data e (od_set "file" (VStr (abspath file)) (data e)).

(** [val in field] *)
Definition py_in (val : string) (field : value) : bool :=
  match field with
  | VStr s => contains val s
  | VList l => mem val l
  end.

(** A filter: [(field name, include flag)] mapped to substrings. *)
Definition filter : Type := list ((string * bool) * list string).

(** The loop [for val in values] of [Entry.matches]; [self.data[key[0]]]
    is evaluated at each iteration. *)
Fixpoint match_values (d : fields) (key : string * bool) (values : list string)
    (match_list : list bool) : result (list bool) :=
  match values with
  | [] => Ok match_list
  | val :: values' =>
      match od_get key.1 d with
      | None => Raise (KeyError key.1)
      | Some field =>
          match_values d key values'
            (match_list ++ [if negb (py_in val field) then negb key.2 else key.2])
      end
  end.

(** The loop [for key, values in _filter.items()]. *)
Fixpoint match_items (d : fields) (flt : filter) (match_list : list bool)
    : result (list bool) :=
  match flt with
  | [] => Ok match_list
  | (key, values) :: flt' =>
      let match_list :=
        if negb (od_in key.1 d) then match_list ++ [negb key.2] else match_list in
      match_list ← match_values d key values match_list;
      match_items d flt' match_list
  end.

(** [Entry.matches] *)
Definition matches (e : Entry) (flt : filter) (or_ : bool) : result bool :=
  match_list ← match_items (data e) flt [];
  if or_ then Ok (existsb id match_list) else Ok (forallb id match_list).

(** What a filter element adds to [match_list] when the loop gets through
    it: [not flag] for an absent field, one boolean per substring for a
    present one. *)
Definition contribution (d : fields) (item : (string * bool) * list string)
    : list bool :=
  match od_get item.1.1 d with
  | None => [negb item.1.2]
  | Some field =>
      map (fun val => if negb (py_in val field) then negb item.1.2 else item.1.2)
          item.2
  end.

(** ** The DOI pattern

    [DOI_REGEX] reads: the characters 10 and a dot, one or more of
    [[0-9a-zA-Z]], a slash, one or more characters that are neither
    whitespace nor a double quote, an ampersand or an apostrophe (the
    match is greedy), and then a word boundary [\b]. *)

(** One character of the suffix: not a double quote (code 34), an
    ampersand or an apostrophe, and not whitespace. *)
Definition is_suffix_char (c : ascii) : bool :=
  negb (Ascii.eqb c (ascii_of_nat 34) || Ascii.eqb c "&" || Ascii.eqb c "'")
  && negb (is_space c).

(** [\b] between [prev] and what follows it. *)
Definition boundary (prev : ascii) (next : option ascii) : bool :=
  xorb (is_word prev)
       (match next with Some c => is_word c | None => false end).

(** The rest of the suffix after its character [prev]: the longest run
    of suffix characters at the head of [s] after which [\b] holds (the
    greedy [+], backtracking until the boundary is met). *)
Fixpoint suffix_end (prev : ascii) (s : string) : option string :=
  match s with
  | EmptyString => if boundary prev None then Some EmptyString else None
  | String c s' =>
      let here := if boundary prev (Some c) then Some EmptyString else None in
      if is_suffix_char c then
        match suffix_end c s' with
        | Some ext => Some (String c ext)
        | None => here
        end
      else here
  end.

(** [re.match(DOI_REGEX, s)]: the text matched at the start of [s]. *)
Definition match_doi (s : string) : option string :=
  match strip_prefix "10." s with
  | None => None
  | Some r =>
      match take_while is_alnum r, drop_while is_alnum r with
      | String r0 reg, String slash (String c s') =>
          if Ascii.eqb slash "/" && is_suffix_char c then
            match suffix_end c s' with
            | Some ext =>
                Some ("10." +:+ String r0 reg +:+ "/" +:+ String c ext)
            | None => None
            end
          else None
      | _, _ => None
      end
  end.

(** [re.findall(DOI_REGEX, text)]: the matches from left to right, the
    search resuming at the end of each match.  [skip] counts the
    characters of the last match still to pass. *)
Fixpoint findall_from (skip : nat) (s : string) : list string :=
  match s with
  | EmptyString => []
  | String _ s' =>
      match skip with
      | S k => findall_from k s'
      | O =>
          match match_doi s with
          | Some m => m :: findall_from (String.length m - 1) s'
          | None => findall_from 0 s'
          end
      end
  end.

Definition findall (text : string) : list string := findall_from 0 text.

(** ** The parsers *)

Definition of_record (r : odict string) : fields :=
  map (fun kv => (kv.1, VStr kv.2)) r.

(** The loop of [Entry.from_bibtex] over [database.entries]. *)
Fixpoint bibtex_entries (entries : list (odict string)) (bib : odict Entry)
    : result (odict Entry) :=
  match entries with
  | [] => Ok bib
  | entry :: entries' =>
      match od_get "ID" entry with
      | None => Raise (KeyError "ID")
      | Some id => bibtex_entries entries' (od_set id (new id (of_record entry)) bib)
      end
  end.

(** [Entry.from_bibtex(text, string=True)] *)
Definition from_bibtex `{Bibtex} (text : string) : result (odict Entry) :=
  bibtex_entries (bibtex_loads text) [].

(** [Entry.from_doi] *)
Definition from_doi `{Web, Bibtex} (doi : string) : result (odict Entry) :=
  py_assert (bool_decide (is_Some (match_doi doi)));;
  from_bibtex (http_get (DOI_URL +:+ doi)).

(** [most_common] of [Entry.from_pdf]: [max(set(lst), key=lst.count)] *)
Definition most_common `{SetOrder} (lst : list string) : result string :=
  max_by (fun x => count x lst) (set_iter lst).

(** An open PDF file: its [name] and the text of its pages as
    [pdftotext] gives it. *)
Record pdf_file : Type := mkPdf {
  name : string;
  pages : list string
}.

(** [Entry.from_pdf] *)
Definition from_pdf `{Web, Bibtex, FileSystem, SetOrder} (pdf : pdf_file)
    : result (odict Entry) :=
  let text := concat (pages pdf) in
  let matches := findall text in
  doi ← most_common matches;
  bib ← from_doi doi;
  Ok (map (fun kv => (kv.1, set_file (name pdf) kv.2)) bib).

(** [Entry.to_yaml] *)
Definition to_yaml `{Yaml} (e : Entry) : string :=
  yaml_dump [(label e, data e)].

(** [Entry.from_yaml] *)
Definition from_yaml `{Yaml} (file : string) : odict Entry :=
  fold_left
    (fun bib entry =>
       fold_left (fun bib item => od_set item.1 (new item.1 item.2) bib) entry bib)
    (yaml_load_all file) [].

End Parser.

(* ===================================================================== *)
(** * The process around the commands                                     *)
(* ===================================================================== *)

(** What a command leaves behind besides the Database: log records,
    printed lines and calls to collaborators. *)
Inductive event : Type :=
  | LogInfo (msg : string)
  | LogWarning (msg : string)
  | LogError (msg : string)
  | PrintLine (msg : string)
  | EditCall (label : string)     (* [EditCommand().execute([label])] *)
  | Save                          (* [bib.save()] *)
  | GitCommit (command : string). (* [self.git(args=...)] *)

Definition newline : string := String (ascii_of_nat 10) EmptyString.

(* ===================================================================== *)
(** * cobib/commands/add.py                                               *)
(* ===================================================================== *)

(** The registered parser classes, [name] and [parse], in the order of
    [inspect.getmembers(parsers)]. *)
Class Parsers := avail_parsers : list (string * (string -> result (odict Parser.Entry))).

(** [config.format.default_entry_type] *)
Class Config := default_entry_type : string.

(** What [EditCommand().execute([label])] does to the Database. *)
Class Editor := edit_entry : string -> odict Parser.Entry -> odict Parser.Entry.

Module Database.
Import Parser.

(** The process-wide mapping from label to [Entry]. *)
Definition t : Type := odict Entry.

(** Modelled from the spec: the class [Entry] that add.py imports from
    cobib/database, which is not among the sources.  Its instances are
    taken to have the [label] and the [data] of the [Entry] of
    crema/parser.py, and its attributes [set_label], [set_file] and
    [set_tags] to be setters, so that the assignment [value.set_label =
    label] of add.py:82 calls [set_label] (spec 4.3, step 2: call
    [set_label]; add.py:81: the setter logs).  Spec 4.1: [set_label]
    replaces [label] and the mirrored identifier field, as the method of
    crema/parser.py does. *)
Definition set_label (lbl : string) (e : Entry) : Entry :=
  Parser.set_label lbl e.

(** Modelled from the spec: the setters [set_file] and [set_tags] of
    that class, which the assignments of add.py:89 and add.py:95 call
    with the list of all paths and the list of all tags (spec 4.3, steps
    3 and 4).  Spec 4.1 says that [set_file] resolves to an absolute
    path and that [set_tags] joins the tokens; what [set_file] stores
    for a list of paths it does not say.  They are taken as they come:
    two functions on entries. *)
Class Setters := {
  set_file : list string -> Entry -> Entry;
  set_tags : list string -> Entry -> Entry
}.

(** Modelled from the spec: [Database.update] of cobib/database.  It is
    given the batch, which is a mutable mapping, and returns the
    Database and the batch as it leaves them.  Spec 4.3, step 5: new
    labels are inserted.  Spec 4.3, step 6 tells, after the merge, a
    manual label that was already present as a pre-existing Database
    entry from one that was not, and add.py:101 reads that off the
    batch ([largs.label not in new_entries]), as does the test
    [test_skip_manual_add_if_exists]: the merge takes the labels that
    pre-existed out of the batch.  What becomes of the entry of such a
    label in the Database is left open (step 5 has it replaced, section
    7 has the operation degrade to a no-op). *)
Class Update := {
  update : odict Entry -> t -> t * odict Entry;
  update_inserts : forall new_entries bib k e,
    od_in k bib = false -> od_get k new_entries = Some e ->
    od_get k (update new_entries bib).1 = Some e;
  update_batch : forall new_entries bib k,
    od_in k (update new_entries bib).2 = od_in k new_entries && negb (od_in k bib)
}.
End Database.

Module Add.
Import PyStr Parser.

(** The namespace [largs] that [parse_args] returns. *)
Record args : Type := mkArgs {
  arg_label : option string;          (* [--label] *)
  arg_file : option (list string);    (* [--file], one or more *)
  arg_source : odict string;          (* [--<parser name>], those given *)
  arg_tags : list string              (* the remaining arguments *)
}.

Record world : Type := mkWorld {
  database : Database.t;
  trace : list event
}.

Definition emit (ev : list event) (w : world) : world :=
  mkWorld (database w) (trace w ++ ev).

(** The loop [for name, cls in avail_parsers.items()]: the batch of the
    first parser whose argument is given, or [None] when the loop ends
    without [break]. *)
Fixpoint parse_source (ps : list (string * (string -> result (odict Entry))))
    (largs : args) : option (result (odict Entry)) :=
  match ps with
  | [] => None
  | (name, parse) :: ps' =>
      match od_get name (arg_source largs) with
      | None => parse_source ps' largs
      | Some string => Some (parse string)
      end
  end.

(** What the first block of [execute] leaves: nothing (the error return)
    or the batch with the flag [edit_entries]. *)
Inductive selection : Type :=
  | NoInput
  | Batch (new_entries : odict Entry) (edit_entries : bool).

Definition select_source `{Parsers, Config} (largs : args) (w : world)
    : result (selection * world) :=
  match parse_source avail_parsers largs with
  | Some parsed =>
      new_entries ← parsed;
      Ok (Batch new_entries false, w)
  | None =>
      match arg_label largs with
      | Some lbl =>
          let w := emit [LogWarning ("No input to parse. Creating new entry '"
                                     +:+ lbl +:+ "' manually.")] w in
          Ok (Batch [(lbl, new lbl [("ID", VStr lbl);
                                    ("ENTRYTYPE", VStr default_entry_type)])]
                    true, w)
      | None =>
          Ok (NoInput,
              emit [LogError "Neither an input to parse nor a label for manual creation specified!"] w)
      end
  end.

(** [assert len(new_entries.values()) == 1] followed by
    [for value in new_entries.values(): value.<name> = v], where the
    assignment runs the setter [set] on the entry. *)
Definition assign_on_sole (set : Entry -> Entry) (new_entries : odict Entry)
    : result (odict Entry) :=
  py_assert (length (od_values new_entries) =? 1)%nat;;
  Ok (map (fun kv => (kv.1, set kv.2)) new_entries).

(** The block [if largs.label is not None]. *)
Definition override_label (largs : args) (new_entries : odict Entry)
    : result (odict Entry) :=
  match arg_label largs with
  | None => Ok new_entries
  | Some lbl =>
      new_entries ← assign_on_sole (Database.set_label lbl) new_entries;
      Ok (od_of_items (map (fun value => (lbl, value)) (od_values new_entries)))
  end.

(** The block [if largs.file is not None]. *)
Definition override_file `{Database.Setters} (largs : args)
    (new_entries : odict Entry) : result (odict Entry) :=
  match arg_file largs with
  | None => Ok new_entries
  | Some files => assign_on_sole (Database.set_file files) new_entries
  end.

(** The block [if largs.tags != []]. *)
Definition override_tags `{Database.Setters} (largs : args)
    (new_entries : odict Entry) : result (odict Entry) :=
  match arg_tags largs with
  | [] => Ok new_entries
  | _ :: _ => assign_on_sole (Database.set_tags (arg_tags largs)) new_entries
  end.

(** The batch as it reaches [bib.update]. *)
Definition overrides `{Database.Setters} (largs : args) (new_entries : odict Entry)
    : result (odict Entry) :=
  new_entries ← override_label largs new_entries;
  new_entries ← override_file largs new_entries;
  override_tags largs new_entries.

Definition exists_msg (lbl : string) : string :=
  "You tried to add a new entry '" +:+ lbl +:+ "' which already exists!"
  +:+ newline +:+ "Please use `cobib edit " +:+ lbl +:+ "` instead!".

Definition added_msg (lbl : string) : string :=
  "'" +:+ lbl +:+ "' was added to the database.".

(** [str(largs.label)] in a message. *)
Definition label_text (largs : args) : string :=
  match arg_label largs with Some lbl => lbl | None => "None" end.

(** [largs.label not in new_entries] *)
Definition label_missing (largs : args) (new_entries : odict Entry) : bool :=
  match arg_label largs with
  | Some lbl => negb (od_in lbl new_entries)
  | None => true
  end.

(** The block [if edit_entries]. *)
Definition conditional_edit `{Editor} (largs : args) (new_entries : odict Entry)
    (edit_entries : bool) (w : world) : world :=
  if edit_entries then
    if label_missing largs new_entries then
      emit [LogWarning (exists_msg (label_text largs))] w
    else
      mkWorld (edit_entry (label_text largs) (database w))
              (trace w ++ [EditCall (label_text largs)])
  else w.

(** [AddCommand.execute], from the parsed arguments on (add.py:55-115).
    After [bib.update(new_entries)] the name [new_entries] stands for
    the batch as the merge has left it. *)
Definition execute `{Parsers, Config, Editor, Database.Setters, Database.Update}
    (largs : args) (w : world) : result world :=
  '(sel, w) ← select_source largs w;
  match sel with
  | NoInput => Ok w
  | Batch new_entries edit_entries =>
      new_entries ← overrides largs new_entries;
      let merged := Database.update new_entries (database w) in
      let w := mkWorld merged.1 (trace w) in
      let new_entries := merged.2 in
      let w := conditional_edit largs new_entries edit_entries w in
      let w := emit [Save; GitCommit "add"] w in
      Ok (emit (flat_map (fun lbl => [PrintLine (added_msg lbl); LogInfo (added_msg lbl)])
                         (od_keys new_entries)) w)
  end.

(** The batch that an invocation hands to [bib.update], when it gets
    that far. *)
Definition merged_batch `{Parsers, Config, Database.Setters} (largs : args) (w : world)
    : result (option (odict Entry * bool)) :=
  '(sel, _) ← select_source largs w;
  match sel with
  | NoInput => Ok None
  | Batch new_entries edit_entries =>
      new_entries ← overrides largs new_entries;
      Ok (Some (new_entries, edit_entries))
  end.

End Add.

(* ===================================================================== *)
(** * cobib/commands/undo.py                                              *)
(* ===================================================================== *)

(** The part of git that the command runs as a subprocess, the shell
    line [git revert --no-commit sha; git commit ... --message 'Undo
    sha'].  [revert_succeeds sha h] tells whether that line ends with
    return code 0 on the history [h], which is all that the command
    tests: it is the status of the last command of the line, the commit,
    so that code 0 means that the commit [Undo sha] was made (a failed
    revert that leaves something staged does not show in it).
    [new_sha sha h] is the identifier of the commit made. *)
Class Git := {
  revert_succeeds : string -> list (string * string) -> bool;
  new_sha : string -> list (string * string) -> string
}.

Module Undo.
Import PyStr.

(** A repository: its commits, newest first, as identifier and subject
    line. *)
Definition history : Type := list (string * string).

Record setup : Type := mkSetup {
  git_tracked : bool;     (* [config.database.git] *)
  git_initialized : bool  (* the directory [.git] exists *)
}.

(** One line of the log: the identifier, a space, and the subject. *)
Definition log_line (c : string * string) : string := c.1 +:+ " " +:+ c.2.

(** [git log --oneline --no-decorate --no-abbrev]; git fails on a
    repository without commits. *)
Definition git_log (h : history) : result string :=
  match h with
  | [] => Raise CalledProcessError
  | _ :: _ => Ok (concat (map (fun c => log_line c +:+ newline) h))
  end.

(** A subject line as git prints it: not empty, no line break in it and
    no whitespace at its end. *)
Definition is_subject (s : string) : bool :=
  negb (is_empty s)
  && all_chars (fun c => negb (Ascii.eqb c (ascii_of_nat 10))) s
  && String.eqb (rstrip_by is_space s) s.

Definition ok_commit (c : string * string) : Prop :=
  is_token c.1 = true /\ is_subject c.2 = true.

Definition well_formed (h : history) : bool :=
  forallb (fun c => is_token c.1 && is_subject c.2) h.

(** The condition of line 89. *)
Definition eligible (force : bool) (first last : string) : bool :=
  force || (String.eqb first "Auto-commit:" && negb (String.eqb last "InitCommand")).

(** What the loop over the log arrives at: the commit to revert
    ([break]) or the end of the log (the [else] of the [for]). *)
Inductive verdict : Type :=
  | Revert (sha : string)
  | Exhausted.

(** The loop [for commit in lines...split(newline)]. *)
Fixpoint scan (force : bool) (undone_shas : gset string) (commits : list string)
    : result verdict :=
  match commits with
  | [] => Ok Exhausted
  | commit :: commits' =>
      match split_ws commit with
      | [] => Raise ValueError                      (* [sha, *message = []] *)
      | sha :: message =>
          match message with
          | [] => Raise IndexError                  (* [message[0]] *)
          | first :: _ =>
              (* [message[-1]]: there is one, [message] is not empty *)
              last ← last_item message;
              if String.eqb first "Undo" then
                scan force ({[ last ]} ∪ undone_shas) commits'
              else if bool_decide (sha ∈ undone_shas) then
                scan force undone_shas commits'
              else if eligible force first last then
                Ok (Revert sha)
              else
                scan force undone_shas commits'
          end
      end
  end.

(** The commit that a line of the log records as undone, if the line
    is that of an undo. *)
Definition undo_target (commit : string) : option string :=
  match split_ws commit with
  | _ :: (first :: _) as message =>
      if String.eqb first "Undo" then
        match last_item message with Ok last => Some last | Raise _ => None end
      else None
  | _ => None
  end.

(** The set [undone_shas] once the loop has passed the lines
    [commits]. *)
Fixpoint undone_after (undone_shas : gset string) (commits : list string)
    : gset string :=
  match commits with
  | [] => undone_shas
  | commit :: commits' =>
      undone_after
        (match undo_target commit with
         | Some last => {[ last ]} ∪ undone_shas
         | None => undone_shas
         end)
        commits'
  end.

(** How an invocation ends. *)
Inductive outcome : Type :=
  | TrackingDisabled        (* error logged, return *)
  | NotInitialized          (* error logged, return *)
  | Undone (sha : string)   (* return code 0: [Undo sha] committed, Database re-read *)
  | UndoFailed (sha : string) (* return code not 0, error logged *)
  | NothingToUndo.          (* warning logged, [sys.exit(1)] *)

Definition exit_status (o : outcome) : nat :=
  match o with
  | NothingToUndo => 1
  | _ => 0
  end.

Definition undo_msg (sha : string) : string := "Undo " +:+ sha.

(** [UndoCommand.execute], from the parsed flag on: the outcome and the
    history it leaves. *)
Definition execute `{Git} (cfg : setup) (force : bool) (h : history)
    : result (outcome * history) :=
  if negb (git_tracked cfg) then Ok (TrackingDisabled, h)
  else if negb (git_initialized cfg) then Ok (NotInitialized, h)
  else
    lines ← git_log h;
    v ← scan force ∅ (split_on (ascii_of_nat 10) (strip lines));
    match v with
    | Revert sha =>
        if revert_succeeds sha h
        then Ok (Undone sha, (new_sha sha h, undo_msg sha) :: h)
        else Ok (UndoFailed sha, h)
    | Exhausted => Ok (NothingToUndo, h)
    end.

End Undo.

(* ===================================================================== *)
(** * Stand-ins for the collaborators, for the examples                   *)
(* ===================================================================== *)

Module Stub.
Import PyStr.

(** A resolver that answers with the address it was asked for. *)
Definition web : Web := fun url => url.

(** A BibTeX reader that finds one article, keyed by the whole text. *)
Definition bibtex : Bibtex :=
  fun text => [[("ENTRYTYPE", "article"); ("ID", text)]].

Definition filesystem : FileSystem := fun file => "/home/user/" +:+ file.

(** Two iteration orders of a set: the distinct elements in the order of
    their last occurrences in the list, and the reverse of that. *)
Definition forward_order : SetOrder :=
  {| set_iter := remove_dups;
     set_iter_NoDup := NoDup_remove_dups;
     set_iter_elem := elem_of_remove_dups |}.

Definition backward_order : SetOrder.
Proof.
  refine {| set_iter := fun l => reverse (remove_dups l) |}.
  - intros l. rewrite reverse_Permutation. apply NoDup_remove_dups.
  - intros l x. rewrite elem_of_reverse. apply elem_of_remove_dups.
Defined.

(** [s] cut at the first occurrence of [sep]. *)
Fixpoint cut (sep s : string) : option (string * string) :=
  match strip_prefix sep s with
  | Some rest => Some (EmptyString, rest)
  | None =>
      match s with
      | EmptyString => None
      | String c s' =>
          match cut sep s' with
          | Some (a, b) => Some (String c a, b)
          | None => None
          end
      end
  end.

(** A writer and a reader for the block form in which the Database file
    holds string-valued entries:
<<
    ---
    label:
      KEY: value
    ...
>>
    They stand in for the YAML library in the examples. *)
Definition dump_field (kv : string * value) : string :=
  "  " +:+ kv.1 +:+ ": "
  +:+ match kv.2 with VStr v => v | VList l => join ", " l end +:+ newline.

Definition dump_entry (item : string * fields) : string :=
  item.1 +:+ ":" +:+ newline +:+ concat (map dump_field item.2).

Definition dump (doc : odict fields) : string :=
  "---" +:+ newline +:+ concat (map dump_entry doc) +:+ "..." +:+ newline.

(** One line of a document [cur] being read: a field of the last entry,
    or the label of a new entry. *)
Definition read_line (line : string) (cur : odict fields) : odict fields :=
  match strip_prefix "  " line, cut ": " line, reverse cur with
  | Some body, Some _, (lbl, fs) :: before =>
      match cut ": " body with
      | Some (k, v) => reverse ((lbl, fs ++ [(k, VStr v)]) :: before)
      | None => cur
      end
  | _, _, _ => cur ++ [(rstrip_by (Ascii.eqb ":") line, [])]
  end.

Fixpoint read_lines (lines : list string) (cur : option (odict fields))
    : list (odict fields) :=
  match lines with
  | [] => []
  | line :: lines' =>
      if String.eqb line "---" then read_lines lines' (Some [])
      else if String.eqb line "..." then
        match cur with
        | Some doc => doc :: read_lines lines' None
        | None => read_lines lines' None
        end
      else
        match cur with
        | Some doc => read_lines lines' (Some (read_line line doc))
        | None => read_lines lines' None
        end
  end.

Definition load_all (text : string) : list (odict fields) :=
  read_lines (split_on (ascii_of_nat 10) text) None.

Definition yaml : Yaml := {| yaml_dump := dump; yaml_load_all := load_all |}.

(** Two parsers: [bibtex] reads through the BibTeX stand-in, and
    [yaml] finds one bare entry per word of its argument. *)
Definition bare (lbl : string) : Parser.Entry :=
  Parser.new lbl [("ENTRYTYPE", VStr "article"); ("ID", VStr lbl)].

Definition parsers : Parsers :=
  [("bibtex", @Parser.from_bibtex bibtex);
   ("yaml", fun text => Ok (od_of_items (map (fun lbl => (lbl, bare lbl)) (split_ws text))))].

Definition config : Config := "article".

(** An editor session that changes nothing. *)
Definition editor : Editor := fun _ bib => bib.

(** A git whose reverts succeed and whose new commits are named after
    the commit they undo. *)
Definition git : Git :=
  {| revert_succeeds := fun _ _ => true;
     new_sha := fun sha _ => "u" +:+ sha |}.

(** Setters that store the absolute paths as a list, and the tags as
    [set_tags] of crema/parser.py does. *)
Definition setters : Database.Setters :=
  {| Database.set_file := fun files e =>
       Parser.with_data e
         (od_set "file" (VList (map filesystem files)) (Parser.data e));
     Database.set_tags := Parser.set_tags |}.

(** A merge that skips the labels that the Database holds already: it
    takes them out of the batch and appends the others. *)
Definition merge (new_entries : odict Parser.Entry) (bib : Database.t)
    : Database.t * odict Parser.Entry :=
  let fresh := List.filter (fun kv => negb (od_in kv.1 bib)) new_entries in
  (bib ++ fresh, fresh).

Definition update : Database.Update.
Proof.
  assert (Hfresh : forall (new_entries : odict Parser.Entry) (bib : Database.t) k,
             od_get k (List.filter (fun kv => negb (od_in kv.1 bib)) new_entries)
             = if negb (od_in k bib) then od_get k new_entries else None).
  { intros new_entries bib k.
    induction new_entries as [|[k' e'] new_entries IH]; simpl.
    - by destruct (negb (od_in k bib)).
    - destruct (String.eqb_spec k k') as [<-|Hne].
      + destruct (negb (od_in k bib)) eqn:Hk; simpl.
        * by rewrite String.eqb_refl.
        * by rewrite IH, ?Hk.
      + destruct (negb (od_in k' bib)); simpl; [|done].
        by apply String.eqb_neq in Hne as ->. }
  assert (Hskip : forall (k : string) (pre rest : odict Parser.Entry),
             od_get k pre = None -> od_get k (pre ++ rest) = od_get k rest).
  { intros k pre rest. induction pre as [|[k' e'] pre IH]; [done |].
    simpl. destruct (String.eqb k k'); [done | apply IH]. }
  refine {| Database.update := merge |}.
  - intros new_entries bib k e Hk Hget. unfold merge. cbn [fst].
    unfold od_in in Hk.
    assert (Hnone : od_get k bib = None) by (by destruct (od_get k bib)).
    rewrite Hskip by done. rewrite Hfresh. unfold od_in. by rewrite Hnone.
  - intros new_entries bib k. unfold merge. cbn [snd].
    unfold od_in at 1. rewrite Hfresh. unfold od_in.
    destruct (od_get k bib), (od_get k new_entries); done.
Defined.
End Stub.

(* ===================================================================== *)
(** * The specification's wording of two operations                       *)
(* ===================================================================== *)

Module Spec.
Import PyStr.

(** The [tags] field as the specification words it: the tokens, each
    trimmed and with its leading plus signs stripped, joined by a comma
    and a space. *)
Definition tags_value (tags : list string) : string :=
  join ", " (map (fun tag => lstrip_by (Ascii.eqb "+") (strip tag)) tags).

(** The most frequent item as the specification words it: the first
    item, in the order of the list, whose count is maximal. *)
Definition most_common_first (lst : list string) : result string :=
  max_by (fun x => count x lst) lst.
End Spec.

(* ===================================================================== *)
(** * Exceptions of the rest of the code                                  *)
(* ===================================================================== *)

(** The exception classes that the functions below add to those of
    [exn]. *)
Inductive error : Type :=
  | Builtin (e : exn)
  | UnboundLocalError (name : string)
  | AttributeError
  | TypeError
  | SystemExit (status : nat).

Inductive run (A : Type) : Type :=
  | Done (a : A)
  | Fail (e : error).

Arguments Done {A} a.
Arguments Fail {A} e.

#[global] Instance run_ret : MRet run := fun _ a => Done a.
#[global] Instance run_bind : MBind run := fun _ _ k r =>
  match r with
  | Done a => k a
  | Fail e => Fail e
  end.

(** A call of a function of the first part. *)
Definition lift {A : Type} (r : result A) : run A :=
  match r with
  | Ok a => Done a
  | Raise e => Fail (Builtin e)
  end.

(* ===================================================================== *)
(** * More Python string primitives                                       *)
(* ===================================================================== *)

Module PyStr2.
Import PyStr.

(** [s.replace(old, new)] for a non-empty [old]: the occurrences of
    [old] from left to right, without overlap.  [skip] counts the
    characters of the last occurrence still to pass. *)
Fixpoint replace_from (skip : nat) (old new s : string) : string :=
  match s with
  | EmptyString => EmptyString
  | String c s' =>
      match skip with
      | S k => replace_from k old new s'
      | O =>
          if starts_with old s
          then new +:+ replace_from (String.length old - 1) old new s'
          else String c (replace_from 0 old new s')
      end
  end.

Definition replace (old new s : string) : string := replace_from 0 old new s.

(** [re.sub(r'\s+', ' ', s)]: every run of whitespace becomes one space.
    [in_run] tells that the character before was whitespace. *)
Fixpoint collapse_from (in_run : bool) (s : string) : string :=
  match s with
  | EmptyString => EmptyString
  | String c s' =>
      if is_space c then
        if in_run then collapse_from true s'
        else String " " (collapse_from true s')
      else String c (collapse_from false s')
  end.

Definition collapse_ws (s : string) : string := collapse_from false s.

(** [s[:n]] for [n >= 0] *)
Fixpoint take_str (n : nat) (s : string) : string :=
  match n, s with
  | S n', String c s' => String c (take_str n' s')
  | _, _ => EmptyString
  end.

(** [s[:-n]] for [n > 0] *)
Definition drop_last (n : nat) (s : string) : string :=
  take_str (String.length s - n) s.

(** [l[0]] *)
Definition first_item {A : Type} (l : list A) : result A :=
  match l with
  | [] => Raise IndexError
  | x :: _ => Ok x
  end.

(** [s.lower()], on ASCII. *)
Definition lower_char (c : ascii) : ascii :=
  let n := nat_of_ascii c in
  if ((65 <=? n) && (n <=? 90))%nat then ascii_of_nat (n + 32) else c.

Fixpoint lower (s : string) : string :=
  match s with
  | EmptyString => EmptyString
  | String c s' => String (lower_char c) (lower s')
  end.
End PyStr2.

(* ===================================================================== *)
(** * crema/parser.py: Entry.from_arxiv                                   *)
(* ===================================================================== *)

Module Arxiv.
Import PyStr PyStr2 Parser.

Definition ARXIV_URL : string := "https://export.arxiv.org/api/query?id_list=".

(** A tag of the parsed page, as far as [from_arxiv] looks at it: its
    name, its contents (taken to be text), its attributes, and the
    contents of each tag below it, in the order of [findChildren()]. *)
Record element : Type := mkElement {
  el_name : string;
  el_contents : list string;
  el_attrs : odict string;
  el_children : list (list string)
}.

(** [BeautifulSoup(text, features='html.parser').feed.entry
    .findChildren(recursive=False)], and [None] where the page has no
    such tag. *)
Class Feed := feed_entry : string -> option (list element).

(** The local variables of the loop: the dictionary [entry], the flag
    [first] (unbound at the start), and the lines printed. *)
Record state : Type := mkState {
  entry : odict string;
  first : option bool;
  printed : list string
}.

Definition set_entry (k v : string) (st : state) : state :=
  mkState (od_set k v (entry st)) (first st) (printed st).

(** [entry[k]] *)
Definition get_entry (k : string) (st : state) : run string :=
  match od_get k (entry st) with
  | Some v => Done v
  | None => Fail (Builtin (KeyError k))
  end.

(** [re.sub(r'\s+', ' ', text.strip().replace(newline, ' '))] *)
Definition one_line (text : string) : string :=
  collapse_ws (replace newline " " (strip text)).

(** [[n.contents[0] for n in key.findChildren()][0]] *)
Definition author_name (key : element) : run string :=
  names ← lift (mapM first_item (el_children key));
  lift (first_item names).

(** The branch [elif key.name == 'author']. *)
Definition author_step (key : element) (st : state) : run state :=
  let st :=
    if negb (od_in "author" (entry st))
    then mkState (od_set "author" "" (entry st)) (Some true) (printed st)
    else st in
  name ← author_name key;
  st ← match first st with
       | None => Fail (UnboundLocalError "first")
       | Some true =>
           surname ← lift (last_item (split_ws name));
           let st :=
             match od_get "ID" (entry st) with
             | Some id => set_entry "ID" (surname +:+ id) st
             | None => set_entry "ID" surname st
             end in
           Done (mkState (entry st) (Some false) (printed st))
       | Some false => Done st
       end;
  author ← get_entry "author" st;
  Done (set_entry "author" (author +:+ (name +:+ " and ")) st).

(** The body of the loop over the tags of the entry. *)
Definition step (key : element) (st : state) : run state :=
  let name := el_name key in
  if String.eqb name "arxiv:doi" then
    doi ← lift (first_item (el_contents key));
    Done (set_entry "doi" doi st)
  else if String.eqb name "id" then
    id ← lift (first_item (el_contents key));
    Done (set_entry "eprint" id
            (set_entry "arxivid" (replace "http://arxiv.org/abs/" "" id) st))
  else if String.eqb name "primary_category" then
    match od_get "term" (el_attrs key) with
    | Some term => Done (set_entry "primaryClass" term st)
    | None => Fail (Builtin (KeyError "term"))
    end
  else if String.eqb name "published" then
    date ← lift (first_item (el_contents key));
    year ← lift (first_item (split_on "-" date));
    let st := set_entry "year" year st in
    match od_get "ID" (entry st) with
    | Some id => Done (set_entry "ID" (id +:+ year) st)
    | None => Done (set_entry "ID" year st)
    end
  else if String.eqb name "title" then
    text ← lift (first_item (el_contents key));
    Done (set_entry "title" (one_line text) st)
  else if String.eqb name "author" then
    author_step key st
  else if String.eqb name "summary" then
    text ← lift (first_item (el_contents key));
    Done (set_entry "abstract" (one_line text) st)
  else
    Done (mkState (entry st) (first st)
            (printed st ++ ["The key '" +:+ name
                            +:+ "' of this arXiv entry is not being processed!"])).

Fixpoint loop (keys : list element) (st : state) : run state :=
  match keys with
  | [] => Done st
  | key :: keys' => st ← step key st; loop keys' st
  end.

(** What follows the loop. *)
Definition finish (st : state) : run (odict Entry * list string) :=
  let st :=
    if od_in "doi" (entry st)
    then set_entry "ENTRYTYPE" "article" st
    else set_entry "ENTRYTYPE" "unpublished" st in
  author ← get_entry "author" st;
  let st := set_entry "author" (drop_last 5 author) st in
  id ← get_entry "ID" st;
  Done ([(id, new id (of_record (entry st)))], printed st).

(** [Entry.from_arxiv]: the batch, and the lines printed. *)
Definition from_arxiv `{Web, Feed} (arxiv : string)
    : run (odict Entry * list string) :=
  match feed_entry (http_get (ARXIV_URL +:+ arxiv)) with
  | None => Fail AttributeError
  | Some keys =>
      st ← loop keys (mkState [("archivePrefix", "arXiv")] None []);
      finish st
  end.

(** The names that the loop reads off the author tags, and the years it
    reads off the [published] tags, in the order of the tags. *)
Definition authors (keys : list element) : list string :=
  omap (fun key =>
          if String.eqb (el_name key) "author" then
            match el_children key with (name :: _) :: _ => Some name | _ => None end
          else None) keys.

Definition years (keys : list element) : list string :=
  omap (fun key =>
          if String.eqb (el_name key) "published" then
            match el_contents key with
            | date :: _ => head (split_on "-" date)
            | [] => None
            end
          else None) keys.

Definition has_doi (keys : list element) : bool :=
  existsb (fun key => String.eqb (el_name key) "arxiv:doi") keys.

(** ** Invariants of the loop *)

(** The flag [first] is bound as soon as [entry] has an author. *)
Definition first_bound (st : state) : Prop :=
  od_in "author" (entry st) = true -> first st <> None.

(** What the loop has in [entry] and [first] once it has read the author
    names [names], the years [ys] and, if [d], a DOI. *)
Definition read_so_far (names ys : list string) (d : bool) (st : state) : Prop :=
  od_in "doi" (entry st) = d
  /\ match names with
     | [] =>
         first st = None
         /\ od_get "author" (entry st) = None
         /\ od_get "ID" (entry st)
            = match ys with [] => None | _ :: _ => Some (concat ys) end
     | name :: _ =>
         first st = Some false
         /\ od_get "author" (entry st)
            = Some (concat (map (fun n => n +:+ " and ") names))
         /\ exists surname,
              last_item (split_ws name) = Ok surname
              /\ od_get "ID" (entry st) = Some (surname +:+ concat ys)
     end.

End Arxiv.

(* ===================================================================== *)
(** * Invariant of the batches built by [from_bibtex] and [from_yaml]     *)
(* ===================================================================== *)

Module Batch.
Import Parser.

(** What the loops of the parsers keep true of the batch [bib] they
    build from the records (or items) [src]: each label once, and under
    each label an entry made by [Entry(label, data)] from one of them. *)
Definition batch_inv {R : Type} (made_from : string -> Entry -> R -> Prop)
    (src : list R) (bib : odict Entry) : Prop :=
  NoDup (od_keys bib)
  /\ forall k e, (k, e) ∈ bib ->
       label e = k /\ attrs e = [] /\ exists r, r ∈ src /\ made_from k e r.

(** [e] is [Entry(k, record)] for the record [r] of the BibTeX parser. *)
Definition from_record (k : string) (e : Entry) (r : odict string) : Prop :=
  od_get "ID" r = Some k /\ data e = of_record r.

(** [e] is [Entry(k, data)] for an item [(k, data)] of the document. *)
Definition from_item (k : string) (e : Entry) (doc : odict fields) : Prop :=
  (k, data e) ∈ doc.

End Batch.

(* ===================================================================== *)
(** * Filters                                                             *)
(* ===================================================================== *)

Module Filters.

(** The filter with every flag negated: what was to be included is to
    be excluded, and the other way round. *)
Definition opposite (flt : Parser.filter) : Parser.filter :=
  map (fun item => ((item.1.1, negb item.1.2), item.2)) flt.
End Filters.

(* ===================================================================== *)
(** * cobib/commands/open.py                                              *)
(* ===================================================================== *)

Module Open.
Import PyStr PyStr2.

(** What [parser.parse_args(args)] does, for the parser with the one
    positional argument [label]: it returns the namespace, or raises
    [argparse.ArgumentError] (the [error] method of
    [base_command.ArgumentParser] re-raises it), or prints and exits. *)
Inductive parsed : Type :=
  | Namespace (label : string)
  | ArgumentError (argument_name message : string)
  | Exits (text : string) (status : nat).

Class Argparse := parse_args : list string -> parsed.

(** [CONFIG.config], as far as the command reads it: under [BIB_DATA]
    the field mapping [entry.data] of every label ([None] for a field
    that is set to [None]), and the section [DATABASE]; either may be
    missing. *)
Record config : Type := mkConfig {
  BIB_DATA : option (odict (odict (option string)));
  DATABASE : option (odict string)
}.

(** A stream to print to. *)
Inductive stream : Type :=
  | stdout
  | stderr
  | file_object (name : string).

Inductive effect : Type :=
  | PrintUsage (file : stream)             (* [parser.print_usage(file)] *)
  | PrintTo (file : stream) (text : string)
  | Popen (argv : list string).            (* the process is started, or
                                              [FileNotFoundError] is passed *)

(** A run of a part of the command: what it did, and how it ended. *)
Record proc (A : Type) : Type := mkProc {
  effects : list effect;
  outcome : run A
}.

Arguments mkProc {A} effects outcome.
Arguments effects {A} p.
Arguments outcome {A} p.

#[global] Instance proc_ret : MRet proc := fun _ a => mkProc [] (Done a).
#[global] Instance proc_bind : MBind proc := fun _ _ k p =>
  match outcome p with
  | Done a => mkProc (effects p ++ effects (k a)) (outcome (k a))
  | Fail e => mkProc (effects p) (Fail e)
  end.

Definition say (ef : effect) : proc unit := mkProc [ef] (Done tt).

Definition raise {A : Type} (e : error) : proc A := mkProc [] (Fail e).

(** [sys.exit(status)] *)
Definition sys_exit (status : nat) : proc unit := raise (SystemExit status).

(** [d[k]] *)
Definition item {V : Type} (k : string) (d : odict V) : proc V :=
  match od_get k d with
  | Some v => mret v
  | None => raise (Builtin (KeyError k))
  end.

(** [try: body; except KeyError: handler] *)
Definition except_KeyError {A : Type} (body handler : proc A) : proc A :=
  match outcome body with
  | Fail (Builtin (KeyError _)) =>
      mkProc (effects body ++ effects handler) (outcome handler)
  | _ => body
  end.

(** How a block of the function ends: with a [return], or at its last
    line. *)
Inductive flow (A : Type) : Type :=
  | Returned (v : option string)
  | Goes (a : A).

Arguments Returned {A} v.
Arguments Goes {A} a.

Definition no_file : string := "Error: There is no file associated with this entry.".

Definition not_found (label : string) : string :=
  "Error: No entry with the label '" +:+ label +:+ "' could be found.".

(** Lines 38-49, the [if] on the field [file]: it leaves the local
    variable [opener] bound ([Some]) or not ([None]). *)
Definition check_file (cfg : config) (platform : string) (out : option stream)
    (data : odict (option string)) : proc (flow (option string)) :=
  if negb (od_in "file" data)
     || match od_get "file" data with Some None => true | _ => false end
  then
    match out with
    | None => mret (Returned (Some no_file))
    | Some file =>
        say (PrintTo file no_file);;
        sys_exit 1;;
        let opener :=
          match DATABASE cfg with
          | Some database => od_get "open" database
          | None => None
          end in
        let opener :=
          match opener with
          | Some opener => opener
          | None => if String.eqb (lower platform) "linux" then "xdg-open" else "open"
          end in
        mret (Goes (Some opener))
    end
  else mret (Goes None).

(** Lines 50-54: [Popen([opener, entry.data['file']], ...)]. *)
Definition popen (opener : option string) (data : odict (option string))
    : proc unit :=
  opener ← match opener with
           | Some opener => mret opener
           | None => raise (UnboundLocalError "opener")
           end;
  file ← item "file" data;
  match file with
  | Some file => say (Popen [opener; file])
  | None => raise TypeError
  end.

(** Lines 36-54, the body of the outer [try]. *)
Definition open_entry (cfg : config) (platform : string) (out : option stream)
    (label : string) : proc (flow unit) :=
  bib ← match BIB_DATA cfg with
        | Some bib => mret bib
        | None => raise (Builtin (KeyError "BIB_DATA"))
        end;
  data ← item label bib;
  f ← check_file cfg platform out data;
  match f with
  | Returned v => mret (Returned v)
  | Goes opener => popen opener data;; mret (Goes tt)
  end.

(** [OpenCommand.execute(args, out)]: what the function returns. *)
Definition execute `{Argparse} (cfg : config) (platform : string)
    (args : list string) (out : option stream) : proc (option string) :=
  match args with
  | [] => say (PrintUsage stderr);; sys_exit 1
  | _ :: _ => mret tt
  end;;
  match parse_args args with
  | ArgumentError argument_name message =>
      say (PrintTo stderr (argument_name +:+ ": " +:+ message));;
      mret None
  | Exits text status => say (PrintTo stderr text);; raise (SystemExit status)
  | Namespace label =>
      f ← except_KeyError (open_entry cfg platform out label)
            (say (PrintTo stdout (not_found label));; mret (Goes tt));
      match f with
      | Returned v => mret v
      | Goes _ => mret None
      end
  end.

End Open.

(* ===================================================================== *)
(** * main.py: [_dict_to_bibtex] and [_bibtex_to_dict]                     *)
(* ===================================================================== *)

Module Main.
Import PyStr PyStr2.

Definition tab : string := String (ascii_of_nat 9) EmptyString.

(** [sorted(keys)] for strings. *)
Fixpoint insert_sorted (k : string) (l : list string) : list string :=
  match l with
  | [] => [k]
  | x :: l' => if String.leb k x then k :: l else x :: insert_sorted k l'
  end.

Definition sorted (l : list string) : list string := foldr insert_sorted [] l.

(** A row of the table as a dictionary: the values are strings, or
    [None]. *)
Definition row : Type := odict (option string).

(** [entry[key]] where a string is needed. *)
Definition text_item (key : string) (entry : row) : run string :=
  match od_get key entry with
  | Some (Some v) => Done v
  | Some None => Fail TypeError
  | None => Fail (Builtin (KeyError key))
  end.

Definition field_line (key value : string) : string :=
  newline +:+ tab +:+ key +:+ " = {" +:+ value +:+ "},".

(** The body of the loop over [sorted(entry)]. *)
Definition add_field (entry : row) (bibtex key : string) : string :=
  match od_get key entry with
  | Some (Some value) =>
      if negb (mem key ["type"; "label"]) then bibtex +:+ field_line key value
      else bibtex
  | _ => bibtex
  end.

Definition _dict_to_bibtex (entry : row) : run string :=
  type ← text_item "type" entry;
  label ← text_item "label" entry;
  let bibtex := "@" +:+ type +:+ "{" +:+ label +:+ "," in
  let bibtex := fold_left (add_field entry) (sorted (od_keys entry)) bibtex in
  Done (strip_chars "," bibtex +:+ newline +:+ "}").

(** The class [[a-zA-Z]]. *)
Definition is_alpha (c : ascii) : bool := is_lower c || is_upper c.

(** [re.findall] with the pattern of the entry type: [@] at the start of
    the line, a group of letters, and an opening brace.  It can match
    at the start only, and its group is the whole run of letters. *)
Definition find_type (line : string) : list string :=
  match strip_prefix "@" line with
  | Some rest =>
      if starts_with "{" (drop_while is_alpha rest)
      then [take_while is_alpha rest]
      else []
  | None => []
  end.

(** The pattern of the label at the start of [s]: an opening brace, a
    group of word characters, a comma, and the end of the string.  The
    group is the whole run of word characters, and what follows it is a
    comma at the end of the string, or before the newline that ends it. *)
Definition label_at (s : string) : option string :=
  match strip_prefix "{" s with
  | Some rest =>
      let after := drop_while is_word rest in
      if String.eqb after "," || String.eqb after ("," +:+ newline)
      then Some (take_while is_word rest)
      else None
  | None => None
  end.

(** [re.findall] with the pattern of the label: a match ends the
    search, as it reaches the end of the line. *)
Fixpoint find_label (line : string) : list string :=
  match label_at line with
  | Some group => [group]
  | None =>
      match line with
      | EmptyString => []
      | String _ line' => find_label line'
      end
  end.

(** [key, value = line.split('='); entry[key.strip()] = ...] *)
Definition read_field (line : string) (entry : odict string) : result (odict string) :=
  match split_on "=" line with
  | [key; value] =>
      Ok (od_set (strip key) (collapse_ws (strip_chars " ,{}" value)) entry)
  | _ => Raise ValueError
  end.

(** The loop over [lines[1:]]. *)
Fixpoint read_fields (lines : list string) (entry : odict string)
    : result (odict string) :=
  match lines with
  | [] => Ok entry
  | line :: lines' =>
      if String.eqb line "}" then Ok entry
      else entry ← read_field line entry; read_fields lines' entry
  end.

Definition _bibtex_to_dict (bibtex : string) : result (odict string) :=
  let lines := split_on (ascii_of_nat 10) bibtex in
  line ← first_item lines;
  type ← first_item (find_type line);
  let entry := od_set "type" type [] in
  label ← first_item (find_label line);
  let entry := od_set "label" label entry in
  read_fields (tail lines) entry.

(** The fields that the loop of [_dict_to_bibtex] writes for the keys
    [keys], in their order. *)
Definition written (entry : row) (keys : list string) : list (string * string) :=
  omap (fun key =>
          match od_get key entry with
          | Some (Some value) =>
              if negb (mem key ["type"; "label"]) then Some (key, value) else None
          | _ => None
          end) keys.

(** The line of a field, with the brace that closes it, and the comma if
    it has one. *)
Definition line_of (closing : string) (kv : string * string) : string :=
  tab +:+ kv.1 +:+ " = {" +:+ kv.2 +:+ closing.

(** A field that takes one line of the text and is read back as it is:
    neither the key nor the value holds [=] or a newline, the key has no
    whitespace at its ends, the value none of [ ,{}] at its ends, and the
    whitespace inside the value is single spaces. *)
Definition no_eq_nl (c : ascii) : bool :=
  negb (Ascii.eqb c "=") && negb (Ascii.eqb c (ascii_of_nat 10)).

Definition plain (key value : string) : bool :=
  all_chars no_eq_nl key && String.eqb (strip key) key
  && all_chars no_eq_nl value
  && String.eqb (strip_chars " ,{}" value) value
  && String.eqb (collapse_ws value) value.

End Main.

(* ===================================================================== *)
(** * More stand-ins for the examples                                     *)
(* ===================================================================== *)

Module Sample.
Import PyStr Parser.

(** A BibTeX reader that finds the same key twice: an article first, and
    then a book. *)
Definition twice : Bibtex :=
  fun text => [[("ENTRYTYPE", "article"); ("ID", text); ("year", "1984")];
               [("ENTRYTYPE", "book"); ("ID", text)]].

(** The tags of the entry of an arXiv answer: two authors after the date,
    a DOI, and a tag that [from_arxiv] does not treat. *)
Definition page : list Arxiv.element :=
  [Arxiv.mkElement "id" ["http://arxiv.org/abs/1701.08213v1"] [] [];
   Arxiv.mkElement "updated" ["2017-01-28T19:12:44Z"] [] [];
   Arxiv.mkElement "published" ["2017-01-27T21:31:34Z"] [] [];
   Arxiv.mkElement "title" ["  Bosonic   quantum chemistry "] [] [];
   Arxiv.mkElement "author" [] [] [["Max Planck"]];
   Arxiv.mkElement "author" [] [] [["Albert Einstein"]];
   Arxiv.mkElement "arxiv:doi" ["10.1000/a"] [] [];
   Arxiv.mkElement "primary_category" [] [("term", "quant-ph")] []].

Definition feed : Arxiv.Feed := fun _ => Some page.

(** An argument parser that takes exactly one argument as the label. *)
Definition argparse : Open.Argparse :=
  fun args =>
    match args with
    | [label] => Open.Namespace label
    | _ => Open.Exits "usage: open [-h] label" 2
    end.

(** A Database with one entry, which has a file. *)
Definition library : Open.config :=
  Open.mkConfig
    (Some [("knuth1984", [("ID", Some "knuth1984");
                          ("file", Some "/home/user/knuth1984.pdf")])])
    None.

(** Rows of the table of [main.py]: one with fields, one without, and
    one with a URL that has a query. *)
Definition knuth : Main.row :=
  [("year", Some "1984"); ("label", Some "knuth1984"); ("doi", None);
   ("author", Some "Donald E. Knuth"); ("type", Some "article");
   ("Title", Some "Literate programming")].

Definition bare_row : Main.row :=
  [("label", Some "knuth1984"); ("type", Some "article"); ("doi", None)].

Definition with_url : Main.row :=
  [("label", Some "knuth1984"); ("type", Some "article");
   ("url", Some "http://example.org/?id=1984")].
End Sample.


Example strip_ex : PyStr.strip_chars ", " "a, b , " = "a, b".
Proof. reflexivity. Qed.
Example split_ex : PyStr.split_ws "  c3 Auto-commit:   AddCommand " = ["c3"; "Auto-commit:"; "AddCommand"].
Proof. reflexivity. Qed.
Example split_on_ex : PyStr.split_on "/" "a/b//c" = ["a"; "b"; ""; "c"].
Proof. reflexivity. Qed.
Example contains_ex : PyStr.contains "ste" "Einstein" = true /\ PyStr.contains "" "" = true /\ PyStr.contains "x" "Einstein" = false.
Proof. repeat split; reflexivity. Qed.
Example match_doi_ex :
  Parser.match_doi "10.1000/xyz123" = Some "10.1000/xyz123" /\
  Parser.match_doi "not-a-doi" = None /\
  Parser.match_doi "10.1000/xyz123). Next" = Some "10.1000/xyz123" /\
  Parser.match_doi "10.1000/a-b-, x" = Some "10.1000/a-b" /\
  Parser.match_doi "10.1000/)" = None /\
  Parser.match_doi "10.1000/a&b" = Some "10.1000/a".
Proof. repeat split; reflexivity. Qed.
Example stub_yaml_ex :
  let doc := [("dummy", [("ENTRYTYPE", VStr "article"); ("ID", VStr "dummy")])] in
  Stub.load_all (Stub.dump doc) = [doc].
Proof. reflexivity. Qed.
Example findall_ex :
  Parser.findall "doi:10.1000/a, see 10.1000/b; again 10.1000/a." = ["10.1000/a"; "10.1000/b"; "10.1000/a"].
Proof. reflexivity. Qed.

(* ===================================================================== *)
(** * Facts about strings and dictionaries                                *)
(* ===================================================================== *)

Section string_facts.
Import PyStr.

Lemma app_cons (c : ascii) (s t : string) :
  String c s +:+ t = String c (s +:+ t).
Proof. reflexivity. Qed.

Lemma app_empty_l (s : string) : "" +:+ s = s.
Proof. reflexivity. Qed.

Lemma app_empty_r (s : string) : s +:+ "" = s.
Proof. induction s as [|c s IH]; [done | by rewrite app_cons, IH]. Qed.

Lemma app_assoc_str (s t u : string) : (s +:+ t) +:+ u = s +:+ (t +:+ u).
Proof. induction s as [|c s IH]; [done | by rewrite !app_cons, IH]. Qed.

Lemma rstrip_by_all p s : all_chars p s = true -> rstrip_by p s = "".
Proof.
  induction s as [|c s IH]; simpl; [done |].
  intros [Hc Hs]%andb_prop. by rewrite (IH Hs), Hc.
Qed.

Lemma rstrip_by_app p s t :
  all_chars p t = true -> rstrip_by p (s +:+ t) = rstrip_by p s.
Proof.
  intros Ht. induction s as [|c s IH].
  - by apply rstrip_by_all.
  - rewrite app_cons. simpl. by rewrite IH.
Qed.

Lemma strip_by_app p s t :
  all_chars p t = true -> strip_by p (s +:+ t) = strip_by p s.
Proof. intros Ht. unfold strip_by. by rewrite rstrip_by_app. Qed.

(** The generator of [set_tags] against [str.join]: appending the
    separator to every item is joining and appending it once. *)
Lemma concat_map_sep (sep : string) (f : string -> string) (l : list string) :
  l <> [] ->
  concat (map (fun x => f x +:+ sep) l) = join sep (map f l) +:+ sep.
Proof.
  induction l as [|x l IH]; [done |]. intros _.
  destruct l as [|y l].
  - cbn [concat map join]. by rewrite app_empty_r.
  - change (concat (map (fun x => f x +:+ sep) (x :: y :: l)))
      with ((f x +:+ sep) +:+ concat (map (fun x => f x +:+ sep) (y :: l))).
    rewrite IH by done.
    change (join sep (map f (x :: y :: l)))
      with (f x +:+ sep +:+ join sep (map f (y :: l))).
    by rewrite !app_assoc_str.
Qed.
End string_facts.

Section odict_facts.
Context {V : Type}.
Implicit Types (d : odict V) (k : string) (v : V).

Lemma od_get_set_eq k v d : od_get k (od_set k v d) = Some v.
Proof.
  induction d as [|[k' v'] d IH]; simpl.
  - by rewrite String.eqb_refl.
  - destruct (String.eqb k k') eqn:E; simpl.
    + by rewrite String.eqb_refl.
    + by rewrite E.
Qed.

Lemma od_get_set_ne k k' v d : k <> k' -> od_get k' (od_set k v d) = od_get k' d.
Proof.
  intros Hne. induction d as [|[k0 v0] d IH]; simpl.
  - destruct (String.eqb_spec k' k); congruence.
  - destruct (String.eqb_spec k k0) as [->|]; simpl.
    + destruct (String.eqb_spec k' k0); congruence.
    + by rewrite IH.
Qed.
End odict_facts.

(* ===================================================================== *)
(** * Entry.set_tags                                                      *)
(* ===================================================================== *)

Section set_tags.
Import PyStr Parser.

Lemma set_tags_stores (tags : list string) (e : Entry) :
  tags_of (set_tags tags e) =
  Some (VStr (strip_chars ", "
                (concat (map (fun tag => strip_chars "+" tag +:+ ", ") tags)))).
Proof. unfold tags_of, set_tags, with_data. simpl. apply od_get_set_eq. Qed.

(** C9, as the code has it: [set_tags] stores the tokens, each with its
    plus signs stripped at both ends, joined by a comma and a space, and
    then strips commas and spaces from both ends of the whole string; the
    tokens themselves are not trimmed.  In particular
    [set_tags(["+a", "b "])] stores ["a, b"]. *)
Theorem set_tags_joined :
  (forall (tags : list string) (e : Entry),
      tags_of (set_tags tags e) =
      Some (VStr (strip_chars ", " (join ", " (map (strip_chars "+") tags)))))
  /\ (forall e : Entry, tags_of (set_tags ["+a"; "b "] e) = Some (VStr "a, b")).
Proof.
  split.
  - intros tags e. rewrite set_tags_stores. do 2 f_equal.
    destruct tags as [|t tags]; [done |].
    rewrite (concat_map_sep ", " (strip_chars "+")) by done.
    unfold strip_chars. by apply strip_by_app.
  - intros e. by rewrite set_tags_stores.
Qed.

(** C9 as the claim words it fails: a token that ends in a space keeps
    it when it is not the last one. *)
Lemma set_tags_not_trimmed :
  tags_of (set_tags ["a "; "b"] (new "x" [])) = Some (VStr "a , b")
  /\ Spec.tags_value ["a "; "b"] = "a, b"
  /\ tags_of (set_tags ["a "; "b"] (new "x" []))
     <> Some (VStr (Spec.tags_value ["a "; "b"])).
Proof. split; [done | split; [done | by vm_compute]]. Qed.
End set_tags.

(* ===================================================================== *)
(** * Entry.matches                                                       *)
(* ===================================================================== *)

Section matches.
Import PyStr Parser.
Implicit Types (d : fields) (flt : filter) (key : string * bool).

Lemma match_values_present d key values field match_list :
  od_get key.1 d = Some field ->
  match_values d key values match_list =
  Ok (match_list ++
      map (fun val => if negb (py_in val field) then negb key.2 else key.2) values).
Proof.
  intros Hget. revert match_list.
  induction values as [|val values IH]; intros match_list; simpl.
  - by rewrite app_nil_r.
  - rewrite Hget, IH. by rewrite <- app_assoc.
Qed.

Lemma match_values_absent d key val values match_list :
  od_get key.1 d = None ->
  match_values d key (val :: values) match_list = Raise (KeyError key.1).
Proof. intros Hget. simpl. by rewrite Hget. Qed.

(** An element with an absent field and no substring contributes
    [not flag]. *)
Lemma match_items_absent_empty d key flt match_list :
  od_get key.1 d = None ->
  match_items d ((key, []) :: flt) match_list =
  match_items d flt (match_list ++ [negb key.2]).
Proof. intros Hget. simpl. unfold od_in. by rewrite Hget. Qed.

(** An element with a present field contributes one boolean per
    substring. *)
Lemma match_items_present d key values field flt match_list :
  od_get key.1 d = Some field ->
  match_items d ((key, values) :: flt) match_list =
  match_items d flt
    (match_list ++
     map (fun val => if negb (py_in val field) then negb key.2 else key.2) values).
Proof.
  intros Hget. simpl. unfold od_in. rewrite Hget. simpl.
  by rewrite (match_values_present _ _ _ field).
Qed.

(** C10: on the empty filter the predicate is [False] under OR and
    [True] under AND, for every entry. *)
Theorem matches_empty_filter (e : Entry) :
  matches e [] true = Ok false /\ matches e [] false = Ok true.
Proof. by split. Qed.

(** When every element with an absent field has an empty substring list,
    the predicate returns, and combines the contributions with [any] or
    [all]. *)
Lemma match_items_returns d flt match_list :
  (forall item, item ∈ flt -> od_get item.1.1 d = None -> item.2 = []) ->
  match_items d flt match_list = Ok (match_list ++ flat_map (contribution d) flt).
Proof.
  revert match_list. induction flt as [|[key values] flt IH]; intros match_list Hflt.
  - simpl. by rewrite app_nil_r.
  - assert (Hrest : forall item, item ∈ flt -> od_get item.1.1 d = None -> item.2 = []).
    { intros item Hin. apply Hflt. by right. }
    cbn [flat_map]. unfold contribution at 1. cbn [fst snd].
    destruct (od_get key.1 d) as [field|] eqn:Hget.
    + rewrite (match_items_present _ _ _ field) by done.
      rewrite IH by done. by rewrite <- app_assoc.
    + pose proof (Hflt (key, values) ltac:(by left) Hget) as Hv.
      simpl in Hv. subst values.
      rewrite match_items_absent_empty by done.
      rewrite IH by done. by rewrite <- app_assoc.
Qed.

Lemma matches_returns (e : Entry) flt (or_ : bool) :
  (forall item, item ∈ flt -> od_get item.1.1 (data e) = None -> item.2 = []) ->
  matches e flt or_ =
  Ok (if or_ then existsb id (flat_map (contribution (data e)) flt)
      else forallb id (flat_map (contribution (data e)) flt)).
Proof.
  intros Hflt. unfold matches. rewrite match_items_returns by done.
  by destruct or_.
Qed.

(** C5, where it fails: for every entry and combination flag, a filter
    element whose field the entry lacks and that lists at least one
    substring makes the predicate raise [KeyError] for that field, whatever
    the filter holds after it; no boolean is returned. *)
Theorem matches_absent_raises (e : Entry) key val values flt or_ :
  od_get key.1 (data e) = None ->
  matches e ((key, val :: values) :: flt) or_ = Raise (KeyError key.1).
Proof.
  intros Hget. unfold matches. simpl. by rewrite Hget.
Qed.

(** The examples of the specification, on entries that have the field. *)
Example matches_author :
  let einstein := new "einstein" [("ID", VStr "einstein"); ("author", VStr "Albert Einstein")] in
  let bohr := new "bohr" [("ID", VStr "bohr"); ("author", VStr "Niels Bohr")] in
  matches einstein [(("author", true), ["Einstein"])] false = Ok true /\
  matches bohr [(("author", true), ["Einstein"])] false = Ok false /\
  matches einstein [(("author", false), ["Einstein"])] false = Ok false /\
  matches bohr [(("author", false), ["Einstein"])] false = Ok true.
Proof. repeat split; reflexivity. Qed.
End matches.

(* ===================================================================== *)
(** * The DOI pattern                                                     *)
(* ===================================================================== *)

Section doi_pattern.
Import PyStr Parser.

Lemma word_is_suffix_char (c : ascii) :
  is_word c = true -> is_suffix_char c = true.
Proof.
  destruct c as [[] [] [] [] [] [] [] []]; vm_compute; congruence.
Qed.

(** After a word character the boundary is always met somewhere: at the
    end of the run of word characters at the latest. *)
Lemma suffix_end_word (prev : ascii) (s : string) :
  is_word prev = true -> is_Some (suffix_end prev s).
Proof.
  revert prev. induction s as [|c s IH]; intros prev Hprev; simpl.
  - unfold boundary. rewrite Hprev. by eexists.
  - unfold boundary. rewrite Hprev. simpl.
    destruct (is_word c) eqn:Hc.
    + rewrite (word_is_suffix_char c Hc).
      destruct (IH c Hc) as [ext ->]. by eexists.
    + simpl. destruct (is_suffix_char c); [|by eexists].
      destruct (suffix_end c s); by eexists.
Qed.

(** The match does not depend on the text after it. *)
Lemma suffix_end_fix (prev : ascii) (s ext : string) :
  suffix_end prev s = Some ext -> suffix_end prev ext = Some ext.
Proof.
  revert prev ext. induction s as [|c s IH]; intros prev ext; simpl.
  - destruct (boundary prev None) eqn:Hb; [|done].
    intros [= <-]. simpl. by rewrite Hb.
  - assert (Hhere : (if boundary prev (Some c) then Some "" else None) = Some ext ->
                    is_word c = false ->
                    suffix_end prev ext = Some ext).
    { destruct (boundary prev (Some c)) eqn:Hb; [|done].
      intros [= <-] Hc. simpl. unfold boundary in *. rewrite Hc in Hb.
      by rewrite Hb. }
    destruct (is_suffix_char c) eqn:Hsc.
    + destruct (suffix_end c s) as [ext'|] eqn:Hrec.
      * intros [= <-]. simpl. rewrite Hsc. by rewrite (IH c ext' Hrec).
      * intros Hext. apply Hhere; [done |].
        destruct (is_word c) eqn:Hc; [|done].
        destruct (suffix_end_word c s Hc) as [? Hsome]. congruence.
    + intros Hext. apply Hhere; [done |].
      destruct (is_word c) eqn:Hc; [|done].
      rewrite (word_is_suffix_char c Hc) in Hsc. done.
Qed.

Lemma take_while_all p (s : string) : all_chars p (take_while p s) = true.
Proof.
  induction s as [|c s IH]; simpl; [done |].
  destruct (p c) eqn:Hc; simpl; [by rewrite Hc, IH | done].
Qed.

Lemma take_while_app p (a t : string) (c : ascii) :
  all_chars p a = true -> p c = false ->
  take_while p (a +:+ String c t) = a /\ drop_while p (a +:+ String c t) = String c t.
Proof.
  intros Ha Hc. induction a as [|x a IH].
  - simpl. by rewrite Hc.
  - simpl in Ha. apply andb_prop in Ha as [Hx Ha].
    rewrite app_cons. simpl. rewrite Hx.
    destruct (IH Ha) as [-> ->]. done.
Qed.

Lemma strip_prefix_app (p s : string) : strip_prefix p (p +:+ s) = Some s.
Proof.
  induction p as [|c p IH]; [done |].
  rewrite app_cons. simpl. by rewrite Ascii.eqb_refl.
Qed.

(** What [re.match] returns matches again, and wholly. *)
Lemma match_doi_fix (s m : string) :
  match_doi s = Some m -> match_doi m = Some m.
Proof.
  unfold match_doi at 1.
  destruct (strip_prefix "10." s) as [r|]; [|done].
  destruct (take_while is_alnum r) as [|r0 reg] eqn:Htake; [done |].
  destruct (drop_while is_alnum r) as [|slash [|c s']]; [done | done |].
  destruct (Ascii.eqb_spec slash "/") as [->|]; [|done]. simpl.
  destruct (is_suffix_char c) eqn:Hsc; [|done].
  destruct (suffix_end c s') as [ext|] eqn:Hext; [|done].
  intros [= <-].
  unfold match_doi. rewrite strip_prefix_app.
  assert (Hall : all_chars is_alnum (String r0 reg) = true).
  { rewrite <- Htake. apply take_while_all. }
  destruct (take_while_app is_alnum (String r0 reg) (String c ext) "/" Hall eq_refl)
    as [Ht Hd].
  change ("/" +:+ String c ext) with (String "/" (String c ext)).
  rewrite Ht, Hd. simpl. rewrite Hsc.
  by rewrite (suffix_end_fix _ _ _ Hext).
Qed.

Lemma findall_from_match (k : nat) (s m : string) :
  m ∈ findall_from k s -> exists s', match_doi s' = Some m.
Proof.
  revert k. induction s as [|c s IH]; intros k; simpl.
  - by intros ?%elem_of_nil.
  - destruct k as [|k]; [|by apply IH].
    destruct (match_doi (String c s)) as [m'|] eqn:Hm; [|by apply IH].
    intros [->|Hin]%elem_of_cons; [by eexists | by eapply IH].
Qed.

(** Every item of [re.findall(DOI_REGEX, text)] passes the assertion of
    [from_doi]. *)
Lemma findall_matches (text m : string) :
  m ∈ findall text -> match_doi m = Some m.
Proof.
  intros [s' Hs']%findall_from_match. by eapply match_doi_fix.
Qed.
End doi_pattern.

(* ===================================================================== *)
(** * Entry.from_doi and Entry.from_pdf                                   *)
(* ===================================================================== *)

Section max_by.
Import PyStr.
Context (key : string -> nat).

Let step (best y : string) : string :=
  if (key best <? key y)%nat then y else best.

Lemma fold_max_spec (l : list string) (x : string) :
  let d := fold_left step l x in
  d ∈ x :: l /\ forall y, y ∈ x :: l -> key y <= key d.
Proof.
  revert x. induction l as [|z l IH]; intros x; simpl.
  - split; [by left |]. by intros y ->%list_elem_of_singleton.
  - destruct (IH (step x z)) as [Hin Hmax]. split.
    + apply elem_of_cons in Hin as [->|Hin].
      * unfold step. destruct (key x <? key z)%nat; [right; left | left].
      * by do 2 right.
    + intros y Hy.
      assert (Hstep : key x <= key (step x z) /\ key z <= key (step x z)).
      { unfold step. destruct (Nat.ltb_spec (key x) (key z)); lia. }
      apply elem_of_cons in Hy as [->|Hy].
      * etrans; [apply Hstep | apply Hmax; by left].
      * apply elem_of_cons in Hy as [->|Hy].
        -- etrans; [apply Hstep | apply Hmax; by left].
        -- apply Hmax. by right.
Qed.

Lemma max_by_spec (l : list string) :
  l <> [] ->
  exists d, max_by key l = Ok d /\ d ∈ l /\ forall y, y ∈ l -> key y <= key d.
Proof.
  destruct l as [|x l]; [done |]. intros _.
  eexists. split; [done |]. apply fold_max_spec.
Qed.

(** The fold keeps the first maximum: what comes before the result in
    the sequence has a smaller key. *)
Lemma fold_max_first (l : list string) (x : string) :
  exists pre post,
    x :: l = pre ++ fold_left step l x :: post
    /\ forall y, y ∈ pre -> key y < key (fold_left step l x).
Proof.
  revert x. induction l as [|z l IH]; intros x.
  - exists [], []. split; [done |]. by intros y ?%elem_of_nil.
  - cbn [fold_left].
    assert (Hb : (key x < key z /\ step x z = z) \/ (key z <= key x /\ step x z = x)).
    { unfold step. destruct (Nat.ltb_spec (key x) (key z)); [by left | by right]. }
    destruct (IH (step x z)) as (pre & post & Hsplit & Hpre).
    destruct (fold_max_spec l (step x z)) as [_ Hmax]. cbn zeta in Hmax.
    revert Hsplit Hpre Hmax. generalize (fold_left step l (step x z)). intros d.
    destruct Hb as [[Hlt ->]|[Hge ->]]; intros Hsplit Hpre Hmax.
    + exists (x :: pre), post. split; [by rewrite Hsplit |].
      intros y [->|Hy]%elem_of_cons; [|by apply Hpre].
      pose proof (Hmax z ltac:(by left)). lia.
    + destruct pre as [|x' pre].
      * injection Hsplit as Hx Hl. exists [], (z :: post).
        split; [by rewrite <- Hx, Hl |]. by intros y ?%elem_of_nil.
      * injection Hsplit as <- Hl. exists (x :: z :: pre), post.
        split; [by rewrite Hl |].
        pose proof (Hpre x ltac:(by left)) as Hx.
        intros y [->|[->|Hy]%elem_of_cons]%elem_of_cons; [done | lia |].
        apply Hpre. by right.
Qed.

Lemma max_by_first (l : list string) (d : string) :
  max_by key l = Ok d ->
  exists pre post, l = pre ++ d :: post /\ forall y, y ∈ pre -> key y < key d.
Proof.
  destruct l as [|x l]; [done |]. intros [= <-]. apply fold_max_first.
Qed.
End max_by.

Section from_pdf.
Import PyStr Parser.
Context `{Web, Bibtex, FileSystem, SetOrder}.

Lemma set_iter_nil_iff (l : list string) : set_iter l = [] <-> l = [].
Proof.
  split; intros Hnil.
  - destruct l as [|x l]; [done |].
    assert (x ∈ set_iter (x :: l)) as Hin by (apply set_iter_elem; by left).
    rewrite Hnil in Hin. by apply elem_of_nil in Hin.
  - destruct (set_iter l) as [|x l'] eqn:E; [done |].
    assert (x ∈ l) as Hin by (apply set_iter_elem; rewrite E; by left).
    rewrite Hnil in Hin. by apply elem_of_nil in Hin.
Qed.

(** [most_common] returns an item of the list that no other item
    outnumbers. *)
Lemma most_common_spec (lst : list string) :
  lst <> [] ->
  exists d, most_common lst = Ok d /\ d ∈ lst /\
            forall m, m ∈ lst -> count m lst <= count d lst.
Proof.
  intros Hne. unfold most_common.
  destruct (max_by_spec (fun x => count x lst) (set_iter lst)) as (d & Hd & Hin & Hmax).
  { by rewrite set_iter_nil_iff. }
  exists d. split; [done |]. split; [by apply set_iter_elem |].
  intros m Hm. apply Hmax. by apply set_iter_elem.
Qed.

Lemma most_common_nil : most_common [] = Raise ValueError.
Proof.
  unfold most_common. by rewrite (proj2 (set_iter_nil_iff []) eq_refl).
Qed.

Lemma from_doi_match (doi m : string) :
  match_doi doi = Some m ->
  from_doi doi = from_bibtex (http_get (DOI_URL +:+ doi)).
Proof.
  intros Hm. unfold from_doi. rewrite Hm.
  rewrite bool_decide_eq_true_2 by by eexists. done.
Qed.

Lemma from_doi_no_match (doi : string) :
  match_doi doi = None -> from_doi doi = Raise AssertionError.
Proof.
  intros Hm. unfold from_doi. rewrite Hm.
  rewrite bool_decide_eq_false_2; [done |]. by intros [? ?].
Qed.

Lemma set_file_stores (file : string) (e : Entry) :
  od_get "file" (data (set_file file e)) = Some (VStr (abspath file)).
Proof. unfold set_file, with_data. simpl. apply od_get_set_eq. Qed.

(** C4, as the code has it: an identifier that does not match the DOI
    pattern fails the assertion of [from_doi], and a PDF whose text has
    no match of the pattern makes [max] raise [ValueError] in
    [from_pdf]. *)
Theorem malformed_input_raises :
  (forall doi : string,
      match_doi doi = None -> from_doi doi = Raise AssertionError)
  /\ (forall pdf : pdf_file,
         findall (concat (pages pdf)) = [] -> from_pdf pdf = Raise ValueError).
Proof.
  split.
  - apply from_doi_no_match.
  - intros pdf Hnone. unfold from_pdf. rewrite Hnone.
    by rewrite most_common_nil.
Qed.

(** C8, as the code has it: when the text of the PDF has a match of the
    DOI pattern, [from_pdf] picks a match that no other match
    outnumbers, and among those the one that the iteration over the set
    of matches meets first: every match that it meets before occurs less
    often.  It fetches and parses the BibTeX text for it as [from_doi]
    does, and stores [abspath] of the name of the PDF as the [file]
    field of every resulting entry. *)
Theorem from_pdf_most_common (pdf : pdf_file) :
  findall (concat (pages pdf)) <> [] ->
  let matches := findall (concat (pages pdf)) in
  exists doi : string,
    most_common matches = Ok doi
    /\ doi ∈ matches
    /\ (forall m, m ∈ matches -> count m matches <= count doi matches)
    /\ (exists pre post,
          set_iter matches = pre ++ doi :: post
          /\ forall m, m ∈ pre -> count m matches < count doi matches)
    /\ from_doi doi = from_bibtex (http_get (DOI_URL +:+ doi))
    /\ from_pdf pdf =
         (bib ← from_doi doi;
          Ok (map (fun kv => (kv.1, set_file (name pdf) kv.2)) bib))
    /\ (forall bib lbl e,
           from_pdf pdf = Ok bib -> (lbl, e) ∈ bib ->
           od_get "file" (data e) = Some (VStr (abspath (name pdf)))).
Proof.
  intros Hne matches.
  destruct (most_common_spec matches Hne) as (doi & Hdoi & Hin & Hmax).
  exists doi. split; [done |]. split; [done |]. split; [done |].
  split; [exact (max_by_first (fun x => count x matches) _ _ Hdoi) |].
  assert (Hpdf : from_pdf pdf =
                 (bib ← from_doi doi;
                  Ok (map (fun kv => (kv.1, set_file (name pdf) kv.2)) bib))).
  { unfold from_pdf. fold matches. by rewrite Hdoi. }
  split; [|split; [done |]].
  - eapply from_doi_match, findall_matches, Hin.
  - intros bib lbl e Hbib Hle. rewrite Hpdf in Hbib.
    destruct (from_doi doi) as [bib0|]; [|done]. simpl in Hbib.
    injection Hbib as <-.
    apply list_elem_of_fmap in Hle as ([lbl0 e0] & [= -> ->] & _).
    apply set_file_stores.
Qed.
End from_pdf.

(* ===================================================================== *)
(** * AddCommand.execute                                                  *)
(* ===================================================================== *)

Section add.
Import PyStr Parser Add.
Context {parsers : Parsers} {config : Config} {editor : Editor}
        {setters : Database.Setters} {merge : Database.Update}.

Lemma assign_on_sole_one (set : Entry -> Entry) (k : string) (e : Entry) :
  assign_on_sole set [(k, e)] = Ok [(k, set e)].
Proof. reflexivity. Qed.

Lemma assign_on_sole_aborts (set : Entry -> Entry) (new_entries : odict Entry) :
  length new_entries <> 1 -> assign_on_sole set new_entries = Raise AssertionError.
Proof.
  intros Hlen. unfold assign_on_sole, od_values. rewrite length_map.
  by apply Nat.eqb_neq in Hlen as ->.
Qed.

Lemma assign_on_sole_Ok (set : Entry -> Entry) (new_entries res : odict Entry) :
  assign_on_sole set new_entries = Ok res ->
  length new_entries = 1 /\ od_keys res = od_keys new_entries.
Proof.
  unfold assign_on_sole, od_values, od_keys. rewrite length_map.
  destruct (Nat.eqb_spec (length new_entries) 1) as [Hlen|]; [|done].
  intros [= <-]. split; [done |]. rewrite map_map. done.
Qed.

(** On a batch of one entry the label block runs the setter on the
    entry and files it under the new label. *)
Lemma override_label_sole (largs : args) (lbl k : string) (e : Entry) :
  arg_label largs = Some lbl ->
  override_label largs [(k, e)] = Ok [(lbl, Database.set_label lbl e)].
Proof. intros Hl. unfold override_label. by rewrite Hl. Qed.

(** On any other batch the assertion fails. *)
Lemma override_label_aborts (largs : args) (lbl : string) (new_entries : odict Entry) :
  arg_label largs = Some lbl ->
  length new_entries <> 1 ->
  override_label largs new_entries = Raise AssertionError.
Proof.
  intros Hl Hlen. unfold override_label. rewrite Hl.
  by rewrite assign_on_sole_aborts.
Qed.

Lemma parse_source_none (ps : list (string * (string -> result (odict Entry))))
    (largs : args) :
  arg_source largs = [] -> parse_source ps largs = None.
Proof.
  intros Hs. induction ps as [|[name parse] ps IH]; simpl; [done |].
  by rewrite Hs.
Qed.

(** The file and tag blocks leave the keys of the batch alone. *)
Lemma override_rest_keys (largs : args) (b1 batch : odict Entry) :
  (b2 ← override_file largs b1; override_tags largs b2) = Ok batch ->
  od_keys batch = od_keys b1.
Proof.
  unfold override_file, override_tags.
  destruct (arg_file largs) as [files|]; cbn [mbind result_bind].
  - destruct (assign_on_sole (Database.set_file files) b1) as [b2|] eqn:H2; [|done].
    apply assign_on_sole_Ok in H2 as [_ <-]. cbn [mbind result_bind].
    destruct (arg_tags largs); [by intros [= <-] |].
    by intros [_ ->]%assign_on_sole_Ok.
  - destruct (arg_tags largs); [by intros [= <-] |].
    by intros [_ ->]%assign_on_sole_Ok.
Qed.

(** The keys of the batch after the three blocks. *)
Lemma overrides_keys (largs : args) (new_entries batch : odict Entry) :
  overrides largs new_entries = Ok batch ->
  match arg_label largs with
  | Some lbl => od_keys batch = [lbl]
  | None => od_keys batch = od_keys new_entries
  end.
Proof.
  unfold overrides, override_label.
  destruct (arg_label largs) as [lbl|]; cbn [mbind result_bind];
    [|apply override_rest_keys].
  destruct (assign_on_sole (Database.set_label lbl) new_entries) as [b0|] eqn:H0; [|done].
  apply assign_on_sole_Ok in H0 as [Hlen Hkeys]. cbn [mbind result_bind].
  intros ->%override_rest_keys.
  destruct b0 as [|[k0 e0] [|? ?]]; [| reflexivity |].
  - unfold od_keys in Hkeys. by destruct new_entries.
  - apply (f_equal (@length string)) in Hkeys.
    unfold od_keys in Hkeys. rewrite !length_map in Hkeys. simpl in Hkeys. lia.
Qed.

(** C1: with a label [lbl], a source whose parser returns the one entry
    [e] gives the label block the entry that [set_label] makes of [e]:
    its [label] and its field [ID] are [lbl], and it is filed under
    [lbl].  This is the batch that goes through the file and tag blocks
    and then to the merge, so the renaming and the new key come before
    [bib.update]; without files and tags it is the merged batch itself.
    A batch of any other length makes the command abort with the
    assertion failure. *)
Theorem add_label_renames (largs : args) (w : world) (lbl : string) :
  arg_label largs = Some lbl ->
  (forall k e,
      parse_source avail_parsers largs = Some (Ok [(k, e)]) ->
      label (Database.set_label lbl e) = lbl
      /\ od_get "ID" (data (Database.set_label lbl e)) = Some (VStr lbl)
      /\ override_label largs [(k, e)] = Ok [(lbl, Database.set_label lbl e)]
      /\ merged_batch largs w
         = (b ← override_file largs [(lbl, Database.set_label lbl e)];
            b ← override_tags largs b;
            Ok (Some (b, false)))
      /\ (arg_file largs = None -> arg_tags largs = [] ->
          merged_batch largs w = Ok (Some ([(lbl, Database.set_label lbl e)], false))))
  /\ (forall new_entries,
        parse_source avail_parsers largs = Some (Ok new_entries) ->
        length new_entries <> 1 ->
        execute largs w = Raise AssertionError).
Proof.
  intros Hlbl. split.
  - intros k e Hparse.
    assert (Hbatch : merged_batch largs w
                     = (b ← override_file largs [(lbl, Database.set_label lbl e)];
                        b ← override_tags largs b;
                        Ok (Some (b, false)))).
    { unfold merged_batch, select_source. rewrite Hparse.
      cbn [mbind result_bind]. unfold overrides.
      rewrite (override_label_sole largs lbl k e Hlbl). cbn [mbind result_bind].
      by destruct (override_file largs _) as [b|]. }
    split; [done |]. split; [apply od_get_set_eq |].
    split; [by apply override_label_sole |]. split; [exact Hbatch |].
    intros Hfile Htags. rewrite Hbatch. unfold override_file, override_tags.
    by rewrite Hfile, Htags.
  - intros new_entries Hparse Hlen. unfold execute, select_source. rewrite Hparse.
    cbn [mbind result_bind]. unfold overrides.
    by rewrite (override_label_aborts largs lbl new_entries Hlbl Hlen).
Qed.

Lemma od_get_Some_key {V : Type} (k : string) (v : V) (d : odict V) :
  od_get k d = Some v -> k ∈ od_keys d.
Proof.
  induction d as [|[k' v'] d IH]; [done |]. simpl.
  destruct (String.eqb_spec k k') as [->|_]; [by left |].
  intros Hget. right. by apply IH.
Qed.

(** A batch whose keys are the one label [lbl] comes out of the merge
    empty when the Database held [lbl] already. *)
Lemma update_drops_sole (batch : odict Entry) (bib : Database.t) (lbl : string) :
  od_keys batch = [lbl] -> od_in lbl bib = true ->
  (Database.update batch bib).2 = [].
Proof.
  intros Hkeys Hin.
  destruct (Database.update batch bib).2 as [|[k e] rest] eqn:Hleft; [done |].
  pose proof (Database.update_batch batch bib k) as Hk. rewrite Hleft in Hk.
  unfold od_in at 1 in Hk. simpl in Hk. rewrite String.eqb_refl in Hk.
  symmetry in Hk. apply andb_prop in Hk as [Hkb Hkn].
  assert (k = lbl) as ->.
  { unfold od_in in Hkb. destruct (od_get k batch) eqn:Hget; [|done].
    assert (k ∈ od_keys batch) as Hel by (by eapply od_get_Some_key).
    rewrite Hkeys in Hel. by apply list_elem_of_singleton in Hel. }
  by rewrite Hin in Hkn.
Qed.

(** The three blocks get through on a batch of one entry, and leave a
    batch of one entry. *)
Lemma overrides_sole (largs : args) (k : string) (e : Entry) :
  exists k' e', overrides largs [(k, e)] = Ok [(k', e')].
Proof.
  unfold overrides, override_label, override_file, override_tags.
  destruct (arg_label largs) as [lbl|], (arg_file largs) as [files|],
    (arg_tags largs) as [|t tags];
    rewrite ?assign_on_sole_one; cbn [mbind result_bind];
    rewrite ?assign_on_sole_one; cbn [mbind result_bind od_values map snd];
    by eexists _, _.
Qed.

(** C6: a manual label [lbl] without a source.  The first block makes
    the batch of the one new entry that has the identifier and the
    entry type as its only fields, flagged for editing; the batch
    reaches the merge as one entry under the key [lbl], and without
    files and tags it is that entry as it was made.  When the Database
    holds [lbl] already, the command returns, having logged the warning
    that points to [cobib edit] and not called the editor: after the
    warning it saves and commits, and it confirms no label. *)
Theorem add_manual_label (lbl : string) (files : option (list string))
    (tags : list string) (w : world) :
  let largs := mkArgs (Some lbl) files [] tags in
  let e := new lbl [("ID", VStr lbl); ("ENTRYTYPE", VStr default_entry_type)] in
  let started :=
    LogWarning ("No input to parse. Creating new entry '" +:+ lbl +:+ "' manually.") in
  select_source largs w = Ok (Batch [(lbl, e)] true, emit [started] w)
  /\ (exists e', merged_batch largs w = Ok (Some ([(lbl, e')], true)))
  /\ (files = None -> tags = [] -> merged_batch largs w = Ok (Some ([(lbl, e)], true)))
  /\ (od_in lbl (database w) = true ->
      exists e' w',
        merged_batch largs w = Ok (Some ([(lbl, e')], true))
        /\ execute largs w = Ok w'
        /\ trace w' = trace w ++ [started; LogWarning (exists_msg lbl);
                                  Save; GitCommit "add"]
        /\ database w' = (Database.update [(lbl, e')] (database w)).1).
Proof.
  intros largs e started.
  assert (Hsel : select_source largs w = Ok (Batch [(lbl, e)] true, emit [started] w)).
  { unfold select_source. by rewrite parse_source_none. }
  destruct (overrides_sole largs lbl e) as (k' & e' & Hb).
  assert (k' = lbl) as ->.
  { pose proof (overrides_keys largs _ _ Hb) as Hkeys. by injection Hkeys. }
  assert (Hm : merged_batch largs w = Ok (Some ([(lbl, e')], true))).
  { unfold merged_batch. rewrite Hsel. cbn [mbind result_bind]. by rewrite Hb. }
  split; [exact Hsel |]. split; [by exists e' |]. split.
  { intros -> ->. unfold merged_batch. by rewrite Hsel. }
  intros Hold. exists e'. eexists. split; [exact Hm |].
  unfold execute. rewrite Hsel. cbn [mbind result_bind]. rewrite Hb.
  cbn [mbind result_bind database emit trace].
  rewrite (update_drops_sole [(lbl, e')] (database w) lbl eq_refl Hold).
  split; [reflexivity |].
  unfold conditional_edit, label_missing, label_text, emit, od_in.
  cbn [arg_label largs od_get negb trace database od_keys map flat_map].
  split; [by rewrite <- !app_assoc, app_nil_r | done].
Qed.
End add.

(* ===================================================================== *)
(** * Reading the git log                                                 *)
(* ===================================================================== *)

Section log_text.
Import PyStr.

#[local] Abbreviation nl := (ascii_of_nat 10).

Lemma is_empty_app (a b : string) :
  is_empty (a +:+ b) = is_empty a && is_empty b.
Proof. by destruct a. Qed.

Lemma rstrip_by_keep p (a b : string) :
  is_empty (rstrip_by p b) = false ->
  rstrip_by p (a +:+ b) = a +:+ rstrip_by p b.
Proof.
  intros Hb. induction a as [|c a IH]; [done |].
  rewrite !app_cons. simpl. rewrite IH, is_empty_app, Hb.
  by rewrite andb_false_r.
Qed.

Lemma all_chars_app p (a b : string) :
  all_chars p (a +:+ b) = all_chars p a && all_chars p b.
Proof.
  induction a as [|c a IH]; [done |].
  rewrite app_cons. simpl. by rewrite IH, andb_assoc.
Qed.

Lemma split_on_whole (sep : ascii) (s : string) :
  all_chars (fun c => negb (Ascii.eqb c sep)) s = true -> split_on sep s = [s].
Proof.
  induction s as [|c s IH]; simpl; [done |].
  intros [Hc Hs]%andb_prop. apply negb_true_iff in Hc. by rewrite Hc, IH.
Qed.

Lemma split_on_first (sep : ascii) (a t : string) :
  all_chars (fun c => negb (Ascii.eqb c sep)) a = true ->
  split_on sep (a +:+ String sep t) = a :: split_on sep t.
Proof.
  induction a as [|c a IH]; intros Ha.
  - simpl. by rewrite Ascii.eqb_refl.
  - simpl in Ha. apply andb_prop in Ha as [Hc Ha]. apply negb_true_iff in Hc.
    rewrite app_cons. simpl. by rewrite Hc, IH.
Qed.

Lemma all_chars_impl (p q : ascii -> bool) (s : string) :
  (forall c, p c = true -> q c = true) ->
  all_chars p s = true -> all_chars q s = true.
Proof.
  intros Hpq. induction s as [|c s IH]; simpl; [done |].
  intros [Hc Hs]%andb_prop. by rewrite (Hpq c Hc), IH.
Qed.

Lemma not_space_not_nl (c : ascii) :
  negb (is_space c) = true -> negb (Ascii.eqb c nl) = true.
Proof.
  destruct (Ascii.eqb_spec c nl) as [->|]; [by vm_compute | done].
Qed.

Lemma join_cons2 (sep x y : string) (l : list string) :
  join sep (x :: y :: l) = x +:+ sep +:+ join sep (y :: l).
Proof. reflexivity. Qed.

Lemma concat_cons (x : string) (l : list string) :
  concat (x :: l) = x +:+ concat l.
Proof. reflexivity. Qed.

Lemma join_nonempty (sep x : string) (l : list string) :
  is_empty x = false -> is_empty (join sep (x :: l)) = false.
Proof.
  intros Hx. destruct l; [done |].
  by rewrite join_cons2, is_empty_app, Hx.
Qed.

Section lines.
Import Undo.
Implicit Types (c : string * string) (h : history).

Lemma well_formed_cons c h :
  well_formed (c :: h) = true <-> ok_commit c /\ well_formed h = true.
Proof.
  unfold well_formed, ok_commit. simpl.
  rewrite !andb_true_iff. tauto.
Qed.

Lemma log_line_nonempty c : ok_commit c -> is_empty (log_line c) = false.
Proof.
  intros [[Hne _]%andb_prop _]. unfold log_line.
  rewrite is_empty_app. by apply negb_true_iff in Hne as ->.
Qed.

Lemma log_line_no_nl c :
  ok_commit c ->
  all_chars (fun x => negb (Ascii.eqb x nl)) (log_line c) = true.
Proof.
  intros [[_ Htok]%andb_prop [[_ Hsub]%andb_prop _]%andb_prop].
  unfold log_line. rewrite !all_chars_app, Hsub, andb_true_r.
  rewrite (all_chars_impl _ _ _ not_space_not_nl Htok). done.
Qed.

Lemma log_line_rstrip c :
  ok_commit c -> rstrip_by is_space (log_line c) = log_line c.
Proof.
  intros [_ [[Hne _]%andb_prop Hr%String.eqb_eq]%andb_prop].
  apply negb_true_iff in Hne.
  unfold log_line.
  assert (Hkeep : is_empty (rstrip_by is_space c.2) = false) by by rewrite Hr.
  rewrite rstrip_by_keep.
  - rewrite rstrip_by_keep by done. by rewrite Hr.
  - rewrite rstrip_by_keep by done. done.
Qed.

Lemma log_line_lstrip c (rest : string) :
  ok_commit c ->
  lstrip_by is_space (log_line c +:+ rest) = log_line c +:+ rest.
Proof.
  intros [[Hne Htok]%andb_prop _]. unfold log_line.
  destruct c.1 as [|x sha]; [done |].
  simpl in Htok. apply andb_prop in Htok as [Hx%negb_true_iff _].
  rewrite !app_cons. unfold lstrip_by. simpl. by rewrite Hx.
Qed.

Lemma log_text_rstrip h :
  h <> [] -> well_formed h = true ->
  rstrip_by is_space (concat (map (fun c => log_line c +:+ newline) h))
  = join newline (map log_line h).
Proof.
  induction h as [|c h IH]; [done |]. intros _ [Hc Hh]%well_formed_cons.
  destruct h as [|c2 h].
  - cbn [map concat join]. rewrite app_empty_r.
    rewrite rstrip_by_app by done. by apply log_line_rstrip.
  - change (map log_line (c :: c2 :: h))
      with (log_line c :: log_line c2 :: map log_line h).
    rewrite join_cons2.
    change (map (fun c => log_line c +:+ newline) (c :: c2 :: h))
      with ((log_line c +:+ newline) :: map (fun c => log_line c +:+ newline) (c2 :: h)).
    rewrite concat_cons.
    pose proof (IH ltac:(done) Hh) as IH'.
    rewrite rstrip_by_keep; rewrite IH'.
    + by rewrite app_assoc_str.
    + apply join_nonempty, log_line_nonempty.
      by apply well_formed_cons in Hh as [? _].
Qed.

Lemma log_text_split h :
  h <> [] -> well_formed h = true ->
  split_on nl (join newline (map log_line h)) = map log_line h.
Proof.
  induction h as [|c h IH]; [done |]. intros _ [Hc Hh]%well_formed_cons.
  destruct h as [|c2 h].
  - cbn [map join]. by apply split_on_whole, log_line_no_nl.
  - change (map log_line (c :: c2 :: h))
      with (log_line c :: log_line c2 :: map log_line h).
    rewrite join_cons2. unfold newline at 1.
    rewrite app_cons, app_empty_l.
    rewrite split_on_first by by apply log_line_no_nl.
    f_equal. by apply IH.
Qed.

(** On a well-formed history the loop of the command runs over the
    lines of the log, one per commit. *)
Lemma log_lines h :
  h <> [] -> well_formed h = true ->
  split_on nl (strip (concat (map (fun c => log_line c +:+ newline) h)))
  = map log_line h.
Proof.
  intros Hne Hwf. unfold strip, strip_by.
  rewrite log_text_rstrip by done.
  rewrite <- (log_text_split h) at 2 by done. f_equal.
  destruct h as [|c h]; [done |].
  apply well_formed_cons in Hwf as [Hc _].
  destruct h as [|c2 h].
  - cbn [map join]. rewrite <- (app_empty_r (log_line c)).
    by apply log_line_lstrip.
  - change (map log_line (c :: c2 :: h))
      with (log_line c :: log_line c2 :: map log_line h).
    rewrite join_cons2. by apply log_line_lstrip.
Qed.

Lemma split_ws_from_token (cur : list ascii) (u s : string) :
  all_chars (fun a => negb (is_space a)) u = true ->
  split_ws_from cur (u +:+ s)
  = split_ws_from (rev (list_ascii_of_string u) ++ cur) s.
Proof.
  revert cur. induction u as [|x u IH]; intros cur Hu; [done |].
  simpl in Hu. apply andb_prop in Hu as [Hx%negb_true_iff Hu].
  rewrite app_cons. simpl. rewrite Hx, IH by done.
  by rewrite <- app_assoc.
Qed.

(** The first word of a line of the log is the identifier of the
    commit. *)
Lemma split_ws_log_line c :
  is_token c.1 = true -> split_ws (log_line c) = c.1 :: split_ws c.2.
Proof.
  intros [Hne Htok]%andb_prop. unfold split_ws, log_line.
  rewrite split_ws_from_token by done. rewrite app_nil_r.
  rewrite app_cons, app_empty_l.
  destruct c.1 as [|x sha] eqn:E; [done |].
  change (split_ws_from ?cur (String " " ?s))
    with (match cur with
          | [] => split_ws_from [] s
          | _ :: _ => string_of_list_ascii (rev cur) :: split_ws_from [] s
          end).
  destruct (rev (list_ascii_of_string (String x sha))) eqn:Hrev.
  - apply (f_equal (@length ascii)) in Hrev.
    rewrite length_rev in Hrev. done.
  - rewrite <- Hrev, rev_involutive.
    by rewrite string_of_list_ascii_of_string.
Qed.
End lines.
End log_text.

(* ===================================================================== *)
(** * UndoCommand.execute                                                 *)
(* ===================================================================== *)

Section undo.
Import PyStr Undo.
Implicit Types (force : bool) (U : gset string) (commit sha : string)
               (commits : list string) (h : history).

Lemma scan_cons force U commit commits :
  scan force U (commit :: commits) =
  match split_ws commit with
  | [] => Raise ValueError
  | sha :: message =>
      match message with
      | [] => Raise IndexError
      | first :: _ =>
          last ← last_item message;
          if String.eqb first "Undo" then
            scan force ({[ last ]} ∪ U) commits
          else if bool_decide (sha ∈ U) then
            scan force U commits
          else if eligible force first last then
            Ok (Revert sha)
          else
            scan force U commits
      end
  end.
Proof. reflexivity. Qed.

Lemma last_item_cons (x : string) (l : list string) :
  exists t, last_item (x :: l) = Ok t.
Proof.
  revert x. induction l as [|y l IH]; intros x; [by eexists |].
  destruct (IH y) as [t Ht]. exists t. by rewrite <- Ht.
Qed.

(** A line that is an undo is passed over, and its last word joins the
    set. *)
Lemma scan_undo_line force U commit commits target :
  undo_target commit = Some target ->
  scan force U (commit :: commits) = scan force ({[ target ]} ∪ U) commits.
Proof.
  unfold undo_target. rewrite scan_cons.
  destruct (split_ws commit) as [|sha [|first message]]; [done | done |].
  destruct (String.eqb first "Undo"); [|done].
  destruct (last_item (first :: message)) as [last|]; [|done].
  by intros [= ->].
Qed.

(** What is reverted is the commit of a line that is not an undo, and
    whose identifier was not in the set when the loop came to it. *)
Lemma scan_revert_inv force U commits sha :
  scan force U commits = Ok (Revert sha) ->
  exists pre commit post message,
    commits = pre ++ commit :: post
    /\ split_ws commit = sha :: message
    /\ head message <> Some "Undo"
    /\ sha ∉ undone_after U pre.
Proof.
  revert U. induction commits as [|commit commits IH]; intros U; [done |].
  rewrite scan_cons.
  destruct (split_ws commit) as [|sha0 [|first message]] eqn:Hsplit; [done | done |].
  destruct (last_item_cons first message) as [last Hlast]. rewrite Hlast. simpl.
  assert (Hpass : forall U', undone_after U (commit :: []) = U' ->
            scan force U' commits = Ok (Revert sha) ->
            exists pre commit0 post message0,
              commit :: commits = pre ++ commit0 :: post
              /\ split_ws commit0 = sha :: message0
              /\ head message0 <> Some "Undo"
              /\ sha ∉ undone_after U pre).
  { intros U' HU' Hscan.
    destruct (IH U' Hscan) as (pre & c0 & post & m0 & -> & Hc0 & Hm0 & Hnot).
    exists (commit :: pre), c0, post, m0. repeat split; try done.
    simpl in HU'. simpl. by rewrite HU'. }
  destruct (String.eqb first "Undo") eqn:Hundo.
  - apply Hpass. simpl. unfold undo_target. by rewrite Hsplit, Hundo, Hlast.
  - assert (Hnone : undone_after U [commit] = U).
    { simpl. unfold undo_target. by rewrite Hsplit, Hundo. }
    case_bool_decide as Hin; [by apply Hpass |].
    destruct (eligible force first last); [|by apply Hpass].
    intros [= ->]. exists [], commit, commits, (first :: message).
    repeat split; try done.
    simpl. intros [= ->]. done.
Qed.

Context `{Git}.

(** The command on a well-formed history comes down to the scan of its
    lines. *)
Lemma execute_scan force h (r : result verdict) :
  h <> [] -> well_formed h = true ->
  scan force ∅ (map log_line h) = r ->
  execute (mkSetup true true) force h =
  (v ← r;
   match v with
   | Revert sha =>
       if revert_succeeds sha h
       then Ok (Undone sha, (new_sha sha h, undo_msg sha) :: h)
       else Ok (UndoFailed sha, h)
   | Exhausted => Ok (NothingToUndo, h)
   end).
Proof.
  intros Hne Hwf <-. unfold execute.
  destruct h as [|c h]; [done |].
  cbn [git_tracked git_initialized negb git_log].
  change (mbind ?f (Ok ?x)) with (f x). cbv beta.
  by rewrite (log_lines (c :: h)).
Qed.

Lemma scan_log_undo force U (c : string * string) commits rest target :
  is_token c.1 = true ->
  split_ws c.2 = "Undo" :: rest ->
  last_item ("Undo" :: rest) = Ok target ->
  scan force U (log_line c :: commits) = scan force ({[ target ]} ∪ U) commits.
Proof.
  intros Htok Hsplit Hlast. apply scan_undo_line.
  unfold undo_target. rewrite split_ws_log_line by done.
  rewrite Hsplit. change (String.eqb "Undo" "Undo") with true. cbv iota.
  by rewrite Hlast.
Qed.
End undo.

Section undo_scenarios.
Import PyStr Undo.
Context {git : Git}.

Lemma eligible_without_force (first last : string) :
  eligible false first last = true <->
  first = "Auto-commit:" /\ last <> "InitCommand".
Proof.
  unfold eligible. simpl.
  rewrite andb_true_iff, negb_true_iff, String.eqb_eq, String.eqb_neq. done.
Qed.

(** C2: on the log [c3, c2, c1] (two Add commits over the Init commit)
    and without [--force], an invocation reverts [c3] and commits that
    as [Undo c3]; the next reverts [c2]; a third finds nothing to undo,
    [c1] stays.  Git is taken to succeed, and the identifiers it gives
    the new commits to be tokens.  Without [--force] a commit is
    eligible exactly when it is an auto-commit not of the Init command;
    with it every commit is. *)
Theorem undo_twice :
  let cfg := mkSetup true true in
  let h0 := [("c3", "Auto-commit: AddCommand");
             ("c2", "Auto-commit: AddCommand");
             ("c1", "Auto-commit: InitCommand")] in
  let h1 := (new_sha "c3" h0, "Undo c3") :: h0 in
  let h2 := (new_sha "c2" h1, "Undo c2") :: h1 in
  is_token (new_sha "c3" h0) = true ->
  is_token (new_sha "c2" h1) = true ->
  revert_succeeds "c3" h0 = true ->
  revert_succeeds "c2" h1 = true ->
  execute cfg false h0 = Ok (Undone "c3", h1)
  /\ execute cfg false h1 = Ok (Undone "c2", h2)
  /\ execute cfg false h2 = Ok (NothingToUndo, h2)
  /\ (forall first last,
         eligible false first last = true <->
         first = "Auto-commit:" /\ last <> "InitCommand")
  /\ (forall first last, eligible true first last = true).
Proof.
  intros cfg h0 h1 h2 Hu1 Hu2 Hr1 Hr2.
  assert (Hwf0 : well_formed h0 = true) by reflexivity.
  assert (Hwf1 : well_formed h1 = true).
  { apply well_formed_cons. by repeat split. }
  assert (Hwf2 : well_formed h2 = true).
  { apply well_formed_cons. by repeat split. }
  assert (Hscan0 : forall s : gset string,
             "c2" ∉ s -> scan false s (map log_line h0) =
                         Ok (if bool_decide ("c3" ∈ s) then Revert "c2" else Revert "c3")).
  { intros s Hs. unfold h0. simpl map. rewrite !scan_cons.
    change (split_ws (log_line ("c3", "Auto-commit: AddCommand")))
      with ["c3"; "Auto-commit:"; "AddCommand"].
    change (split_ws (log_line ("c2", "Auto-commit: AddCommand")))
      with ["c2"; "Auto-commit:"; "AddCommand"].
    simpl. case_bool_decide; [|done].
    by rewrite bool_decide_eq_false_2. }
  assert (Hs0 : scan false ∅ (map log_line h0) = Ok (Revert "c3")).
  { rewrite Hscan0 by set_solver. by rewrite bool_decide_eq_false_2 by set_solver. }
  assert (Hs1 : scan false ∅ (map log_line h1) = Ok (Revert "c2")).
  { change (map log_line h1)
      with (log_line (new_sha "c3" h0, "Undo c3") :: map log_line h0).
    rewrite (scan_log_undo _ _ _ _ ["c3"] "c3") by done.
    rewrite Hscan0 by (set_unfold; by intros [?|[]]).
    by rewrite bool_decide_eq_true_2 by set_solver. }
  assert (Hs2 : scan false ∅ (map log_line h2) = Ok Exhausted).
  { change (map log_line h2)
      with (log_line (new_sha "c2" h1, "Undo c2")
            :: log_line (new_sha "c3" h0, "Undo c3") :: map log_line h0).
    rewrite (scan_log_undo _ _ _ _ ["c2"] "c2") by done.
    rewrite (scan_log_undo _ _ _ _ ["c3"] "c3") by done.
    unfold h0. simpl map. rewrite !scan_cons.
    change (split_ws (log_line ("c3", "Auto-commit: AddCommand")))
      with ["c3"; "Auto-commit:"; "AddCommand"].
    change (split_ws (log_line ("c2", "Auto-commit: AddCommand")))
      with ["c2"; "Auto-commit:"; "AddCommand"].
    change (split_ws (log_line ("c1", "Auto-commit: InitCommand")))
      with ["c1"; "Auto-commit:"; "InitCommand"].
    simpl.
    rewrite bool_decide_eq_true_2 by set_solver.
    rewrite bool_decide_eq_true_2 by set_solver.
    by case_bool_decide. }
  unfold cfg. split; [|split; [|split; [|split]]].
  - rewrite (execute_scan false h0 _ ltac:(done) Hwf0 Hs0). simpl. by rewrite Hr1.
  - rewrite (execute_scan false h1 _ ltac:(done) Hwf1 Hs1). simpl. by rewrite Hr2.
  - by rewrite (execute_scan false h2 _ ltac:(done) Hwf2 Hs2).
  - apply eligible_without_force.
  - done.
Qed.

(** C3: a line of the log that is an undo is passed over and only adds
    its target to the set; what the scan selects is never such a line,
    nor a commit whose identifier the set held when the scan came to it;
    and on the log [c2 = Undo c1, c1] the command finds nothing to undo
    and exits with status 1, with or without [--force]. *)
Theorem undo_skips_undone :
  (forall force (U : gset string) commit commits target,
      undo_target commit = Some target ->
      scan force U (commit :: commits) = scan force ({[ target ]} ∪ U) commits)
  /\ (forall force (U : gset string) commits sha,
         scan force U commits = Ok (Revert sha) ->
         exists pre commit post message,
           commits = pre ++ commit :: post
           /\ split_ws commit = sha :: message
           /\ head message <> Some "Undo"
           /\ sha ∉ undone_after U pre)
  /\ (forall force,
         let h := [("c2", "Undo c1"); ("c1", "Auto-commit: AddCommand")] in
         execute (mkSetup true true) force h = Ok (NothingToUndo, h))
  /\ exit_status NothingToUndo = 1.
Proof.
  split; [apply scan_undo_line |]. split; [apply scan_revert_inv |].
  split; [|done].
  intros force h.
  rewrite (execute_scan force h _ ltac:(done) eq_refl eq_refl).
  unfold h. simpl map.
  rewrite (scan_log_undo _ _ _ _ ["c1"] "c1") by done.
  rewrite scan_cons.
  change (split_ws (log_line ("c1", "Auto-commit: AddCommand")))
    with ["c1"; "Auto-commit:"; "AddCommand"].
  simpl. by rewrite bool_decide_eq_true_2 by set_solver.
Qed.
End undo_scenarios.

(* ===================================================================== *)
(** * Entry.to_yaml and Entry.from_yaml                                   *)
(* ===================================================================== *)

Section yaml.
Import Parser.
Context {yaml : Yaml}.

(** What [to_yaml] and [from_yaml] add to the YAML library: the entry
    goes out as the one-document mapping [{label: data}], and an item
    read comes back as [Entry(label, data)].  Whether an entry survives
    the round trip is then a matter of the library alone, which is not
    part of the repository: the lemma says so much and no more. *)
Lemma yaml_wrappers (e : Entry) :
  yaml_load_all (yaml_dump [(label e, data e)]) = [[(label e, data e)]] ->
  exists e' : Entry,
    from_yaml (to_yaml e) = [(label e, e')]
    /\ label e' = label e
    /\ data e' = data e.
Proof.
  intros Hread. unfold from_yaml, to_yaml. rewrite Hread.
  eexists. by repeat split.
Qed.
End yaml.

(* ===================================================================== *)
(** * Instances of the statements above                                   *)
(* ===================================================================== *)

Section instances.
Import PyStr Parser Undo.

Example yaml_wrappers_ex :
  let e := Stub.bare "dummy" in
  @yaml_load_all Stub.yaml (@yaml_dump Stub.yaml [(label e, data e)])
    = [[(label e, data e)]]
  /\ exists e' : Entry,
       @from_yaml Stub.yaml (@to_yaml Stub.yaml e) = [(label e, e')]
       /\ label e' = label e /\ data e' = data e.
Proof.
  split; [reflexivity |].
  apply (@yaml_wrappers Stub.yaml (Stub.bare "dummy")). reflexivity.
Qed.

Lemma matches_absent_raises_witness :
  let e := new "knuth1984" [("ID", VStr "knuth1984"); ("ENTRYTYPE", VStr "article")] in
  od_get "author" (data e) = None
  /\ matches e [(("author", true), ["Einstein"])] false = Raise (KeyError "author").
Proof.
  split; [reflexivity |].
  apply (matches_absent_raises
           (new "knuth1984" [("ID", VStr "knuth1984"); ("ENTRYTYPE", VStr "article")])
           ("author", true) "Einstein" [] [] false).
  reflexivity.
Defined.

Lemma add_label_renames_witness :
  let largs := Add.mkArgs (Some "L") None [("bibtex", "knuth1984")] [] in
  let two := Add.mkArgs (Some "L") None [("yaml", "knuth1984 lamport1994")] [] in
  let w := Add.mkWorld [] [] in
  let renamed := new "L" [("ENTRYTYPE", VStr "article"); ("ID", VStr "L")] in
  Add.parse_source Stub.parsers largs = Some (Ok [("knuth1984", Stub.bare "knuth1984")])
  /\ Database.set_label "L" (Stub.bare "knuth1984") = renamed
  /\ @Add.merged_batch Stub.parsers Stub.config Stub.setters largs w
     = Ok (Some ([("L", renamed)], false))
  /\ @Add.execute Stub.parsers Stub.config Stub.editor Stub.setters Stub.update two w
     = Raise AssertionError.
Proof.
  intros largs two w renamed.
  destruct (@add_label_renames Stub.parsers Stub.config Stub.editor Stub.setters
              Stub.update largs w "L" eq_refl) as [Hone _].
  destruct (Hone "knuth1984" (Stub.bare "knuth1984") eq_refl) as (_ & _ & _ & _ & Hm).
  destruct (@add_label_renames Stub.parsers Stub.config Stub.editor Stub.setters
              Stub.update two w "L" eq_refl) as [_ Hmany].
  split; [reflexivity |]. split; [reflexivity |].
  split; [exact (Hm eq_refl eq_refl) |].
  apply (Hmany [("knuth1984", Stub.bare "knuth1984");
                ("lamport1994", Stub.bare "lamport1994")]); [reflexivity |].
  simpl. lia.
Defined.

Lemma add_manual_label_witness :
  let old := new "einstein" [("ID", VStr "einstein"); ("ENTRYTYPE", VStr "article");
                             ("author", VStr "Albert Einstein")] in
  let w := Add.mkWorld [("einstein", old)] [] in
  let largs := Add.mkArgs (Some "einstein") None [] [] in
  od_in "einstein" (Add.database w) = true
  /\ exists w',
       @Add.execute Stub.parsers Stub.config Stub.editor Stub.setters Stub.update largs w
       = Ok w'
       /\ Add.trace w'
          = [LogWarning "No input to parse. Creating new entry 'einstein' manually.";
             LogWarning (Add.exists_msg "einstein"); Save; GitCommit "add"]
       /\ Add.database w' = [("einstein", old)].
Proof.
  intros old w largs. split; [reflexivity |].
  destruct (@add_manual_label Stub.parsers Stub.config Stub.editor Stub.setters
              Stub.update "einstein" None [] w) as (_ & _ & _ & Hwarn).
  destruct (Hwarn eq_refl) as (e' & w' & _ & Hrun & Htrace & _).
  exists w'. split; [exact Hrun |].
  split; [exact Htrace |].
  assert (Hw' : Ok w' = Ok (Add.mkWorld [("einstein", old)] (Add.trace w')))
    by (rewrite <- Hrun, Htrace; reflexivity).
  by injection Hw' as ->.
Defined.

Lemma malformed_input_raises_witness :
  let pdf := mkPdf "paper.pdf" ["No identifier on this page."] in
  match_doi "not-a-doi" = None
  /\ @from_doi Stub.web Stub.bibtex "not-a-doi" = Raise AssertionError
  /\ findall (concat (pages pdf)) = []
  /\ @from_pdf Stub.web Stub.bibtex Stub.filesystem Stub.forward_order pdf
     = Raise ValueError.
Proof.
  destruct (@malformed_input_raises Stub.web Stub.bibtex Stub.filesystem
              Stub.forward_order) as [Hdoi Hpdf].
  split; [reflexivity |]. split; [apply Hdoi; reflexivity |].
  split; [reflexivity |]. apply Hpdf. reflexivity.
Defined.

(** C4 as the claim words it fails: neither failure is a
    [ParseError]. *)
Lemma malformed_input_not_parse_error :
  let pdf := mkPdf "paper.pdf" ["No identifier on this page."] in
  @from_doi Stub.web Stub.bibtex "not-a-doi" = Raise AssertionError
  /\ @from_doi Stub.web Stub.bibtex "not-a-doi" <> Raise ParseError
  /\ @from_pdf Stub.web Stub.bibtex Stub.filesystem Stub.forward_order pdf
     = Raise ValueError
  /\ @from_pdf Stub.web Stub.bibtex Stub.filesystem Stub.forward_order pdf
     <> Raise ParseError.
Proof. repeat split; by vm_compute. Qed.

Lemma from_pdf_most_common_witness :
  let pdf := mkPdf "paper.pdf" ["See 10.1000/a, 10.1000/b and again 10.1000/b."] in
  let matches := findall (concat (pages pdf)) in
  matches <> []
  /\ exists doi : string,
       @most_common Stub.forward_order matches = Ok doi
       /\ doi ∈ matches
       /\ (forall m, m ∈ matches -> count m matches <= count doi matches)
       /\ (exists pre post,
             @set_iter Stub.forward_order matches = pre ++ doi :: post
             /\ forall m, m ∈ pre -> count m matches < count doi matches)
       /\ @from_doi Stub.web Stub.bibtex doi
          = @from_bibtex Stub.bibtex (@http_get Stub.web (DOI_URL +:+ doi))
       /\ @from_pdf Stub.web Stub.bibtex Stub.filesystem Stub.forward_order pdf =
            (bib ← @from_doi Stub.web Stub.bibtex doi;
             Ok (map (fun kv => (kv.1, @set_file Stub.filesystem (name pdf) kv.2)) bib))
       /\ (forall bib lbl e,
              @from_pdf Stub.web Stub.bibtex Stub.filesystem Stub.forward_order pdf
              = Ok bib ->
              (lbl, e) ∈ bib ->
              od_get "file" (data e)
              = Some (VStr (@abspath Stub.filesystem (name pdf)))).
Proof.
  intros pdf matches. split; [by vm_compute |].
  apply (@from_pdf_most_common Stub.web Stub.bibtex Stub.filesystem
           Stub.forward_order pdf).
  by vm_compute.
Defined.

(** C8 as the claim words it fails: two matches occur once each, and
    under an iteration order of the set that a run of the program can
    have, the second one of the text is chosen and passed on. *)
Lemma most_common_follows_set_order :
  let pdf := mkPdf "paper.pdf" ["Cites 10.1000/a and 10.1000/b."] in
  let matches := findall (concat (pages pdf)) in
  matches = ["10.1000/a"; "10.1000/b"]
  /\ Spec.most_common_first matches = Ok "10.1000/a"
  /\ @most_common Stub.backward_order matches = Ok "10.1000/b"
  /\ @most_common Stub.backward_order matches <> Spec.most_common_first matches
  /\ @from_pdf Stub.web Stub.bibtex Stub.filesystem Stub.backward_order pdf
     = Ok [("https://doi.org/10.1000/b",
            new "https://doi.org/10.1000/b"
                [("ENTRYTYPE", VStr "article");
                 ("ID", VStr "https://doi.org/10.1000/b");
                 ("file", VStr "/home/user/paper.pdf")])].
Proof. repeat split; by vm_compute. Qed.

Lemma undo_twice_witness :
  let cfg := mkSetup true true in
  let h0 := [("c3", "Auto-commit: AddCommand");
             ("c2", "Auto-commit: AddCommand");
             ("c1", "Auto-commit: InitCommand")] in
  let h1 := ("uc3", "Undo c3") :: h0 in
  let h2 := ("uc2", "Undo c2") :: h1 in
  (is_token "uc3" = true /\ is_token "uc2" = true)
  /\ @execute Stub.git cfg false h0 = Ok (Undone "c3", h1)
  /\ @execute Stub.git cfg false h1 = Ok (Undone "c2", h2)
  /\ @execute Stub.git cfg false h2 = Ok (NothingToUndo, h2).
Proof.
  intros cfg h0 h1 h2. split; [by split |].
  destruct (@undo_twice Stub.git eq_refl eq_refl eq_refl eq_refl)
    as (E0 & E1 & E2 & _).
  by repeat split.
Defined.

Lemma undo_skips_undone_witness :
  let commits := ["uc3 Undo c3"; "c3 Auto-commit: AddCommand";
                  "c2 Auto-commit: AddCommand"; "c1 Auto-commit: InitCommand"] in
  undo_target "uc3 Undo c3" = Some "c3"
  /\ scan false ∅ commits = Ok (Revert "c2")
  /\ exists pre commit post message,
       commits = pre ++ commit :: post
       /\ split_ws commit = "c2" :: message
       /\ head message <> Some "Undo"
       /\ "c2" ∉ undone_after ∅ pre.
Proof.
  intros commits.
  destruct (@undo_skips_undone Stub.git) as (Hstep & Hinv & _).
  assert (Hscan : scan false ∅ commits = Ok (Revert "c2")).
  { unfold commits. rewrite (Hstep false ∅ _ _ "c3") by reflexivity.
    by vm_compute. }
  split; [reflexivity |]. split; [exact Hscan |].
  exact (Hinv false ∅ commits "c2" Hscan).
Defined.
End instances.

(* ===================================================================== *)
(** * More on dictionaries                                                *)
(* ===================================================================== *)

Section odict_more.
Context {V : Type}.
Implicit Types (d : odict V) (k : string) (v : V).

Lemma od_set_set k v1 v2 d : od_set k v2 (od_set k v1 d) = od_set k v2 d.
Proof.
  induction d as [|[k' v'] d IH]; simpl.
  - by rewrite String.eqb_refl.
  - destruct (String.eqb k k') eqn:E; simpl.
    + by rewrite String.eqb_refl.
    + by rewrite E, IH.
Qed.

Lemma od_set_elem k v d k' v' :
  (k', v') ∈ od_set k v d -> (k' = k /\ v' = v) \/ (k', v') ∈ d.
Proof.
  induction d as [|[k0 v0] d IH]; simpl.
  - intros [= -> ->]%list_elem_of_singleton. left. by split.
  - destruct (String.eqb k k0).
    + intros [[= -> ->]|Hin]%elem_of_cons; [left; by split | right; by right].
    + intros [[= -> ->]|Hin]%elem_of_cons; [right; by left |].
      destruct (IH Hin) as [?|?]; [by left | right; by right].
Qed.

Lemma od_set_keys_elem k v d k' :
  k' ∈ od_keys (od_set k v d) <-> k' = k \/ k' ∈ od_keys d.
Proof.
  unfold od_keys. induction d as [|[k0 v0] d IH]; simpl.
  - rewrite list_elem_of_singleton. split; [by left |].
    intros [?|?%elem_of_nil]; done.
  - destruct (String.eqb_spec k k0) as [->|Hne]; simpl.
    + rewrite !elem_of_cons. tauto.
    + rewrite !elem_of_cons, IH. tauto.
Qed.

Lemma od_set_NoDup k v d : NoDup (od_keys d) -> NoDup (od_keys (od_set k v d)).
Proof.
  unfold od_keys. induction d as [|[k0 v0] d IH]; simpl; intros Hnd.
  - apply NoDup_singleton.
  - apply NoDup_cons in Hnd as [Hk0 Hnd].
    destruct (String.eqb_spec k k0) as [->|Hne]; simpl.
    + by apply NoDup_cons.
    + apply NoDup_cons. split; [|by apply IH].
      intros [?|?]%(od_set_keys_elem k v d k0); [by subst | done].
Qed.

Lemma od_get_None k d : od_get k d = None <-> k ∉ od_keys d.
Proof.
  unfold od_keys. induction d as [|[k0 v0] d IH]; simpl.
  - split; [intros _ ?%elem_of_nil; done | done].
  - destruct (String.eqb_spec k k0) as [->|Hne].
    + split; [done |]. intros Hn. exfalso. apply Hn. by left.
    + rewrite IH, not_elem_of_cons. tauto.
Qed.
End odict_more.

(* ===================================================================== *)
(** * The field setters of Entry                                          *)
(* ===================================================================== *)

Section setters.
Import PyStr Parser.
Context {fs : FileSystem}.

(** X1: after [set_label] the attribute [label] and the field [ID] are
    the new label, every other field is as before, and a second
    [set_label] leaves nothing of the first. *)
Theorem set_label_mirrors (lbl : string) (e : Entry) :
  label (set_label lbl e) = lbl
  /\ od_get "ID" (data (set_label lbl e)) = Some (VStr lbl)
  /\ (forall k, k <> "ID" -> od_get k (data (set_label lbl e)) = od_get k (data e))
  /\ (forall old, set_label lbl (set_label old e) = set_label lbl e).
Proof.
  split; [done |]. split; [apply od_get_set_eq |]. split.
  - intros k Hk. by apply od_get_set_ne.
  - intros old. unfold set_label. simpl. by rewrite od_set_set.
Qed.

(** X2: [set_tags] and [set_file] change the field [tags], respectively
    [file], and nothing else: the label and every other field stay, and
    applied one after the other, in either order, they give the same
    value for every field. *)
Theorem setters_frame (tags : list string) (file : string) (e : Entry) :
  label (set_tags tags e) = label e
  /\ label (set_file file e) = label e
  /\ (forall k, k <> "tags" -> od_get k (data (set_tags tags e)) = od_get k (data e))
  /\ (forall k, k <> "file" -> od_get k (data (set_file file e)) = od_get k (data e))
  /\ od_get "file" (data (set_file file e)) = Some (VStr (abspath file))
  /\ (forall k, od_get k (data (set_tags tags (set_file file e)))
                = od_get k (data (set_file file (set_tags tags e)))).
Proof.
  split; [done |]. split; [done |].
  split; [intros k Hk; by apply od_get_set_ne |].
  split; [intros k Hk; by apply od_get_set_ne |].
  split; [apply od_get_set_eq |].
  intros k. unfold set_tags, set_file, with_data. simpl.
  destruct (String.eqb_spec "tags" k) as [<-|Ht].
  - rewrite od_get_set_eq, od_get_set_ne by done. by rewrite od_get_set_eq.
  - rewrite (od_get_set_ne "tags" k) by done.
    destruct (String.eqb_spec "file" k) as [<-|Hf].
    + by rewrite !od_get_set_eq.
    + by rewrite !od_get_set_ne by done.
Qed.
End setters.

(* ===================================================================== *)
(** * The ends of a stripped string                                       *)
(* ===================================================================== *)

Section strip_ends.
Import PyStr.
Implicit Types (p : ascii -> bool) (s : string).

Lemma length_app_str (a b : string) :
  String.length (a +:+ b) = String.length a + String.length b.
Proof. induction a as [|c a IH]; [done |]. rewrite app_cons. simpl. by rewrite IH. Qed.

Lemma drop_while_length p s : String.length (drop_while p s) <= String.length s.
Proof.
  induction s as [|c s IH]; simpl; [done |].
  destruct (p c); simpl; lia.
Qed.

Lemma rstrip_by_length p s : String.length (rstrip_by p s) <= String.length s.
Proof.
  induction s as [|c s IH]; simpl; [done |].
  destruct (is_empty (rstrip_by p s) && p c); simpl; lia.
Qed.

Lemma drop_while_idem p s : drop_while p (drop_while p s) = drop_while p s.
Proof.
  induction s as [|c s IH]; simpl; [done |].
  destruct (p c) eqn:Hc; [done |]. simpl. by rewrite Hc.
Qed.

Lemma rstrip_by_idem p s : rstrip_by p (rstrip_by p s) = rstrip_by p s.
Proof.
  induction s as [|c s IH]; simpl; [done |].
  destruct (is_empty (rstrip_by p s) && p c) eqn:E; [done |].
  simpl. by rewrite IH, E.
Qed.

Lemma rstrip_by_drop_while p s :
  rstrip_by p s = s -> rstrip_by p (drop_while p s) = drop_while p s.
Proof.
  induction s as [|c s IH]; [done |].
  intros Hfix. change (drop_while p (String c s))
    with (if p c then drop_while p s else String c s).
  destruct (p c) eqn:Hc; [|done].
  apply IH. simpl in Hfix. rewrite Hc in Hfix.
  destruct (is_empty (rstrip_by p s) && true); [done |].
  by injection Hfix.
Qed.

(** What [strip] returns has nothing left to strip at either end. *)
Lemma strip_by_ends p s :
  drop_while p (strip_by p s) = strip_by p s
  /\ rstrip_by p (strip_by p s) = strip_by p s.
Proof.
  unfold strip_by, lstrip_by. split; [apply drop_while_idem |].
  apply rstrip_by_drop_while, rstrip_by_idem.
Qed.

Lemma drop_while_fixed_first p (c : ascii) (rest : string) :
  drop_while p (String c rest) = String c rest -> p c = false.
Proof.
  simpl. destruct (p c); [|done]. intros Heq.
  pose proof (drop_while_length p rest) as Hlen.
  rewrite Heq in Hlen. simpl in Hlen. lia.
Qed.

Lemma rstrip_by_fixed_last p (pre : string) (c : ascii) :
  rstrip_by p (pre +:+ String c "") = pre +:+ String c "" -> p c = false.
Proof.
  destruct (p c) eqn:Hc; [|done]. intros Heq.
  rewrite rstrip_by_app in Heq by (simpl; by rewrite Hc).
  pose proof (rstrip_by_length p pre) as Hlen.
  rewrite Heq, length_app_str in Hlen. simpl in Hlen. lia.
Qed.
End strip_ends.

Section set_tags_shape.
Import PyStr Parser.

(** X3: whatever the tokens, the string that [set_tags] stores neither
    begins nor ends with a comma or a space, and it is empty for an empty
    list of tokens. *)
Theorem set_tags_trimmed (tags : list string) (e : Entry) :
  exists t : string,
    tags_of (set_tags tags e) = Some (VStr t)
    /\ (forall c rest, t = String c rest -> mem_char c ", " = false)
    /\ (forall pre c, t = pre +:+ String c "" -> mem_char c ", " = false)
    /\ (tags = [] -> t = "").
Proof.
  eexists. split; [apply set_tags_stores |].
  set (p := fun c => mem_char c ", ").
  set (joined := concat (map (fun tag => strip_chars "+" tag +:+ ", ") tags)).
  destruct (strip_by_ends p joined) as [Hl Hr].
  split; [|split].
  - intros c rest Ht. unfold strip_chars in Ht. fold p in Ht.
    rewrite Ht in Hl. by apply (drop_while_fixed_first p) in Hl.
  - intros pre c Ht. unfold strip_chars in Ht. fold p in Ht.
    rewrite Ht in Hr. by apply (rstrip_by_fixed_last p) in Hr.
  - intros ->. reflexivity.
Qed.
End set_tags_shape.

(* ===================================================================== *)
(** * Entry.from_bibtex and Entry.from_yaml                               *)
(* ===================================================================== *)

Section batches.
Import PyStr Parser Batch.

Lemma od_get_of_record (k : string) (r : odict string) :
  od_get k (of_record r) = VStr <$> od_get k r.
Proof.
  unfold of_record. induction r as [|[k' v'] r IH]; simpl; [done |].
  by destruct (String.eqb k k').
Qed.

Lemma batch_inv_nil {R : Type} (made_from : string -> Entry -> R -> Prop)
    (src : list R) :
  batch_inv made_from src [].
Proof. split; [apply NoDup_nil_2 |]. by intros k e ?%elem_of_nil. Qed.

Lemma batch_inv_set {R : Type} (made_from : string -> Entry -> R -> Prop)
    (src : list R) (bib : odict Entry) (k : string) (d : fields) (r : R) :
  batch_inv made_from src bib -> r ∈ src -> made_from k (new k d) r ->
  batch_inv made_from src (od_set k (new k d) bib).
Proof.
  intros [Hnd Hall] Hr Hmade. split; [by apply od_set_NoDup |].
  intros k' e' [[-> ->]|Hin]%od_set_elem; [|by apply Hall].
  split; [done |]. split; [done |]. by exists r.
Qed.

Context {bibtex : Bibtex}.

Lemma bibtex_entries_inv (src entries : list (odict string)) (bib res : odict Entry) :
  (forall r, r ∈ entries -> r ∈ src) ->
  batch_inv from_record src bib ->
  bibtex_entries entries bib = Ok res ->
  batch_inv from_record src res.
Proof.
  revert bib. induction entries as [|entry entries IH]; intros bib Hsub Hinv; simpl.
  - by intros [= <-].
  - destruct (od_get "ID" entry) as [id|] eqn:Hid; [|done].
    apply IH; [intros r Hr; apply Hsub; by right |].
    apply (batch_inv_set from_record src bib id (of_record entry) entry); [done | |].
    + apply Hsub. by left.
    + by split.
Qed.

(** X4: in a batch that [from_bibtex] returns every label occurs once,
    and the entry under a label has that label as its [label] and as its
    field [ID], no other attributes, and the fields of one record of the
    BibTeX text. *)
Theorem from_bibtex_labels (text : string) (bib : odict Entry) :
  from_bibtex text = Ok bib ->
  NoDup (od_keys bib)
  /\ forall k e, (k, e) ∈ bib ->
       label e = k
       /\ od_get "ID" (data e) = Some (VStr k)
       /\ attrs e = []
       /\ exists r, r ∈ bibtex_loads text /\ data e = of_record r.
Proof.
  intros Hbib.
  destruct (bibtex_entries_inv (bibtex_loads text) (bibtex_loads text) [] bib)
    as [Hnd Hall]; [done | apply batch_inv_nil | done |].
  split; [done |]. intros k e Hin.
  destruct (Hall k e Hin) as (Hl & Ha & r & Hr & Hid & Hd).
  split; [done |]. split; [|split; [done | by exists r]].
  by rewrite Hd, od_get_of_record, Hid.
Qed.

Lemma bibtex_entries_app (pre post : list (odict string)) (bib : odict Entry) :
  bibtex_entries (pre ++ post) bib
  = (bib' ← bibtex_entries pre bib; bibtex_entries post bib').
Proof.
  revert bib. induction pre as [|r pre IH]; intros bib; simpl; [done |].
  destruct (od_get "ID" r); [apply IH | done].
Qed.

Lemma bibtex_entries_other (k : string) (post : list (odict string))
    (bib res : odict Entry) :
  (forall r, r ∈ post -> od_get "ID" r <> Some k) ->
  bibtex_entries post bib = Ok res ->
  od_get k res = od_get k bib.
Proof.
  revert bib. induction post as [|r post IH]; intros bib Hpost; simpl.
  - by intros [= <-].
  - destruct (od_get "ID" r) as [id|] eqn:Hid; [|done].
    intros Hres. rewrite (IH _ ltac:(intros r' Hr'; apply Hpost; by right) Hres).
    apply od_get_set_ne. intros ->. apply (Hpost r); [by left | done].
Qed.

(** X5: when two records of the BibTeX text have the same [ID], the
    later one wins: under a label the batch holds the entry of the last
    record with that [ID], and it holds nothing under a label that is the
    [ID] of no record. *)
Theorem from_bibtex_last_wins (text : string) (bib : odict Entry) (k : string) :
  from_bibtex text = Ok bib ->
  (forall pre r post,
      bibtex_loads text = pre ++ r :: post ->
      od_get "ID" r = Some k ->
      (forall r', r' ∈ post -> od_get "ID" r' <> Some k) ->
      od_get k bib = Some (new k (of_record r)))
  /\ ((forall r, r ∈ bibtex_loads text -> od_get "ID" r <> Some k) ->
      od_get k bib = None).
Proof.
  unfold from_bibtex. intros Hbib. split.
  - intros pre r post Hsplit Hid Hpost. rewrite Hsplit in Hbib.
    rewrite bibtex_entries_app in Hbib.
    destruct (bibtex_entries pre []) as [bib1|] eqn:Hpre; [|done].
    simpl in Hbib. rewrite Hid in Hbib.
    rewrite (bibtex_entries_other k post _ bib Hpost Hbib).
    apply od_get_set_eq.
  - intros Hnone. by rewrite (bibtex_entries_other k _ [] bib Hnone Hbib).
Qed.

(** X6: the loop of [from_bibtex], run on the records that the BibTeX
    library has returned, fails exactly when one of them has no [ID],
    and then with [KeyError('ID')]; when every record has one, it
    returns a batch. *)
Theorem from_bibtex_raises (records : list (odict string)) (bib : odict Entry) :
  ((exists r, r ∈ records /\ od_get "ID" r = None)
   <-> bibtex_entries records bib = Raise (KeyError "ID"))
  /\ ((forall r, r ∈ records -> od_get "ID" r <> None)
      <-> exists res, bibtex_entries records bib = Ok res).
Proof.
  revert bib. induction records as [|r records IH]; intros bib; simpl.
  - split; [split; [|done]; by intros (r & ?%elem_of_nil & _) |].
    split; [by eexists | by intros _ r ?%elem_of_nil].
  - destruct (od_get "ID" r) as [id|] eqn:Hid.
    + destruct (IH (od_set id (new id (of_record r)) bib)) as [Hraise Hret].
      split; [rewrite <- Hraise | rewrite <- Hret].
      * split.
        -- intros (r' & [->|Hin]%elem_of_cons & Hnone); [congruence | by exists r'].
        -- intros (r' & Hin & Hnone). exists r'. split; [by right | done].
      * split.
        -- intros Hall r' Hin. apply Hall. by right.
        -- intros Hall r' [->|Hin]%elem_of_cons; [congruence | by apply Hall].
    + split.
      * split; [done |]. intros _. exists r. split; [by left | done].
      * split; [|by intros [res ?]].
        intros Hall. exfalso. by apply (Hall r); [left |].
Qed.

Context {yaml : Yaml}.

Lemma yaml_items_inv (src : list (odict fields)) (doc items : odict fields)
    (bib : odict Entry) :
  doc ∈ src -> (forall it, it ∈ items -> it ∈ doc) ->
  batch_inv from_item src bib ->
  batch_inv from_item src
    (fold_left (fun bib item => od_set item.1 (new item.1 item.2) bib) items bib).
Proof.
  intros Hdoc. revert bib.
  induction items as [|[k d] items IH]; intros bib Hsub Hinv; simpl; [done |].
  apply IH; [intros it Hit; apply Hsub; by right |].
  apply (batch_inv_set from_item src bib k d doc); [done | done |].
  unfold from_item. simpl. apply Hsub. by left.
Qed.

(** X7: in the batch that [from_yaml] returns every label occurs once,
    and the entry under a label has that label, no other attributes, and
    the field mapping that some document of the stream gives for the
    label; a stream without documents gives the empty batch. *)
Theorem from_yaml_labels (file : string) :
  NoDup (od_keys (from_yaml file))
  /\ (forall k e, (k, e) ∈ from_yaml file ->
        label e = k /\ attrs e = []
        /\ exists doc, doc ∈ yaml_load_all file /\ (k, data e) ∈ doc)
  /\ (yaml_load_all file = [] -> from_yaml file = []).
Proof.
  unfold from_yaml.
  assert (Hinv : forall docs bib,
             (forall doc, doc ∈ docs -> doc ∈ yaml_load_all file) ->
             batch_inv from_item (yaml_load_all file) bib ->
             batch_inv from_item (yaml_load_all file)
               (fold_left
                  (fun bib entry =>
                     fold_left (fun bib item => od_set item.1 (new item.1 item.2) bib)
                               entry bib)
                  docs bib)).
  { induction docs as [|doc docs IH]; intros bib Hsub Hb; simpl; [done |].
    apply IH; [intros d Hd; apply Hsub; by right |].
    apply (yaml_items_inv _ doc); [apply Hsub; by left | done | done]. }
  destruct (Hinv (yaml_load_all file) []) as [Hnd Hall];
    [done | apply batch_inv_nil |].
  split; [done |]. split; [exact Hall |]. by intros ->.
Qed.
End batches.

(* ===================================================================== *)
(** * What the DOI pattern matches                                        *)
(* ===================================================================== *)

Section doi_shape.
Import PyStr Parser.

Lemma strip_prefix_Some (p s r : string) :
  strip_prefix p s = Some r -> s = p +:+ r.
Proof.
  revert s. induction p as [|a p IH]; intros s; simpl.
  - by intros [= ->].
  - destruct s as [|b s]; [done |].
    destruct (Ascii.eqb_spec a b) as [->|]; [|done].
    intros ->%IH. by rewrite app_cons.
Qed.

Lemma take_drop_while (p : ascii -> bool) (s : string) :
  s = take_while p s +:+ drop_while p s.
Proof.
  induction s as [|c s IH]; simpl; [done |].
  destruct (p c); [|done]. by rewrite app_cons, <- IH.
Qed.

(** The suffix that is matched is a run of suffix characters, and the
    text goes on after it. *)
Lemma suffix_end_run (prev : ascii) (s ext : string) :
  suffix_end prev s = Some ext ->
  all_chars is_suffix_char ext = true /\ exists rest, s = ext +:+ rest.
Proof.
  revert prev ext. induction s as [|c s IH]; intros prev ext; simpl.
  - destruct (boundary prev None); [|done]. intros [= <-]. split; [done | by exists ""].
  - assert (Hhere : (if boundary prev (Some c) then Some "" else None) = Some ext ->
                    all_chars is_suffix_char ext = true
                    /\ exists rest, String c s = ext +:+ rest).
    { destruct (boundary prev (Some c)); [|done].
      intros [= <-]. split; [done | by exists (String c s)]. }
    destruct (is_suffix_char c) eqn:Hc; [|done].
    destruct (suffix_end c s) as [ext'|] eqn:Hrec; [|done].
    intros [= <-]. destruct (IH c ext' Hrec) as [Hall [rest ->]].
    split; [simpl; by rewrite Hc, Hall | by exists rest].
Qed.

Lemma alnum_is_suffix_char (c : ascii) :
  is_alnum c = true -> is_suffix_char c = true.
Proof.
  intros Hc. apply word_is_suffix_char. unfold is_word. by rewrite Hc.
Qed.

Ltac match_doi_cases s Hpre Hr Hall Hc Hrun :=
  unfold Parser.match_doi;
  destruct (PyStr.strip_prefix "10." s) as [r|] eqn:Hpre; [|done];
  apply strip_prefix_Some in Hpre;
  pose proof (take_drop_while PyStr.is_alnum r) as Hr;
  pose proof (take_while_all PyStr.is_alnum r) as Hall;
  destruct (PyStr.take_while PyStr.is_alnum r) as [|r0 reg]; [done |];
  destruct (PyStr.drop_while PyStr.is_alnum r) as [|slash [|c s']]; [done | done |];
  destruct (Ascii.eqb_spec slash "/") as [->|]; [|done]; simpl andb;
  destruct (Parser.is_suffix_char c) eqn:Hc; [|done];
  let Hext := fresh "Hext" in
  destruct (Parser.suffix_end c s') as [ext|] eqn:Hext; [|done];
  destruct (suffix_end_run _ _ _ Hext) as [Hrun [rest ->]];
  intros [= <-].

Lemma match_doi_prefix (s m : string) :
  match_doi s = Some m ->
  (exists rest, s = m +:+ rest) /\ starts_with "10." m = true.
Proof.
  match_doi_cases s Hpre Hr Hall Hc Hrun. split; [|reflexivity].
  eexists. rewrite Hpre, Hr. by rewrite !app_assoc_str.
Qed.

Lemma match_doi_chars (s m : string) :
  match_doi s = Some m -> all_chars is_suffix_char m = true.
Proof.
  match_doi_cases s Hpre Hr Hall Hc Hrun.
  rewrite !all_chars_app.
  rewrite (all_chars_impl _ _ _ alnum_is_suffix_char Hall).
  simpl. by rewrite Hc, Hrun.
Qed.

(** X8: what [re.match(DOI_REGEX, s)] matches is a piece at the start of
    [s] that begins with [10.], holds no whitespace, double quote,
    ampersand or apostrophe, and that the pattern matches again, as a
    whole, when it is given alone. *)
Theorem match_doi_shape (s m : string) :
  match_doi s = Some m ->
  (exists rest, s = m +:+ rest)
  /\ starts_with "10." m = true
  /\ all_chars is_suffix_char m = true
  /\ match_doi m = Some m.
Proof.
  intros Hm. destruct (match_doi_prefix s m Hm) as [Hrest Hstart].
  split; [exact Hrest |]. split; [exact Hstart |].
  split; [by apply (match_doi_chars s) | by apply (match_doi_fix s)].
Qed.

Lemma starts_with_app (sub rest : string) : starts_with sub (sub +:+ rest) = true.
Proof. unfold starts_with. by rewrite strip_prefix_app. Qed.

Lemma contains_app (pre sub post : string) :
  contains sub (pre +:+ sub +:+ post) = true.
Proof.
  induction pre as [|c pre IH].
  - rewrite app_empty_l.
    destruct (sub +:+ post) eqn:E; simpl; rewrite <- E;
      by rewrite starts_with_app.
  - rewrite app_cons. simpl. rewrite IH. by rewrite orb_true_r.
Qed.

Lemma findall_from_spec (k : nat) (s : string) :
  (forall m, m ∈ findall_from k s -> exists pre post, s = pre +:+ m +:+ post)
  /\ sum_list (String.length <$> findall_from k s) + Nat.min k (String.length s)
     <= String.length s.
Proof.
  revert k. induction s as [|c s IH]; intros k.
  - split; [by intros m ?%elem_of_nil | simpl; lia].
  - destruct k as [|k].
    + simpl findall_from.
      destruct (match_doi (String c s)) as [m|] eqn:Hm.
      * destruct (match_doi_prefix _ _ Hm) as ([rest Hrest] & Hstart).
        destruct (IH (String.length m - 1)) as [IHin IHlen].
        assert (Hlen : String.length m + String.length rest = S (String.length s)).
        { apply (f_equal String.length) in Hrest.
          rewrite length_app_str in Hrest. simpl in Hrest. lia. }
        assert (Hpos : 0 < String.length m).
        { destruct m; [by vm_compute in Hstart | simpl; lia]. }
        split.
        -- intros m' [->|Hin]%elem_of_cons.
           ++ exists "", rest. by rewrite app_empty_l.
           ++ destruct (IHin m' Hin) as (pre & post & ->).
              exists (String c pre), post. by rewrite app_cons.
        -- change (String.length <$> m :: ?l) with (String.length m :: (String.length <$> l)).
           simpl sum_list. simpl String.length. lia.
      * destruct (IH 0) as [IHin IHlen]. split.
        -- intros m Hin. destruct (IHin m Hin) as (pre & post & ->).
           exists (String c pre), post. by rewrite app_cons.
        -- simpl String.length. lia.
    + simpl findall_from. destruct (IH k) as [IHin IHlen]. split.
      * intros m Hin. destruct (IHin m Hin) as (pre & post & ->).
        exists (String c pre), post. by rewrite app_cons.
      * simpl String.length. lia.
Qed.

(** X9: every item of [re.findall(DOI_REGEX, text)] occurs in the text
    and passes the assertion of [from_doi], and the items do not overlap:
    together they are no longer than the text. *)
Theorem findall_in_text (text : string) :
  (forall m, m ∈ findall text ->
     contains m text = true /\ match_doi m = Some m)
  /\ sum_list (String.length <$> findall text) <= String.length text.
Proof.
  destruct (findall_from_spec 0 text) as [Hin Hlen]. split.
  - intros m Hm. split.
    + destruct (Hin m Hm) as (pre & post & ->). apply contains_app.
    + destruct (findall_from_match 0 text m Hm) as [s' Hs'].
      by apply (match_doi_fix s').
  - unfold findall. lia.
Qed.
End doi_shape.

Section most_common_more.
Import PyStr Parser.
Context {order : SetOrder}.

(** X10: when one item of the list occurs more often than every other
    one, [most_common] returns it, whatever the order in which the set of
    items is iterated. *)
Theorem most_common_unique (lst : list string) (d : string) :
  d ∈ lst ->
  (forall m, m ∈ lst -> m <> d -> count m lst < count d lst) ->
  most_common lst = Ok d.
Proof.
  intros Hd Hmore.
  destruct (most_common_spec lst) as (d' & Hres & Hin & Hmax).
  { intros ->. by apply elem_of_nil in Hd. }
  rewrite Hres. f_equal.
  destruct (decide (d' = d)) as [|Hne]; [done |].
  pose proof (Hmore d' Hin Hne). pose proof (Hmax d Hd). lia.
Qed.
End most_common_more.

(* ===================================================================== *)
(** * More on UndoCommand.execute                                         *)
(* ===================================================================== *)

Section undo_more.
Import PyStr Undo.
Implicit Types (force : bool) (U : gset string) (commit sha : string)
               (commits : list string) (h : history).

(** The commit that the scan selects, in full: where its line is, what
    its words are, and why it was taken. *)
Lemma scan_revert_full force U commits sha :
  scan force U commits = Ok (Revert sha) ->
  exists pre commit post first rest last,
    commits = pre ++ commit :: post
    /\ split_ws commit = sha :: first :: rest
    /\ last_item (first :: rest) = Ok last
    /\ first <> "Undo"
    /\ eligible force first last = true
    /\ sha ∉ undone_after U pre.
Proof.
  revert U. induction commits as [|commit commits IH]; intros U; [done |].
  rewrite scan_cons.
  destruct (split_ws commit) as [|sha0 [|first message]] eqn:Hsplit; [done | done |].
  destruct (last_item_cons first message) as [last Hlast]. rewrite Hlast. simpl.
  assert (Hpass : forall U', undone_after U [commit] = U' ->
            scan force U' commits = Ok (Revert sha) ->
            exists pre commit0 post first0 rest0 last0,
              commit :: commits = pre ++ commit0 :: post
              /\ split_ws commit0 = sha :: first0 :: rest0
              /\ last_item (first0 :: rest0) = Ok last0
              /\ first0 <> "Undo"
              /\ eligible force first0 last0 = true
              /\ sha ∉ undone_after U pre).
  { intros U' HU' Hscan.
    destruct (IH U' Hscan) as (pre & c0 & post & f0 & r0 & l0 & -> & ? & ? & ? & ? & ?).
    exists (commit :: pre), c0, post, f0, r0, l0. repeat split; try done.
    simpl in HU'. simpl. by rewrite HU'. }
  destruct (String.eqb_spec first "Undo") as [->|Hundo].
  - apply Hpass. simpl. unfold undo_target. by rewrite Hsplit, Hlast.
  - assert (Hnone : undone_after U [commit] = U).
    { simpl. unfold undo_target. rewrite Hsplit.
      by apply String.eqb_neq in Hundo as ->. }
    case_bool_decide as Hin; [by apply Hpass |].
    destruct (eligible force first last) eqn:Hel; [|by apply Hpass].
    intros [= ->]. exists [], commit, commits, first, message, last.
    by repeat split.
Qed.

Lemma undone_after_mono U commits x : x ∈ U -> x ∈ undone_after U commits.
Proof.
  revert U. induction commits as [|commit commits IH]; intros U Hx; [done |].
  simpl. apply IH. destruct (undo_target commit); set_solver.
Qed.

Lemma well_formed_elem h (c : string * string) :
  well_formed h = true -> c ∈ h -> ok_commit c.
Proof.
  induction h as [|c0 h IH]; [by intros _ ?%elem_of_nil |].
  intros [Hc0 Hh]%well_formed_cons [->|Hin]%elem_of_cons; [done | by apply IH].
Qed.

Lemma well_formed_app h1 h2 :
  well_formed (h1 ++ h2) = true <-> well_formed h1 = true /\ well_formed h2 = true.
Proof. unfold well_formed. by rewrite forallb_app, andb_true_iff. Qed.

Lemma map_split_inv {A B : Type} (f : A -> B) (l : list A) (pre post : list B) (y : B) :
  map f l = pre ++ y :: post ->
  exists l1 x l2, l = l1 ++ x :: l2 /\ pre = map f l1 /\ y = f x /\ post = map f l2.
Proof.
  revert pre. induction l as [|a l IH]; intros pre Heq.
  - by destruct pre.
  - destruct pre as [|b pre]; simpl in Heq.
    + injection Heq as <- <-. by exists [], a, l.
    + injection Heq as <- Heq. destruct (IH pre Heq) as (l1 & x & l2 & -> & -> & -> & ->).
      by exists (a :: l1), x, l2.
Qed.

Context {git : Git}.

(** A successful undo, in full. *)
Lemma execute_undone_inv (cfg : setup) force h sha h' :
  well_formed h = true ->
  execute cfg force h = Ok (Undone sha, h') ->
  revert_succeeds sha h = true
  /\ h' = (new_sha sha h, undo_msg sha) :: h
  /\ exists pre subject post first rest last,
       h = pre ++ (sha, subject) :: post
       /\ split_ws subject = first :: rest
       /\ last_item (first :: rest) = Ok last
       /\ first <> "Undo"
       /\ eligible force first last = true
       /\ sha ∉ undone_after ∅ (map log_line pre).
Proof.
  intros Hwf. destruct cfg as [[] []]; try done.
  destruct h as [|c0 h0] eqn:Hh; [done |]. rewrite <- Hh in *.
  assert (Hne : h <> []) by by rewrite Hh.
  rewrite (execute_scan force h _ Hne Hwf eq_refl).
  destruct (scan force ∅ (map log_line h)) as [[sha0|]|] eqn:Hscan; simpl; [|done|done].
  destruct (revert_succeeds sha0 h) eqn:Hrev; [|done].
  intros [= -> <-]. split; [done |]. split; [done |].
  destruct (scan_revert_full _ _ _ _ Hscan)
    as (pre & commit & post & first & rest & last & Hsplit & Hws & Hlast & Hun & Hel & Hnot).
  destruct (map_split_inv _ _ _ _ _ Hsplit) as (l1 & c & l2 & Hl & -> & -> & ->).
  assert (Hc : ok_commit c).
  { apply (well_formed_elem h); [done |]. rewrite Hl. set_solver. }
  rewrite split_ws_log_line in Hws by apply Hc.
  injection Hws as Hsha Hsub. destruct c as [sha1 subject]. simpl in *. subst sha1.
  by exists l1, subject, l2, first, rest, last.
Qed.

(** X11: on a well-formed history the command either leaves the history
    as it is, or (outcome [Undone sha]) puts exactly one commit on top of
    it, with the message [Undo sha], where [sha] is a commit of the
    history whose subject does not start with [Undo], that is eligible
    under the rule of line 89, and that no undo record above it names. *)
Theorem undo_history (cfg : setup) force h (o : outcome) h' :
  well_formed h = true ->
  execute cfg force h = Ok (o, h') ->
  match o with
  | Undone sha =>
      h' = (new_sha sha h, "Undo " +:+ sha) :: h
      /\ exists pre subject post first rest last,
           h = pre ++ (sha, subject) :: post
           /\ split_ws subject = first :: rest
           /\ last_item (first :: rest) = Ok last
           /\ first <> "Undo"
           /\ eligible force first last = true
           /\ sha ∉ undone_after ∅ (map log_line pre)
  | _ => h' = h
  end.
Proof.
  intros Hwf Hex. destruct o as [| |sha|sha|].
  3: { destruct (execute_undone_inv cfg force h sha h' Hwf Hex) as (_ & -> & Hrest).
       by split. }
  all: revert Hex; unfold execute.
  all: destruct (git_tracked cfg); simpl; [|by intros [= <-] || done].
  all: destruct (git_initialized cfg); simpl; [|by intros [= <-] || done].
  all: destruct (git_log h) as [lines|]; simpl; [|done].
  all: destruct (scan force ∅ _) as [[sha0|]|]; simpl; [|by intros [= <-] || done|done].
  all: destruct (revert_succeeds sha0 h); by intros [= <-] || done.
Qed.
End undo_more.

Section undo_stack.
Import PyStr Undo.
Implicit Types (force : bool) (U : gset string) (h : history).

Lemma split_ws_from_nonempty (cur : list ascii) (s : string) :
  cur <> [] -> split_ws_from cur s <> [].
Proof.
  revert cur. induction s as [|c s IH]; intros cur Hcur; simpl.
  - by destruct cur.
  - destruct (is_space c); [by destruct cur | by apply IH].
Qed.

Lemma split_ws_nil (s : string) :
  split_ws s = [] -> all_chars is_space s = true.
Proof.
  unfold split_ws. induction s as [|c s IH]; simpl; [done |].
  destruct (is_space c); [by apply IH |].
  intros Hnil. by apply split_ws_from_nonempty in Hnil.
Qed.

(** A subject line has words. *)
Lemma subject_words (s : string) :
  is_subject s = true -> exists first rest, split_ws s = first :: rest.
Proof.
  intros [[Hne _]%andb_prop Hr%String.eqb_eq]%andb_prop.
  destruct (split_ws s) as [|first rest] eqn:Hs; [|by eexists _, _].
  apply split_ws_nil, rstrip_by_all in Hs. rewrite Hr in Hs.
  by rewrite Hs in Hne.
Qed.

Lemma split_ws_token (s : string) : is_token s = true -> split_ws s = [s].
Proof.
  intros [Hne Htok]%andb_prop. unfold split_ws.
  rewrite <- (app_empty_r s) at 1.
  rewrite split_ws_from_token by done. rewrite app_nil_r.
  destruct s as [|x s]; [done |].
  destruct (rev (list_ascii_of_string (String x s))) eqn:Hrev.
  - apply (f_equal (@length ascii)) in Hrev. rewrite length_rev in Hrev. done.
  - change (split_ws_from (a :: l) "") with [string_of_list_ascii (rev (a :: l))].
    rewrite <- Hrev, rev_involutive.
    by rewrite string_of_list_ascii_of_string.
Qed.

Lemma token_rstrip (s : string) : is_token s = true -> rstrip_by is_space s = s.
Proof.
  intros [_ Htok]%andb_prop. induction s as [|c s IH]; [done |].
  simpl in Htok. apply andb_prop in Htok as [Hc%negb_true_iff Hs].
  simpl. by rewrite IH, Hc, andb_false_r.
Qed.

(** The message of an undo commit is a subject line, for a commit whose
    identifier is a token. *)
Lemma undo_msg_subject (sha : string) :
  is_token sha = true ->
  is_subject (undo_msg sha) = true /\ split_ws (undo_msg sha) = ["Undo"; sha].
Proof.
  intros Htok. split.
  - unfold is_subject, undo_msg.
    pose proof (token_rstrip sha Htok) as Hr.
    destruct (andb_prop _ _ Htok) as [Hne Hall].
    assert (Hkeep : is_empty (rstrip_by is_space sha) = false).
    { rewrite Hr. by apply negb_true_iff in Hne. }
    rewrite (rstrip_by_keep is_space "Undo " sha Hkeep), Hr.
    rewrite String.eqb_refl, andb_true_r.
    rewrite all_chars_app.
    by rewrite (all_chars_impl _ _ _ not_space_not_nl Hall).
  - change (undo_msg sha) with (log_line ("Undo", sha)).
    rewrite split_ws_log_line by done. simpl. by rewrite split_ws_token.
Qed.

Context {git : Git}.

(** X12: once a commit is undone, no later invocation undoes it again,
    nor does any undo the commit that recorded the undo, with or without
    [--force].  The history is well formed, and git gives the new commit
    an identifier that is a token and is new. *)
Theorem undo_not_repeated force force' h sha h1 (o : outcome) h2 :
  well_formed h = true ->
  execute (mkSetup true true) force h = Ok (Undone sha, h1) ->
  is_token (new_sha sha h) = true ->
  new_sha sha h ∉ map fst h ->
  execute (mkSetup true true) force' h1 = Ok (o, h2) ->
  o <> Undone sha /\ o <> Undone (new_sha sha h).
Proof.
  intros Hwf Hfirst Htok Hfresh Hsecond.
  destruct (execute_undone_inv _ _ _ _ _ Hwf Hfirst)
    as (_ & -> & pre & subject & post & _ & _ & _ & Hh & _).
  assert (Hsha : is_token sha = true).
  { apply (well_formed_elem h (sha, subject) Hwf). rewrite Hh. set_solver. }
  destruct (undo_msg_subject sha Hsha) as [Hsub Hwords].
  assert (Hwf1 : well_formed ((new_sha sha h, undo_msg sha) :: h) = true).
  { apply well_formed_cons. by repeat split. }
  assert (Hx : forall x, o = Undone x -> x <> sha /\ x <> new_sha sha h).
  { intros x ->.
    destruct (execute_undone_inv _ _ _ _ _ Hwf1 Hsecond)
      as (_ & _ & pre1 & subject1 & post1 & first & rest & last
          & Hh1 & Hws & _ & Hun & _ & Hnot).
    destruct pre1 as [|c1 pre1]; simpl in Hh1.
    - injection Hh1 as -> <- _. rewrite Hwords in Hws. by injection Hws as <- _.
    - injection Hh1 as <- Hh1. split.
      + intros ->. apply Hnot. simpl. unfold undo_target.
        rewrite (split_ws_log_line (_, _)) by done. simpl fst. simpl snd.
        rewrite Hwords. simpl. apply undone_after_mono.
        apply elem_of_union. left. by apply elem_of_singleton.
      + intros ->. apply Hfresh.
        pose proof (f_equal (map fst) Hh1) as Hm.
        rewrite map_app in Hm. simpl in Hm. rewrite Hm.
        apply elem_of_app. right. by left. }
  split; intros Ho; destruct (Hx _ Ho); done.
Qed.

(** X13: when the newest commit of a well-formed history is eligible
    (with [--force]: whenever its subject does not start with [Undo], be
    it the Init commit or a commit of the user), it is the one that the
    command picks: it runs the revert-and-commit line of git on it, and
    the history gains the commit [Undo sha] exactly when that line ends
    with return code 0; otherwise the history stays as it is. *)
Theorem undo_newest (force : bool) (c : string * string) h first rest last :
  well_formed (c :: h) = true ->
  split_ws c.2 = first :: rest ->
  last_item (first :: rest) = Ok last ->
  first <> "Undo" ->
  eligible force first last = true ->
  execute (mkSetup true true) force (c :: h) =
  Ok (if revert_succeeds c.1 (c :: h)
      then (Undone c.1, (new_sha c.1 (c :: h), "Undo " +:+ c.1) :: c :: h)
      else (UndoFailed c.1, c :: h)).
Proof.
  intros Hwf Hws Hlast Hun Hel.
  assert (Hc : ok_commit c) by by apply well_formed_cons in Hwf as [? _].
  rewrite (execute_scan force (c :: h) (Ok (Revert c.1)) ltac:(done) Hwf).
  - simpl. by destruct (revert_succeeds c.1 (c :: h)).
  - simpl map. rewrite scan_cons, split_ws_log_line by apply Hc.
    rewrite Hws, Hlast. simpl.
    apply String.eqb_neq in Hun as ->.
    rewrite bool_decide_eq_false_2 by set_solver. by rewrite Hel.
Qed.

Lemma scan_exhausted U h :
  well_formed h = true ->
  (forall c first rest last,
      c ∈ h -> split_ws c.2 = first :: rest -> last_item (first :: rest) = Ok last ->
      first <> "Undo" -> eligible false first last = false) ->
  scan false U (map log_line h) = Ok Exhausted.
Proof.
  revert U. induction h as [|c h IH]; intros U Hwf Hnone; [done |].
  apply well_formed_cons in Hwf as [Hc Hwf].
  assert (Hrest : forall U', scan false U' (map log_line h) = Ok Exhausted).
  { intros U'. apply IH; [done |]. intros c' f r l Hin. apply Hnone. by right. }
  simpl map. rewrite scan_cons, split_ws_log_line by apply Hc.
  destruct (subject_words c.2 (proj2 Hc)) as (first & rest & Hws). rewrite Hws.
  destruct (last_item_cons first rest) as [last Hlast]. rewrite Hlast.
  cbn [mbind result_bind].
  destruct (String.eqb_spec first "Undo") as [->|Hun]; [done |].
  case_bool_decide; [done |].
  by rewrite (Hnone c first rest last ltac:(by left) Hws Hlast Hun).
Qed.

(** X14: without [--force], on a well-formed history none of whose
    commits is an auto-commit of a command other than Init (undo records
    apart), the command changes nothing and ends with exit status 1. *)
Theorem undo_nothing_eligible h :
  h <> [] ->
  well_formed h = true ->
  (forall c first rest last,
      c ∈ h -> split_ws c.2 = first :: rest -> last_item (first :: rest) = Ok last ->
      first <> "Undo" -> first = "Auto-commit:" -> last = "InitCommand") ->
  execute (mkSetup true true) false h = Ok (NothingToUndo, h)
  /\ exit_status NothingToUndo = 1.
Proof.
  intros Hne Hwf Hnone. split; [|done].
  rewrite (execute_scan false h (Ok Exhausted) Hne Hwf); [done |].
  apply scan_exhausted; [done |].
  intros c first rest last Hin Hws Hlast Hun.
  unfold eligible. simpl.
  destruct (String.eqb_spec first "Auto-commit:") as [Hauto|]; [|done].
  rewrite (Hnone c first rest last Hin Hws Hlast Hun Hauto). done.
Qed.
End undo_stack.

(* ===================================================================== *)
(** * More on AddCommand.execute                                          *)
(* ===================================================================== *)

Section add_more.
Import PyStr Parser Add.
Context {parsers : Parsers} {config : Config} {editor : Editor}
        {setters : Database.Setters} {merge : Database.Update}.

(** X15: when a label, files or tags come with a source whose batch does
    not hold exactly one entry, the command aborts with an assertion
    failure, before the Database is touched. *)
Theorem add_overrides_need_one (largs : args) (w : world) (new_entries : odict Entry) :
  parse_source avail_parsers largs = Some (Ok new_entries) ->
  length new_entries <> 1 ->
  is_Some (arg_label largs) \/ is_Some (arg_file largs) \/ arg_tags largs <> [] ->
  execute largs w = Raise AssertionError.
Proof.
  intros Hparse Hlen Hgiven. unfold execute, select_source. rewrite Hparse.
  cbn [mbind result_bind]. unfold overrides, override_label, override_file, override_tags.
  destruct (arg_label largs) as [lbl|].
  { by rewrite assign_on_sole_aborts. }
  cbn [mbind result_bind].
  destruct (arg_file largs) as [files|].
  { by rewrite assign_on_sole_aborts. }
  cbn [mbind result_bind].
  destruct (arg_tags largs) as [|t tags].
  { destruct Hgiven as [[? [=]]|[[? [=]]|?]]; done. }
  by rewrite assign_on_sole_aborts.
Qed.

(** X16: the labels under which a batch reaches the merge.  With
    [--label] it is that label alone, whatever the source; without it,
    the labels are those the parser gave, in its order, and the batch
    is not flagged for editing. *)
Theorem add_batch_keys (largs : args) (w : world) (batch : odict Entry) (edit : bool) :
  merged_batch largs w = Ok (Some (batch, edit)) ->
  match arg_label largs with
  | Some lbl => od_keys batch = [lbl]
  | None =>
      edit = false
      /\ exists parsed, parse_source avail_parsers largs = Some (Ok parsed)
                        /\ od_keys batch = od_keys parsed
  end.
Proof.
  unfold merged_batch, select_source.
  destruct (parse_source avail_parsers largs) as [[parsed|]|] eqn:Hparse;
    cbn [mbind result_bind]; [| done |].
  - destruct (overrides largs parsed) as [b|] eqn:Hb; [|done].
    cbn [mbind result_bind]. intros [= -> <-].
    pose proof (overrides_keys largs parsed batch Hb) as Hkeys.
    destruct (arg_label largs); [done |]. split; [done |]. by exists parsed.
  - destruct (arg_label largs) as [lbl|] eqn:Hl; cbn [mbind result_bind]; [|done].
    destruct (overrides largs _) as [b|] eqn:Hb; [|done].
    cbn [mbind result_bind]. intros [= -> <-].
    pose proof (overrides_keys largs _ batch Hb) as Hkeys.
    by rewrite Hl in Hkeys.
Qed.

(** X17: a run on parsed arguments that returns either had nothing to
    add (no source, no label): it logs the one error and leaves the
    Database as it was, nothing is saved or committed; or it merges a
    batch, and then saves once, commits once, in that order, and after
    that confirms every label that the merge has left in the batch. *)
Theorem add_saves_once (largs : args) (w w' : world) :
  execute largs w = Ok w' ->
  (merged_batch largs w = Ok None
   /\ database w' = database w
   /\ trace w' = trace w ++
        [LogError "Neither an input to parse nor a label for manual creation specified!"])
  \/ exists batch edit before,
       merged_batch largs w = Ok (Some (batch, edit))
       /\ trace w' = trace w ++ before ++ [Save; GitCommit "add"]
                     ++ flat_map (fun lbl => [PrintLine (added_msg lbl); LogInfo (added_msg lbl)])
                                 (od_keys (Database.update batch (database w)).2)
       /\ (Save ∉ before) /\ (GitCommit "add" ∉ before).
Proof.
  unfold execute, merged_batch.
  destruct (select_source largs w) as [[sel w1]|] eqn:Hsel; [|done].
  cbn [mbind result_bind].
  unfold select_source in Hsel.
  destruct (parse_source avail_parsers largs) as [[parsed|]|];
    cbn [mbind result_bind] in Hsel; [| done |].
  - injection Hsel as <- <-.
    destruct (overrides largs parsed) as [batch|]; [|done].
    cbn [mbind result_bind]. intros [= <-]. right.
    exists batch, false, []. split; [done |]. split; [|split; by intros ?%elem_of_nil].
    unfold emit, conditional_edit. simpl. by rewrite <- app_assoc.
  - destruct (arg_label largs) as [lbl|] eqn:Hl.
    + injection Hsel as <- <-.
      destruct (overrides largs _) as [batch|]; [|done].
      cbn [mbind result_bind]. intros [= <-]. right.
      unfold conditional_edit, label_missing, label_text. rewrite Hl.
      cbn [database emit trace].
      destruct (negb (od_in lbl (Database.update batch (database w)).2));
        eexists batch, true, [_; _];
        (split; [done |]); unfold emit; simpl;
        (split; [by rewrite <- !app_assoc |]);
        split; intros [?|[?|[]%elem_of_nil]%elem_of_cons]%elem_of_cons; done.
    + injection Hsel as <- <-. intros [= <-]. left. by repeat split.
Qed.
End add_more.

(* ===================================================================== *)
(** * Entry.from_arxiv                                                    *)
(* ===================================================================== *)

Ltac step_cases key :=
  unfold Arxiv.step;
  destruct (String.eqb (Arxiv.el_name key) "arxiv:doi") eqn:Edoi;
  [|destruct (String.eqb (Arxiv.el_name key) "id") eqn:Eid;
    [|destruct (String.eqb (Arxiv.el_name key) "primary_category") eqn:Ecat;
      [|destruct (String.eqb (Arxiv.el_name key) "published") eqn:Epub;
        [|destruct (String.eqb (Arxiv.el_name key) "title") eqn:Etitle;
          [|destruct (String.eqb (Arxiv.el_name key) "author") eqn:Eauthor;
            [|destruct (String.eqb (Arxiv.el_name key) "summary") eqn:Esum]]]]]].

Section arxiv.
Import PyStr PyStr2 Parser Arxiv.

Lemma concat_app (l1 l2 : list string) :
  concat (l1 ++ l2) = concat l1 +:+ concat l2.
Proof.
  induction l1 as [|x l1 IH]; [done |].
  simpl app. rewrite !concat_cons, IH. by rewrite app_assoc_str.
Qed.

Lemma take_str_app (a b : string) : take_str (String.length a) (a +:+ b) = a.
Proof. induction a as [|c a IH]; [by destruct b |]. rewrite app_cons. simpl. by rewrite IH. Qed.

Lemma drop_last_app (a b : string) : drop_last (String.length b) (a +:+ b) = a.
Proof.
  unfold drop_last. rewrite length_app_str.
  replace (String.length a + String.length b - String.length b)
    with (String.length a) by lia.
  apply take_str_app.
Qed.

Lemma od_in_set_ne {V : Type} (k k' : string) (v : V) (d : odict V) :
  k <> k' -> od_in k' (od_set k v d) = od_in k' d.
Proof. intros Hne. unfold od_in. by rewrite od_get_set_ne. Qed.

Lemma od_in_set_eq {V : Type} (k : string) (v : V) (d : odict V) :
  od_in k (od_set k v d) = true.
Proof. unfold od_in. by rewrite od_get_set_eq. Qed.

Lemma author_name_Done (key : element) (name : string) :
  author_name key = Done name ->
  exists c cs, el_children key = (name :: c) :: cs.
Proof.
  unfold author_name. destruct (el_children key) as [|[|x c] cs]; [done | done |].
  simpl. destruct (mapM first_item cs) as [names|]; [|done]. simpl.
  intros [= <-]. by eexists _, _.
Qed.

Lemma lift_fail {A : Type} (r : result A) (e : error) :
  lift r = Fail e -> exists x, e = Builtin x.
Proof. destruct r; [done |]. intros [= <-]. by eexists. Qed.

Lemma author_name_fail (key : element) (e : error) :
  author_name key = Fail e -> exists x, e = Builtin x.
Proof.
  unfold author_name.
  destruct (mapM first_item (el_children key)) as [names|x]; simpl.
  - apply lift_fail.
  - intros [= <-]. by eexists.
Qed.

Lemma author_step_first_bound (key : element) (st : state) :
  first_bound st ->
  (forall v, author_step key st <> Fail (UnboundLocalError v))
  /\ forall st', author_step key st = Done st' -> first st' <> None.
Proof.
  intros Hst. unfold author_step.
  remember (if negb (od_in "author" (entry st)) then _ else st) as st1 eqn:Hst1.
  assert (H1 : first st1 <> None).
  { rewrite Hst1. destruct (od_in "author" (entry st)) eqn:Hin; [by apply Hst | done]. }
  clear Hst1.
  destruct (author_name key) as [name|e] eqn:Hname; simpl.
  - destruct (first st1) as [[]|] eqn:Hf; [| |done].
    + destruct (last_item (split_ws name)) as [surname|]; simpl; [|by split].
      unfold get_entry.
      destruct (od_get "ID" (entry st1)); simpl;
        rewrite od_get_set_ne by done;
        destruct (od_get "author" (entry st1)); simpl;
        (split; [intros v ?; discriminate |]); try done;
        by intros st' [= <-].
    + cbn [mbind run_bind]. unfold get_entry.
      destruct (od_get "author" (entry st1)); simpl;
        (split; [intros v ?; discriminate |]); try done.
      intros st' [= <-]. simpl. by rewrite Hf.
  - destruct (author_name_fail key e Hname) as [x ->]. by split.
Qed.

Lemma step_first_bound (key : element) (st : state) :
  first_bound st ->
  (forall v, step key st <> Fail (UnboundLocalError v))
  /\ forall st', step key st = Done st' -> first_bound st'.
Proof.
  intros Hst.
  assert (Hkeep : forall k v, k <> "author" ->
             first_bound (set_entry k v st)).
  { intros k v Hk. unfold first_bound, set_entry. simpl.
    rewrite od_in_set_ne by done. apply Hst. }
  step_cases key.
  - destruct (el_contents key); simpl; split; try done.
    intros st' [= <-]. by apply Hkeep.
  - destruct (el_contents key); simpl; split; try done.
    intros st' [= <-]. unfold first_bound, set_entry. simpl.
    rewrite !od_in_set_ne by done. apply Hst.
  - destruct (od_get "term" (el_attrs key)); split; try done.
    intros st' [= <-]. by apply Hkeep.
  - destruct (el_contents key) as [|date ?]; simpl; [by split |].
    destruct (split_on "-" date) as [|year ?]; simpl; [by split |].
    destruct (od_get "ID" _); split; try done.
    all: intros st' [= <-]; unfold first_bound, set_entry; simpl.
    all: rewrite !od_in_set_ne by done; apply Hst.
  - destruct (el_contents key); simpl; split; try done.
    intros st' [= <-]. by apply Hkeep.
  - destruct (author_step_first_bound key st Hst) as [Hno Hdone].
    split; [done |]. intros st' Hst' _. by apply Hdone.
  - destruct (el_contents key); simpl; split; try done.
    intros st' [= <-]. by apply Hkeep.
  - split; [done |]. by intros st' [= <-].
Qed.

Lemma loop_first_bound (keys : list element) (st : state) :
  first_bound st ->
  (forall v, loop keys st <> Fail (UnboundLocalError v))
  /\ forall st', loop keys st = Done st' -> first_bound st'.
Proof.
  revert st. induction keys as [|key keys IH]; intros st Hst; simpl.
  - split; [done |]. by intros st' [= <-].
  - destruct (step_first_bound key st Hst) as [Hno Hkeep].
    destruct (step key st) as [st1|e]; simpl.
    + by apply IH, Hkeep.
    + split; [|done]. intros v [= ->]. by apply (Hno v).
Qed.

Context {web : Web} {feed : Feed}.

(** X18: [from_arxiv] never reads the flag [first] before it is bound:
    whatever the page holds, no [UnboundLocalError] is raised. *)
Theorem from_arxiv_first_bound (arxiv : string) (v : string) :
  from_arxiv arxiv <> Fail (UnboundLocalError v).
Proof.
  unfold from_arxiv.
  destruct (feed_entry _) as [keys|]; [|done].
  destruct (loop_first_bound keys (mkState [("archivePrefix", "arXiv")] None []))
    as [Hno _]; [done |].
  destruct (loop keys _) as [st|e] eqn:Hloop; simpl.
  - unfold finish, get_entry.
    destruct (od_in "doi" (entry st)); simpl.
    all: repeat match goal with
         | |- context [od_get ?k ?d] => destruct (od_get k d); simpl
         end; done.
  - intros [= ->]. by apply (Hno v).
Qed.
End arxiv.

Section arxiv_label.
Import PyStr PyStr2 Parser Arxiv.

Lemma read_so_far_frame names ys d st (k v : string) :
  k <> "doi" -> k <> "author" -> k <> "ID" ->
  read_so_far names ys d st -> read_so_far names ys d (set_entry k v st).
Proof.
  intros H1 H2 H3 [Hd Hrest]. unfold read_so_far, set_entry. simpl.
  rewrite od_in_set_ne by done. rewrite !od_get_set_ne by done. by split.
Qed.

Lemma read_so_far_doi names ys d st (v : string) :
  read_so_far names ys d st -> read_so_far names ys true (set_entry "doi" v st).
Proof.
  intros [Hd Hrest]. unfold read_so_far, set_entry. simpl.
  rewrite od_in_set_eq. rewrite !od_get_set_ne by done. by split.
Qed.

Lemma read_so_far_year names ys d st (year : string) :
  read_so_far names ys d st ->
  read_so_far names (ys ++ [year]) d
    (let st := set_entry "year" year st in
     match od_get "ID" (entry st) with
     | Some id => set_entry "ID" (id +:+ year) st
     | None => set_entry "ID" year st
     end).
Proof.
  intros [Hd Hrest]. unfold read_so_far. cbn zeta.
  assert (Hcat : concat (ys ++ [year]) = concat ys +:+ year).
  { rewrite concat_app. cbn [concat]. by rewrite app_empty_r. }
  assert (Hys : match ys ++ [year] with
                | [] => None
                | _ :: _ => Some (concat (ys ++ [year]))
                end = Some (concat ys +:+ year)).
  { rewrite <- Hcat. by destruct ys. }
  assert (Hget : od_get "ID" (entry (set_entry "year" year st)) = od_get "ID" (entry st)).
  { unfold set_entry. cbn [entry]. by apply od_get_set_ne. }
  rewrite Hget.
  assert (Hset : forall id,
             od_in "doi" (entry (set_entry "ID" id (set_entry "year" year st))) = d
             /\ first (set_entry "ID" id (set_entry "year" year st)) = first st
             /\ od_get "author" (entry (set_entry "ID" id (set_entry "year" year st)))
                = od_get "author" (entry st)
             /\ od_get "ID" (entry (set_entry "ID" id (set_entry "year" year st)))
                = Some id).
  { intros id. unfold set_entry. cbn [entry first].
    rewrite !od_in_set_ne by done. rewrite !od_get_set_ne by done.
    by rewrite od_get_set_eq. }
  destruct names as [|name names].
  - destruct Hrest as (Hf & Ha & Hid). rewrite Hid.
    destruct ys as [|y ys].
    + destruct (Hset year) as (-> & -> & -> & ->). by repeat split.
    + destruct (Hset (concat (y :: ys) +:+ year)) as (-> & -> & -> & ->).
      repeat split; first [done | by rewrite <- Hcat].
  - destruct Hrest as (Hf & Ha & surname & Hsn & Hid). rewrite Hid.
    destruct (Hset ((surname +:+ concat ys) +:+ year)) as (-> & -> & -> & ->).
    repeat split; try done.
    exists surname. split; [done |]. by rewrite Hcat, app_assoc_str.
Qed.

Lemma concat_map_snoc (f : string -> string) (l : list string) (x : string) :
  concat (map f (l ++ [x])) = concat (map f l) +:+ f x.
Proof. rewrite map_app, concat_app. cbn [map concat]. by rewrite app_empty_r. Qed.

Lemma read_so_far_author names ys d st st' (key : element) :
  read_so_far names ys d st ->
  author_step key st = Done st' ->
  exists name c cs, el_children key = (name :: c) :: cs
                    /\ read_so_far (names ++ [name]) ys d st'.
Proof.
  intros [Hd Hrest]. unfold author_step.
  destruct (author_name key) as [name|] eqn:Hname.
  2: { by destruct (negb (od_in "author" (entry st))). }
  destruct (author_name_Done key name Hname) as (c & cs & Hch).
  intros Hstep. exists name, c, cs. split; [done |]. revert Hstep.
  destruct names as [|name0 names].
  - destruct Hrest as (Hf & Ha & Hid).
    assert (Hin : od_in "author" (entry st) = false) by (unfold od_in; by rewrite Ha).
    rewrite Hin. cbn [negb first mbind run_bind].
    destruct (last_item (split_ws name)) as [surname|] eqn:Hsn; [|done].
    cbn [lift mbind run_bind entry]. rewrite (od_get_set_ne "author" "ID") by done.
    rewrite Hid.
    assert (Hres : forall id,
               read_so_far [name] ys d
                 (set_entry "author" ("" +:+ (name +:+ " and "))
                    (mkState
                       (entry (set_entry "ID" id
                                 (mkState (od_set "author" "" (entry st)) (Some true)
                                          (printed st))))
                       (Some false) (printed st)))
               <-> od_in "doi" (entry st) = d /\ exists surname0,
                     last_item (split_ws name) = Ok surname0
                     /\ id = surname0 +:+ concat ys).
    { intros id. unfold read_so_far, set_entry. cbn [entry first].
      rewrite !od_in_set_ne by done. rewrite od_get_set_eq.
      rewrite (od_get_set_ne "author" "ID") by done. rewrite od_get_set_eq.
      cbn [map concat]. rewrite app_empty_l, app_empty_r.
      split.
      - intros (? & _ & _ & sn & ? & [= ->]). split; [done |]. by exists sn.
      - intros (? & sn & ? & ->). split; [done |]. split; [done |]. split; [done |].
        by exists sn. }
    unfold get_entry.
    destruct ys as [|y ys]; cbn [entry set_entry printed first];
      rewrite od_get_set_ne by done; rewrite od_get_set_eq; cbn [mbind run_bind];
      intros [= <-]; apply Hres; (split; [done |]); exists surname; (split; [done |]).
    + cbn [concat]. by rewrite app_empty_r.
    + done.
  - destruct Hrest as (Hf & Ha & surname & Hsn & Hid).
    assert (Hin : od_in "author" (entry st) = true) by (unfold od_in; by rewrite Ha).
    rewrite Hin. cbn [negb]. rewrite Hf. cbn [mbind run_bind].
    unfold get_entry. rewrite Ha. cbn [mbind run_bind].
    intros [= <-]. unfold read_so_far, set_entry. cbn [entry first].
    rewrite od_in_set_ne by done. rewrite od_get_set_eq.
    rewrite (od_get_set_ne "author" "ID") by done.
    split; [done |]. split; [done |]. split.
    + change ((name0 :: names) ++ [name]) with (name0 :: (names ++ [name])).
      change (name0 :: (names ++ [name])) with ((name0 :: names) ++ [name]).
      by rewrite concat_map_snoc.
    + by exists surname.
Qed.
End arxiv_label.

Section arxiv_result.
Import PyStr PyStr2 Parser Arxiv.

Lemma step_reads (key : element) (st st' : state) names ys d :
  read_so_far names ys d st ->
  step key st = Done st' ->
  read_so_far (names ++ authors [key]) (ys ++ years [key]) (d || has_doi [key]) st'.
Proof.
  intros Hst. unfold authors, years, has_doi. cbn [omap existsb list_omap].
  step_cases key.
  all: repeat match goal with
       | H : String.eqb (el_name _) _ = true |- _ => apply String.eqb_eq in H
       end.
  - rewrite Edoi. cbn [String.eqb Ascii.eqb Bool.eqb]. simpl.
    destruct (el_contents key); simpl; [done |].
    intros [= <-]. rewrite !app_nil_r, orb_true_r. by eapply read_so_far_doi.
  - rewrite Eid. simpl.
    destruct (el_contents key); simpl; [done |].
    intros [= <-]. rewrite !app_nil_r, orb_false_r.
    apply read_so_far_frame; [done | done | done |]. by apply read_so_far_frame.
  - rewrite Ecat. simpl.
    destruct (od_get "term" (el_attrs key)); [|done].
    intros [= <-]. rewrite !app_nil_r, orb_false_r.
    by apply read_so_far_frame.
  - rewrite Epub. simpl.
    destruct (el_contents key) as [|date ?]; simpl; [done |].
    destruct (split_on "-" date) as [|year ?]; simpl; [done |].
    intros Hst'. rewrite app_nil_r, orb_false_r.
    pose proof (read_so_far_year names ys d st year Hst) as Hy. cbn zeta in Hy.
    change (entry (set_entry "year" year st))
      with (od_set "year" year (entry st)) in Hy.
    destruct (od_get "ID" (od_set "year" year (entry st)));
      injection Hst' as <-; exact Hy.
  - rewrite Etitle. simpl.
    destruct (el_contents key); simpl; [done |].
    intros [= <-]. rewrite !app_nil_r, orb_false_r.
    by apply read_so_far_frame.
  - intros Hstep.
    destruct (read_so_far_author _ _ _ _ _ key Hst Hstep) as (name & c & cs & Hch & Hres).
    rewrite Hch. simpl. by rewrite app_nil_r, orb_false_r.
  - destruct (el_contents key); simpl; [done |].
    intros [= <-]. rewrite !app_nil_r, orb_false_r.
    by apply read_so_far_frame.
  - intros [= <-]. rewrite !app_nil_r, orb_false_r. exact Hst.
Qed.

Lemma omap_cons_app {A B : Type} (f : A -> option B) (x : A) (l : list A) :
  omap f (x :: l) = omap f [x] ++ omap f l.
Proof. simpl. by destruct (f x). Qed.

Lemma loop_reads (keys : list element) (st st' : state) names ys d :
  read_so_far names ys d st ->
  loop keys st = Done st' ->
  read_so_far (names ++ authors keys) (ys ++ years keys) (d || has_doi keys) st'.
Proof.
  revert st names ys d. induction keys as [|key keys IH]; intros st names ys d Hst.
  - intros [= <-]. unfold authors, years. simpl. by rewrite !app_nil_r, orb_false_r.
  - cbn [loop]. destruct (step key st) as [st1|] eqn:Hstep; [|done].
    cbn [mbind run_bind]. intros Hloop.
    pose proof (IH _ _ _ _ (step_reads key st st1 names ys d Hst Hstep) Hloop) as Hres.
    rewrite <- !app_assoc, <- orb_assoc in Hres.
    replace (authors (key :: keys)) with (authors [key] ++ authors keys)
      by (unfold authors; symmetry; apply omap_cons_app).
    replace (years (key :: keys)) with (years [key] ++ years keys)
      by (unfold years; symmetry; apply omap_cons_app).
    replace (has_doi (key :: keys)) with (has_doi [key] || has_doi keys); [exact Hres |].
    unfold has_doi. simpl. by rewrite orb_false_r.
Qed.

Context {web : Web} {feed : Feed}.

(** X19: when [from_arxiv] returns, the page had an author tag, and the
    batch holds one entry.  Its label, and its field [ID], is the last
    word of the first author's name followed by the years of the
    [published] tags, whether the authors come before or after them; its
    field [author] is the names joined by [" and "]; and its type is
    [article] if the page had a DOI tag, [unpublished] if not. *)
Theorem from_arxiv_label (arxiv : string) (bib : odict Entry) (out : list string) :
  from_arxiv arxiv = Done (bib, out) ->
  exists keys name others surname e,
    feed_entry (http_get (ARXIV_URL +:+ arxiv)) = Some keys
    /\ authors keys = name :: others
    /\ last_item (split_ws name) = Ok surname
    /\ bib = [(surname +:+ concat (years keys), e)]
    /\ label e = surname +:+ concat (years keys)
    /\ od_get "ID" (data e) = Some (VStr (surname +:+ concat (years keys)))
    /\ od_get "author" (data e) = Some (VStr (join " and " (authors keys)))
    /\ od_get "ENTRYTYPE" (data e)
       = Some (VStr (if has_doi keys then "article" else "unpublished")).
Proof.
  unfold from_arxiv.
  destruct (feed_entry _) as [keys|]; [|done].
  destruct (loop keys _) as [st|] eqn:Hloop; [|done]. cbn [mbind run_bind].
  assert (Hstart : read_so_far [] [] false (mkState [("archivePrefix", "arXiv")] None [])).
  { by repeat split. }
  pose proof (loop_reads keys _ st [] [] false Hstart Hloop) as [Hd Hrest].
  cbn [app orb] in Hd, Hrest.
  unfold finish, get_entry.
  set (st1 := if od_in "doi" (entry st) then _ else _).
  assert (Hst1 : entry st1 = od_set "ENTRYTYPE"
                   (if has_doi keys then "article" else "unpublished") (entry st)
                 /\ printed st1 = printed st).
  { unfold st1. rewrite Hd. by destruct (has_doi keys). }
  destruct Hst1 as [Hentry Hprinted]. clearbody st1.
  rewrite Hentry. rewrite (od_get_set_ne "ENTRYTYPE" "author") by done.
  destruct (authors keys) as [|name others] eqn:Hauthors.
  { destruct Hrest as (_ & -> & _). done. }
  destruct Hrest as (_ & Ha & surname & Hsn & Hid). rewrite Ha.
  cbn [mbind run_bind]. unfold set_entry. cbn [entry printed].
  rewrite (od_get_set_ne "author" "ID") by done.
  rewrite Hentry. rewrite (od_get_set_ne "ENTRYTYPE" "ID") by done.
  rewrite Hid. cbn [mbind run_bind]. intros [= <- <-].
  exists keys, name, others, surname. eexists. split; [done |].
  split; [done |]. split; [done |]. split; [reflexivity |].
  split; [reflexivity |]. unfold new. cbn [data].
  rewrite !od_get_of_record.
  rewrite (od_get_set_ne "author" "ID") by done.
  rewrite (od_get_set_ne "ENTRYTYPE" "ID") by done. rewrite Hid.
  rewrite od_get_set_eq.
  rewrite (od_get_set_ne "author" "ENTRYTYPE") by done. rewrite od_get_set_eq.
  split; [done |]. split; [|done]. cbn [fmap option_fmap option_map]. do 2 f_equal.
  rewrite Hauthors.
  change (drop_last (String.length " and ")
            (concat (map (fun n => n +:+ " and ") (name :: others)))
          = join " and " (name :: others)).
  rewrite (concat_map_sep " and " (fun n => n)) by done.
  rewrite map_id. apply (drop_last_app _ " and ").
Qed.
End arxiv_result.


(* ===================================================================== *)
(** * cobib/commands/open.py: what the command does                       *)
(* ===================================================================== *)

Section open.
Import PyStr PyStr2 Open.
Context {argparse : Argparse}.

Ltac no_popen :=
  let Hin := fresh "Hin" in
  cbn; intros Hin;
  repeat (apply elem_of_cons in Hin; destruct Hin as [Hin|Hin]; [discriminate Hin |]);
  by apply elem_of_nil in Hin.

(** X20: whatever the arguments, the configuration and the Database, the
    command starts no process: [Popen] is never called. *)
Theorem open_never_spawns (cfg : config) (platform : string) (args : list string)
    (out : option stream) (argv : list string) :
  Popen argv ∉ effects (execute cfg platform args out).
Proof.
  unfold execute, except_KeyError, open_entry, check_file, popen, item, sys_exit,
    say, raise.
  destruct args as [|a args]; [no_popen |].
  cbn [mbind proc_bind mret proc_ret outcome effects app].
  destruct (parse_args (a :: args)) as [label|name message|text status];
    [|no_popen..].
  destruct (BIB_DATA cfg) as [bib|]; [|no_popen].
  cbn [mbind proc_bind mret proc_ret outcome effects app].
  destruct (od_get label bib) as [data|]; [|no_popen].
  cbn [mbind proc_bind mret proc_ret outcome effects app].
  unfold od_in.
  destruct (od_get "file" data) as [[file|]|]; destruct out; no_popen.
Qed.

(** X21: for an entry that has a file the command fails with
    [UnboundLocalError] for the variable [opener], which is bound only
    behind the [sys.exit(1)] of the branch for entries without file;
    nothing is printed. *)
Theorem open_file_unbound (cfg : config) (platform : string) (args : list string)
    (out : option stream) (label : string) (bib : odict (odict (option string)))
    (data : odict (option string)) (file : string) :
  args <> [] ->
  parse_args args = Namespace label ->
  BIB_DATA cfg = Some bib ->
  od_get label bib = Some data ->
  od_get "file" data = Some (Some file) ->
  execute cfg platform args out = mkProc [] (Fail (UnboundLocalError "opener")).
Proof.
  intros Hargs Hparse Hbib Hdata Hfile.
  unfold execute, except_KeyError, open_entry, check_file, popen, item, od_in.
  destruct args as [|a args]; [done |].
  cbn [mbind proc_bind mret proc_ret outcome effects app].
  rewrite Hparse, Hbib. cbn [mbind proc_bind mret proc_ret outcome effects app].
  rewrite Hdata. cbn [mbind proc_bind mret proc_ret outcome effects app].
  by rewrite Hfile.
Qed.

(** X22: how the command can end.  It returns an error message only
    when it is called without an output stream, the message being that
    the entry has no file, and then it has printed nothing; and the only
    exceptions that leave it are [SystemExit] and the
    [UnboundLocalError] for [opener]: no [KeyError] escapes. *)
Theorem open_outcomes (cfg : config) (platform : string) (args : list string)
    (out : option stream) :
  (forall msg, outcome (execute cfg platform args out) = Done (Some msg) ->
     out = None /\ msg = no_file /\ effects (execute cfg platform args out) = [])
  /\ (forall e, outcome (execute cfg platform args out) = Fail e ->
        (exists status, e = SystemExit status) \/ e = UnboundLocalError "opener").
Proof.
  unfold execute, except_KeyError, open_entry, check_file, popen, item, sys_exit,
    say, raise, od_in.
  destruct args as [|a args].
  { cbn. split; [done |]. intros e [= <-]. left. by eexists. }
  cbn [mbind proc_bind mret proc_ret outcome effects app].
  destruct (parse_args (a :: args)) as [label|name message|text status].
  2: { cbn. by split. }
  2: { cbn. split; [done |]. intros e [= <-]. left. by eexists. }
  destruct (BIB_DATA cfg) as [bib|]; [|cbn; by split].
  cbn [mbind proc_bind mret proc_ret outcome effects app].
  destruct (od_get label bib) as [data|]; [|cbn; by split].
  cbn [mbind proc_bind mret proc_ret outcome effects app].
  destruct (od_get "file" data) as [[file|]|]; destruct out as [o|]; cbn;
    (split; [try done; by intros msg [= <-] |]); try done;
    intros e [= <-]; (by right) || (left; by eexists).
Qed.
End open.

(* ===================================================================== *)
(** * main.py: BibTeX text of a row and back                              *)
(* ===================================================================== *)

Section main_bibtex.
Import PyStr PyStr2 Main.

#[local] Abbreviation no_nl := (fun c => negb (Ascii.eqb c (ascii_of_nat 10))).

Lemma insert_sorted_perm (k : string) (l : list string) : insert_sorted k l ≡ₚ k :: l.
Proof.
  induction l as [|x l IH]; simpl; [done |].
  destruct (String.leb k x); [done |]. by rewrite IH, Permutation_swap.
Qed.

Lemma sorted_perm (l : list string) : sorted l ≡ₚ l.
Proof.
  induction l as [|x l IH]; simpl; [done |].
  by rewrite insert_sorted_perm, IH.
Qed.

Lemma fold_add_field (entry : row) (keys : list string) (bibtex : string) :
  fold_left (add_field entry) keys bibtex
  = bibtex +:+ concat (map (fun kv => field_line kv.1 kv.2) (written entry keys)).
Proof.
  revert bibtex. induction keys as [|key keys IH]; intros bibtex.
  - simpl. by rewrite app_empty_r.
  - cbn [fold_left written omap list_omap]. rewrite IH. unfold add_field.
    destruct (od_get key entry) as [[value|]|]; [|done..].
    destruct (negb (mem key ["type"; "label"])); [|done].
    cbn [map concat fst snd]. by rewrite app_assoc_str.
Qed.

Lemma elem_of_written (entry : row) (keys : list string) (k v : string) :
  (k, v) ∈ written entry keys
  <-> k ∈ keys /\ od_get k entry = Some (Some v) /\ k <> "type" /\ k <> "label".
Proof.
  unfold written. rewrite list_elem_of_omap. split.
  - intros (key & Hin & Hsome).
    destruct (od_get key entry) as [[value|]|] eqn:Hget; [|done..].
    destruct (negb (mem key ["type"; "label"])) eqn:Hmem; [|done].
    injection Hsome as -> ->. split; [done |]. split; [done |].
    unfold mem in Hmem. simpl in Hmem. rewrite orb_false_r in Hmem.
    apply negb_true_iff, orb_false_iff in Hmem as [H1 H2].
    split; [by apply String.eqb_neq | by apply String.eqb_neq].
  - intros (Hin & Hget & H1 & H2). exists k. split; [done |].
    rewrite Hget. unfold mem. simpl.
    apply String.eqb_neq in H1, H2. by rewrite H1, H2.
Qed.

Lemma rstrip_by_split p (a b : string) :
  rstrip_by p (a +:+ b)
  = if is_empty (rstrip_by p b) then rstrip_by p a else a +:+ rstrip_by p b.
Proof.
  destruct (is_empty (rstrip_by p b)) eqn:Hb; [|by apply rstrip_by_keep].
  induction a as [|c a IH].
  - rewrite app_empty_l. by destruct (rstrip_by p b).
  - rewrite app_cons. simpl. by rewrite IH.
Qed.

Lemma drop_while_app_all p (a t : string) :
  all_chars p a = true -> drop_while p (a +:+ t) = drop_while p t.
Proof.
  induction a as [|c a IH]; [done |]. simpl all_chars. intros [Hc Ha]%andb_prop.
  rewrite app_cons. simpl. rewrite Hc. by apply IH.
Qed.

Lemma strip_by_wrapped p (a s b : string) :
  all_chars p a = true -> all_chars p b = true -> strip_by p s = s ->
  strip_by p (a +:+ s +:+ b) = s.
Proof.
  intros Ha Hb Hs. rewrite <- app_assoc_str, strip_by_app by done.
  unfold strip_by, lstrip_by in *. rewrite rstrip_by_split.
  destruct (is_empty (rstrip_by p s)) eqn:He.
  - destruct (rstrip_by p s); [|done]. simpl in Hs. subst s.
    by rewrite rstrip_by_all.
  - by rewrite drop_while_app_all.
Qed.

Lemma strip_comma_fields (x : string) :
  strip_chars "," (String "@" (x +:+ "},")) = String "@" (x +:+ "}").
Proof.
  replace (String "@" (x +:+ "},")) with (String "@" (x +:+ "}") +:+ ",")
    by (by rewrite app_cons, app_assoc_str).
  unfold strip_chars, strip_by, lstrip_by.
  rewrite rstrip_by_app by done.
  replace (String "@" (x +:+ "}")) with (String "@" x +:+ "}") by done.
  by rewrite rstrip_by_keep.
Qed.

Lemma split_on_lines (sep : ascii) (a : string) (ls : list string) :
  all_chars (fun c => negb (Ascii.eqb c sep)) a = true ->
  Forall (fun l => all_chars (fun c => negb (Ascii.eqb c sep)) l = true) ls ->
  split_on sep (a +:+ concat (map (String sep) ls)) = a :: ls.
Proof.
  revert a. induction ls as [|l ls IH]; intros a Ha Hls.
  - simpl. rewrite app_empty_r. by apply split_on_whole.
  - apply Forall_cons in Hls as [Hl Hls].
    cbn [map concat]. rewrite app_cons, split_on_first by done.
    by rewrite IH.
Qed.

Lemma find_type_header (type rest : string) :
  all_chars is_alpha type = true ->
  find_type ("@" +:+ type +:+ "{" +:+ rest) = [type].
Proof.
  intros Ht. unfold find_type.
  change ("@" +:+ type +:+ "{" +:+ rest) with (String "@" (type +:+ String "{" rest)).
  cbn [strip_prefix Ascii.eqb Bool.eqb].
  destruct (take_while_app is_alpha type rest "{" Ht eq_refl) as [-> ->].
  done.
Qed.

Lemma label_at_other (c : ascii) (s : string) :
  Ascii.eqb c "{" = false -> label_at (String c s) = None.
Proof.
  intros Hc. unfold label_at. cbn [strip_prefix].
  by rewrite Ascii.eqb_sym, Hc.
Qed.

Lemma find_label_skip (pre s : string) :
  all_chars (fun c => negb (Ascii.eqb c "{")) pre = true ->
  find_label (pre +:+ s) = find_label s.
Proof.
  induction pre as [|c pre IH]; [done |]. simpl all_chars.
  intros [Hc Hpre]%andb_prop. apply negb_true_iff in Hc.
  rewrite app_cons.
  change (find_label (String c (pre +:+ s)))
    with (match label_at (String c (pre +:+ s)) with
          | Some group => [group]
          | None => find_label (pre +:+ s)
          end).
  rewrite label_at_other by done. by apply IH.
Qed.

Lemma label_at_header (label : string) :
  all_chars is_word label = true -> label_at ("{" +:+ label +:+ ",") = Some label.
Proof.
  intros Hl. unfold label_at.
  change ("{" +:+ label +:+ ",") with (String "{" (label +:+ String "," "")).
  cbn [strip_prefix Ascii.eqb Bool.eqb].
  destruct (take_while_app is_word label "" "," Hl eq_refl) as [-> ->].
  done.
Qed.

Lemma alpha_not_brace (c : ascii) : is_alpha c = true -> negb (Ascii.eqb c "{") = true.
Proof. destruct (Ascii.eqb_spec c "{") as [->|]; [by vm_compute | done]. Qed.

Lemma find_label_header (type label : string) :
  all_chars is_alpha type = true -> all_chars is_word label = true ->
  find_label ("@" +:+ type +:+ "{" +:+ label +:+ ",") = [label].
Proof.
  intros Ht Hl.
  replace ("@" +:+ type +:+ "{" +:+ label +:+ ",")
    with (("@" +:+ type) +:+ ("{" +:+ label +:+ ",")) by (by rewrite app_assoc_str).
  rewrite find_label_skip.
  - change (find_label ("{" +:+ label +:+ ","))
      with (match label_at ("{" +:+ label +:+ ",") with
            | Some group => [group]
            | None => find_label (label +:+ ",")
            end).
    by rewrite label_at_header.
  - rewrite all_chars_app. apply andb_true_intro. split; [done |].
    by apply (all_chars_impl is_alpha), Ht; apply alpha_not_brace.
Qed.

Lemma plain_parts (k v : string) :
  plain k v = true ->
  all_chars no_eq_nl k = true /\ strip k = k
  /\ all_chars no_eq_nl v = true /\ strip_chars " ,{}" v = v /\ collapse_ws v = v.
Proof.
  unfold plain. intros H.
  apply andb_prop in H as [H H5]. apply andb_prop in H as [H H4].
  apply andb_prop in H as [H H3]. apply andb_prop in H as [H1 H2].
  apply String.eqb_eq in H2, H4, H5. done.
Qed.

Lemma no_eq_nl_eq (s : string) :
  all_chars no_eq_nl s = true ->
  all_chars (fun c => negb (Ascii.eqb c "=")) s = true.
Proof. apply all_chars_impl. by intros c [? ?]%andb_prop. Qed.

Lemma no_eq_nl_nl (s : string) :
  all_chars no_eq_nl s = true ->
  all_chars (fun c => negb (Ascii.eqb c (ascii_of_nat 10))) s = true.
Proof. apply all_chars_impl. by intros c [? ?]%andb_prop. Qed.

Lemma read_field_plain (closing : string) (kv : string * string) (entry : odict string) :
  plain kv.1 kv.2 = true -> closing = "}" \/ closing = "}," ->
  read_field (line_of closing kv) entry = Ok (od_set kv.1 kv.2 entry).
Proof.
  destruct kv as [k v]. cbn [fst snd].
  intros (Hk & Hks & Hv & Hvs & Hvc)%plain_parts Hclosing.
  unfold read_field, line_of. cbn [fst snd].
  replace (tab +:+ k +:+ " = {" +:+ v +:+ closing)
    with ((tab +:+ k +:+ " ") +:+ String "=" (" {" +:+ v +:+ closing))
    by (by rewrite !app_assoc_str).
  rewrite split_on_first.
  2: { rewrite !all_chars_app, (no_eq_nl_eq k Hk). done. }
  rewrite split_on_whole.
  2: { rewrite !all_chars_app, (no_eq_nl_eq v Hv). by destruct Hclosing as [-> | ->]. }
  unfold strip, strip_chars.
  rewrite (strip_by_wrapped is_space tab k " ") by done.
  rewrite (strip_by_wrapped (fun c => mem_char c " ,{}") " {" v closing);
    [by rewrite Hvc | done | by destruct Hclosing as [-> | ->] | done].
Qed.

Lemma line_of_not_end (closing : string) (kv : string * string) :
  String.eqb (line_of closing kv) "}" = false.
Proof. done. Qed.

Lemma read_fields_plain (fs : list (string * string)) (rest : list string)
    (entry : odict string) :
  Forall (fun kv => plain kv.1 kv.2 = true) fs ->
  read_fields (map (line_of "},") fs ++ rest) entry
  = read_fields rest (fold_left (fun e kv => od_set kv.1 kv.2 e) fs entry).
Proof.
  revert entry. induction fs as [|kv fs IH]; intros entry Hfs; [done |].
  apply Forall_cons in Hfs as [Hkv Hfs].
  cbn [map app read_fields fold_left]. rewrite line_of_not_end.
  rewrite read_field_plain by (done || by right). cbn [mbind result_bind].
  by apply IH.
Qed.

Lemma od_get_fold_set (f : string -> option string) (fs : list (string * string))
    (entry : odict string) (k : string) :
  (forall k v, (k, v) ∈ fs -> f k = Some v) ->
  od_get k (fold_left (fun e kv => od_set kv.1 kv.2 e) fs entry)
  = if bool_decide (k ∈ map fst fs) then f k else od_get k entry.
Proof.
  induction fs as [|[k1 v1] fs IH] using rev_ind; intros Hf; [done |].
  rewrite fold_left_app. cbn [fold_left fst snd].
  rewrite map_app. cbn [map fst].
  destruct (decide (k = k1)) as [->|Hne].
  - rewrite od_get_set_eq. rewrite bool_decide_eq_true_2.
    + symmetry. apply Hf. apply elem_of_app. right. by left.
    + apply elem_of_app. right. by left.
  - rewrite od_get_set_ne by done. rewrite IH.
    + destruct (decide (k ∈ map fst fs)) as [Hin|Hnin].
      * rewrite !bool_decide_eq_true_2; [done | apply elem_of_app; by left | done].
      * rewrite !bool_decide_eq_false_2; [done | | done].
        rewrite elem_of_app, list_elem_of_singleton. by intros [?|?].
    + intros k' v' Hin. apply Hf. apply elem_of_app. by left.
Qed.

Lemma field_lines (fs : list (string * string)) :
  concat (map (fun kv => field_line kv.1 kv.2) fs)
  = concat (map (String (ascii_of_nat 10)) (map (line_of "},") fs)).
Proof. rewrite map_map. f_equal. Qed.

Lemma dict_to_bibtex_text (entry : row) (type label : string)
    (fs : list (string * string)) (kv : string * string) :
  od_get "type" entry = Some (Some type) ->
  od_get "label" entry = Some (Some label) ->
  written entry (sorted (od_keys entry)) = fs ++ [kv] ->
  _dict_to_bibtex entry
  = Done (("@" +:+ type +:+ "{" +:+ label +:+ ",")
          +:+ concat (map (String (ascii_of_nat 10))
                        (map (line_of "},") fs ++ [line_of "}" kv; "}"]))).
Proof.
  intros Htype Hlabel Hw. unfold _dict_to_bibtex, text_item.
  rewrite Htype, Hlabel. cbn [mbind run_bind].
  rewrite fold_add_field, Hw. f_equal.
  rewrite !map_app, !concat_app, field_lines.
  set (C := concat (map (String (ascii_of_nat 10)) (map (line_of "},") fs))).
  destruct kv as [k v]. cbn [map concat fst snd]. unfold field_line, line_of.
  cbn [fst snd].
  replace (("@" +:+ type +:+ "{" +:+ label +:+ ",") +:+
           C +:+ (newline +:+ tab +:+ k +:+ " = {" +:+ v +:+ "},") +:+ "")
    with (String "@" ((type +:+ "{" +:+ label +:+ "," +:+ C +:+ newline +:+ tab
                       +:+ k +:+ " = {" +:+ v) +:+ "},")).
  2: { rewrite !app_assoc_str, app_empty_r. done. }
  rewrite strip_comma_fields. unfold newline, tab.
  repeat (rewrite app_cons || rewrite app_assoc_str || rewrite app_empty_l).
  done.
Qed.

Lemma alpha_no_nl (s : string) : all_chars is_alpha s = true -> all_chars no_nl s = true.
Proof.
  apply all_chars_impl. intros c Hc.
  destruct (Ascii.eqb_spec c (ascii_of_nat 10)) as [->|]; [by vm_compute in Hc | done].
Qed.

Lemma word_no_nl (s : string) : all_chars is_word s = true -> all_chars no_nl s = true.
Proof.
  apply all_chars_impl. intros c Hc.
  destruct (Ascii.eqb_spec c (ascii_of_nat 10)) as [->|]; [by vm_compute in Hc | done].
Qed.

Lemma line_of_no_nl (closing : string) (kv : string * string) :
  all_chars no_eq_nl kv.1 = true -> all_chars no_eq_nl kv.2 = true ->
  all_chars no_nl closing = true ->
  all_chars no_nl (line_of closing kv) = true.
Proof.
  intros Hk Hv Hc. unfold line_of.
  by rewrite !all_chars_app, (no_eq_nl_nl _ Hk), (no_eq_nl_nl _ Hv), Hc.
Qed.

Lemma elem_of_sorted (k : string) (l : list string) : k ∈ sorted l <-> k ∈ l.
Proof. by rewrite sorted_perm. Qed.

Lemma od_get_keys {V : Type} (k : string) (v : V) (d : odict V) :
  od_get k d = Some v -> k ∈ od_keys d.
Proof.
  intros Hget. destruct (decide (k ∈ od_keys d)) as [|Hn]; [done |].
  apply od_get_None in Hn. congruence.
Qed.

(** X23: the round trip of an edit that changes nothing.  For a row with
    a type of letters, a label of word characters and at least one more
    field that is not [None], all of them plain, [_bibtex_to_dict] reads
    back from the text of [_dict_to_bibtex] the type, the label and every
    field that is not [None], with their values, and nothing else. *)
Theorem bibtex_round_trip (entry : row) (type label : string) :
  od_get "type" entry = Some (Some type) ->
  od_get "label" entry = Some (Some label) ->
  all_chars is_alpha type = true ->
  all_chars is_word label = true ->
  (exists k v, od_get k entry = Some (Some v) /\ k <> "type" /\ k <> "label") ->
  (forall k v, od_get k entry = Some (Some v) -> k <> "type" -> k <> "label" ->
               plain k v = true) ->
  exists text d,
    _dict_to_bibtex entry = Done text
    /\ _bibtex_to_dict text = Ok d
    /\ forall k, od_get k d
                 = match od_get k entry with Some (Some v) => Some v | _ => None end.
Proof.
  intros Htype Hlabel Halpha Hword (k0 & v0 & Hget0 & Hk0) Hplain.
  assert (Hin : forall k v, (k, v) ∈ written entry (sorted (od_keys entry))
                <-> od_get k entry = Some (Some v) /\ k <> "type" /\ k <> "label").
  { intros k v. rewrite elem_of_written, elem_of_sorted. split; [tauto |].
    intros (Hget & Hne). split; [by eapply od_get_keys | done]. }
  assert (Hall : Forall (fun kv => plain kv.1 kv.2 = true)
                   (written entry (sorted (od_keys entry)))).
  { apply Forall_forall. intros [k v] (Hget & H1 & H2)%Hin. by apply Hplain. }
  destruct (exists_last (l := written entry (sorted (od_keys entry)))) as (fs & kv & Hw).
  { intros Hnil. assert (Hel : (k0, v0) ∈ written entry (sorted (od_keys entry)))
      by (by apply Hin).
    rewrite Hnil in Hel. by apply elem_of_nil in Hel. }
  rewrite Hw in Hall. apply Forall_app in Hall as [Hfs Hkv].
  apply Forall_inv in Hkv.
  eexists _, _. split; [by apply (dict_to_bibtex_text entry type label fs kv) |].
  unfold _bibtex_to_dict. rewrite split_on_lines.
  2: { by rewrite !all_chars_app, (alpha_no_nl _ Halpha), (word_no_nl _ Hword). }
  2: { apply Forall_app. split.
       - apply Forall_fmap. eapply Forall_impl; [exact Hfs |].
         intros kv' (H1 & _ & H2 & _)%plain_parts. by apply line_of_no_nl.
       - apply plain_parts in Hkv as (H1 & _ & H2 & _).
         apply Forall_cons. split; [by apply line_of_no_nl |]. by apply Forall_singleton. }
  cbn [first_item mbind result_bind tail].
  rewrite find_type_header, find_label_header by done.
  cbn [first_item mbind result_bind].
  rewrite read_fields_plain by done.
  cbn [read_fields]. rewrite line_of_not_end.
  rewrite read_field_plain by (done || by left).
  cbn [mbind result_bind String.eqb Ascii.eqb Bool.eqb].
  split; [reflexivity |]. intros k.
  change (od_set kv.1 kv.2 ?d) with (fold_left (fun acc x => od_set x.1 x.2 acc) [kv] d).
  rewrite <- fold_left_app, <- Hw.
  rewrite (od_get_fold_set
             (fun k => match od_get k entry with Some (Some v) => Some v | _ => None end)).
  2: { intros k' v' (Hget & _)%Hin. by rewrite Hget. }
  destruct (decide (k ∈ map fst (written entry (sorted (od_keys entry))))) as [Hk|Hk].
  - by rewrite bool_decide_eq_true_2.
  - rewrite bool_decide_eq_false_2 by done.
    destruct (decide (k = "type")) as [->|Hnt]; [by rewrite Htype |].
    destruct (decide (k = "label")) as [->|Hnl]; [by rewrite Hlabel |].
    rewrite !od_get_set_ne by done.
    destruct (od_get k entry) as [[v|]|] eqn:Hget; [|done..].
    exfalso. apply Hk. apply list_elem_of_fmap. exists (k, v). split; [done |].
    by apply Hin.
Qed.

Lemma all_chars_drop_while (p q : ascii -> bool) (s : string) :
  all_chars q s = true -> all_chars q (drop_while p s) = true.
Proof.
  induction s as [|c s IH]; [done |]. simpl. intros [Hc Hs]%andb_prop.
  destruct (p c); [by apply IH |]. simpl. by rewrite Hc, Hs.
Qed.

Lemma all_chars_rstrip_by (p q : ascii -> bool) (s : string) :
  all_chars q s = true -> all_chars q (rstrip_by p s) = true.
Proof.
  induction s as [|c s IH]; [done |]. simpl. intros [Hc Hs]%andb_prop.
  destruct (is_empty (rstrip_by p s) && p c); [done |]. simpl. by rewrite Hc, IH.
Qed.

Lemma label_at_Some (s group : string) :
  label_at s = Some group ->
  exists pre, s = pre +:+ "," \/ s = pre +:+ "," +:+ newline.
Proof.
  unfold label_at. destruct (strip_prefix "{" s) as [rest|] eqn:Hs; [|done].
  apply strip_prefix_Some in Hs. subst s.
  destruct (_ || _) eqn:Hafter; [|done]. intros _.
  exists ("{" +:+ take_while is_word rest).
  rewrite (take_drop_while is_word rest) at 1 3.
  apply orb_prop in Hafter as [->%String.eqb_eq | ->%String.eqb_eq];
    [left | right]; by rewrite !app_assoc_str.
Qed.

Lemma find_label_ends (s : string) :
  find_label s <> [] ->
  exists pre, s = pre +:+ "," \/ s = pre +:+ "," +:+ newline.
Proof.
  induction s as [|c s IH].
  - by vm_compute.
  - change (find_label (String c s))
      with (match label_at (String c s) with
            | Some group => [group]
            | None => find_label s
            end).
    destruct (label_at (String c s)) as [group|] eqn:Hat.
    + intros _. by eapply label_at_Some.
    + intros (pre & [-> | ->])%IH; exists (String c pre); [by left | by right].
Qed.

Lemma find_label_none (s : string) :
  rstrip_by (fun c => mem_char c ",") s = s -> all_chars no_nl s = true ->
  find_label s = [].
Proof.
  intros Hs Hnl. destruct (find_label s) as [|g gs] eqn:Hfind; [done |].
  destruct (find_label_ends s) as (pre & [-> | ->]); [by rewrite Hfind | |].
  - rewrite rstrip_by_app in Hs by done.
    pose proof (rstrip_by_length (fun c => mem_char c ",") pre) as Hlen.
    rewrite Hs, length_app_str in Hlen. simpl in Hlen. lia.
  - rewrite all_chars_app in Hnl.
    change (all_chars no_nl ("," +:+ newline)) with false in Hnl.
    by rewrite andb_false_r in Hnl.
Qed.

(** X24: a row that has nothing but its type and label (the other
    columns are [None]) does not make the round trip: [_dict_to_bibtex]
    strips the comma after the label, and [_bibtex_to_dict] fails on the
    text with [IndexError]. *)
Theorem bibtex_without_fields (entry : row) (type label : string) :
  od_get "type" entry = Some (Some type) ->
  od_get "label" entry = Some (Some label) ->
  all_chars no_nl type = true ->
  all_chars no_nl label = true ->
  (forall k v, od_get k entry = Some (Some v) -> k = "type" \/ k = "label") ->
  exists text,
    _dict_to_bibtex entry = Done text
    /\ _bibtex_to_dict text = Raise IndexError.
Proof.
  intros Htype Hlabel Hnt Hnl Honly.
  assert (Hw : written entry (sorted (od_keys entry)) = []).
  { destruct (written entry (sorted (od_keys entry))) as [|[k v] fs] eqn:Hw; [done |].
    assert (Hin : (k, v) ∈ written entry (sorted (od_keys entry)))
      by (rewrite Hw; by left).
    apply elem_of_written in Hin as (_ & Hget & H1 & H2).
    by destruct (Honly k v Hget). }
  eexists. split.
  { unfold _dict_to_bibtex, text_item. rewrite Htype, Hlabel. cbn [mbind run_bind].
    rewrite fold_add_field, Hw. cbn [map concat]. rewrite app_empty_r. reflexivity. }
  set (line := strip_chars "," ("@" +:+ type +:+ "{" +:+ label +:+ ",")).
  assert (Hline : all_chars no_nl line = true).
  { unfold line, strip_chars, strip_by, lstrip_by.
    apply all_chars_drop_while, all_chars_rstrip_by.
    by rewrite !all_chars_app, Hnt, Hnl. }
  unfold _bibtex_to_dict.
  replace (line +:+ newline +:+ "}")
    with (line +:+ concat (map (String (ascii_of_nat 10)) ["}"])) by done.
  rewrite split_on_lines by (done || by apply Forall_singleton).
  cbn [first_item mbind result_bind].
  destruct (find_type line) as [|t ?]; [done |]. cbn [first_item mbind result_bind].
  rewrite find_label_none; [done | | done].
  apply (strip_by_ends (fun c => mem_char c ",")).
Qed.

Lemma split_on_cons_length (sep c : ascii) (s : string) :
  length (split_on sep (String c s))
  = (if Ascii.eqb c sep then 1 else 0) + length (split_on sep s)
  /\ 1 <= length (split_on sep s).
Proof.
  revert c. induction s as [|d s IH]; intros c.
  - simpl. by destruct (Ascii.eqb c sep).
  - destruct (IH d) as [Hlen Hpos].
    assert (Hd : 1 <= length (split_on sep (String d s))) by (rewrite Hlen; lia).
    split; [|done].
    change (split_on sep (String c (String d s)))
      with (if Ascii.eqb c sep then EmptyString :: split_on sep (String d s)
            else match split_on sep (String d s) with
                 | [] => [String c EmptyString]
                 | w :: ws => String c w :: ws
                 end).
    destruct (Ascii.eqb c sep); [done |].
    destruct (split_on sep (String d s)); [simpl in Hd; lia | done].
Qed.

Lemma split_on_app_length (sep : ascii) (a b : string) :
  length (split_on sep (a +:+ b)) + 1
  = length (split_on sep a) + length (split_on sep b).
Proof.
  induction a as [|c a IH].
  - rewrite app_empty_l. simpl. lia.
  - rewrite app_cons.
    destruct (split_on_cons_length sep c (a +:+ b)) as [-> _].
    destruct (split_on_cons_length sep c a) as [-> _]. lia.
Qed.

Lemma split_on_some_length (sep : ascii) (s : string) :
  all_chars (fun c => negb (Ascii.eqb c sep)) s = false ->
  2 <= length (split_on sep s).
Proof.
  induction s as [|c s IH]; [done |]. simpl all_chars.
  destruct (split_on_cons_length sep c s) as [-> Hpos].
  destruct (Ascii.eqb c sep); simpl; [lia |]. intros Hs. apply IH in Hs. lia.
Qed.

Lemma read_field_too_many (closing : string) (kv : string * string)
    (entry : odict string) :
  all_chars (fun c => negb (Ascii.eqb c "=")) kv.1
  && all_chars (fun c => negb (Ascii.eqb c "=")) kv.2 = false ->
  read_field (line_of closing kv) entry = Raise ValueError.
Proof.
  intros Heq. unfold read_field.
  assert (Hlen : 3 <= length (split_on "=" (line_of closing kv))).
  { unfold line_of.
    pose proof (split_on_app_length "=" tab (kv.1 +:+ " = {" +:+ kv.2 +:+ closing)) as H1.
    pose proof (split_on_app_length "=" kv.1 (" = {" +:+ kv.2 +:+ closing)) as H2.
    pose proof (split_on_app_length "=" " = {" (kv.2 +:+ closing)) as H3.
    pose proof (split_on_app_length "=" kv.2 closing) as H4.
    destruct closing as [|c closing].
    - destruct (split_on_cons_length "=" "=" kv.1) as [_ Hk].
      destruct (split_on_cons_length "=" "=" kv.2) as [_ Hv].
      change (length (split_on "=" tab)) with 1 in H1.
      change (length (split_on "=" " = {")) with 2 in H3.
      change (length (split_on "=" "")) with 1 in H4.
      apply andb_false_iff in Heq as [Hbad|Hbad];
        apply (split_on_some_length "=") in Hbad; lia.
    - destruct (split_on_cons_length "=" "=" kv.1) as [_ Hk].
      destruct (split_on_cons_length "=" "=" kv.2) as [_ Hv].
      destruct (split_on_cons_length "=" c closing) as [_ Hc].
      destruct (split_on_cons_length "=" "=" (String c closing)) as [_ Hc'].
      change (length (split_on "=" tab)) with 1 in H1.
      change (length (split_on "=" " = {")) with 2 in H3.
      apply andb_false_iff in Heq as [Hbad|Hbad];
        apply (split_on_some_length "=") in Hbad; lia. }
  destruct (split_on "=" (line_of closing kv)) as [|? [|? [|? ?]]]; simpl in Hlen;
    (lia || done).
Qed.

Lemma read_field_raises (line : string) (entry : odict string) (e : exn) :
  read_field line entry = Raise e -> e = ValueError.
Proof.
  unfold read_field.
  destruct (split_on "=" line) as [|? [|? [|? ?]]]; by intros [= <-].
Qed.

Lemma read_fields_bad (before : list string) (bad : string) (rest : list string)
    (entry : odict string) :
  Forall (fun l => String.eqb l "}" = false) before ->
  String.eqb bad "}" = false ->
  (forall entry, read_field bad entry = Raise ValueError) ->
  read_fields (before ++ bad :: rest) entry = Raise ValueError.
Proof.
  intros Hbefore Hbad Hraise. revert entry.
  induction before as [|l before IH]; intros entry.
  - cbn [app read_fields]. by rewrite Hbad, Hraise.
  - apply Forall_cons in Hbefore as [Hl Hbefore].
    cbn [app read_fields]. rewrite Hl.
    destruct (read_field l entry) as [entry'|e] eqn:Hread; cbn [mbind result_bind].
    + by apply IH.
    + by rewrite (read_field_raises _ _ _ Hread).
Qed.

(** X25: a field whose key or value holds an equals sign (a URL with a
    query, say) does not make the round trip either: the type and the
    label are read, and [_bibtex_to_dict] fails with [ValueError] at
    the split of a line. *)
Theorem bibtex_equals_sign (entry : row) (type label k v : string) :
  od_get "type" entry = Some (Some type) ->
  od_get "label" entry = Some (Some label) ->
  all_chars is_alpha type = true ->
  all_chars is_word label = true ->
  od_get k entry = Some (Some v) -> k <> "type" -> k <> "label" ->
  all_chars (fun c => negb (Ascii.eqb c "=")) k
  && all_chars (fun c => negb (Ascii.eqb c "=")) v = false ->
  (forall k' v', od_get k' entry = Some (Some v') -> k' <> "type" -> k' <> "label" ->
                 all_chars no_nl k' = true /\ all_chars no_nl v' = true) ->
  exists text,
    _dict_to_bibtex entry = Done text
    /\ _bibtex_to_dict text = Raise ValueError.
Proof.
  intros Htype Hlabel Halpha Hword Hget Hk1 Hk2 Heq Hlines.
  assert (Hin : forall k v, (k, v) ∈ written entry (sorted (od_keys entry))
                <-> od_get k entry = Some (Some v) /\ k <> "type" /\ k <> "label").
  { intros k' v'. rewrite elem_of_written, elem_of_sorted. split; [tauto |].
    intros (Hget' & Hne). split; [by eapply od_get_keys | done]. }
  assert (Hkv : (k, v) ∈ written entry (sorted (od_keys entry))) by (by apply Hin).
  destruct (exists_last (l := written entry (sorted (od_keys entry)))) as (fs & kv & Hw).
  { intros Hnil. rewrite Hnil in Hkv. by apply elem_of_nil in Hkv. }
  assert (Hnl : forall closing kv', kv' ∈ fs ++ [kv] -> all_chars no_nl closing = true ->
                  all_chars no_nl (line_of closing kv') = true).
  { intros closing [k' v']. rewrite <- Hw. intros (Hget' & H1 & H2)%Hin Hc.
    destruct (Hlines k' v' Hget' H1 H2) as [Hk' Hv'].
    unfold line_of. cbn [fst snd]. by rewrite !all_chars_app, Hk', Hv', Hc. }
  eexists. split; [by apply (dict_to_bibtex_text entry type label fs kv) |].
  unfold _bibtex_to_dict. rewrite split_on_lines.
  2: { by rewrite !all_chars_app, (alpha_no_nl _ Halpha), (word_no_nl _ Hword). }
  2: { apply Forall_app. split.
       - apply Forall_fmap, Forall_forall. intros kv' Hkv'. apply Hnl; [|done].
         apply elem_of_app. by left.
       - apply Forall_cons. split; [|by apply Forall_singleton].
         apply Hnl; [|done]. apply elem_of_app. right. by left. }
  cbn [first_item mbind result_bind tail].
  rewrite find_type_header, find_label_header by done.
  cbn [first_item mbind result_bind].
  rewrite Hw in Hkv. apply elem_of_app in Hkv as [Hkv|Hkv%list_elem_of_singleton].
  - apply list_elem_of_split in Hkv as (fs1 & fs2 & ->).
    rewrite map_app, <- app_assoc. cbn [map app].
    apply read_fields_bad; [|done |].
    + apply Forall_fmap, Forall_forall. by intros kv' _.
    + intros entry'. by apply read_field_too_many.
  - subst kv. apply read_fields_bad; [|done |].
    + apply Forall_fmap, Forall_forall. by intros kv' _.
    + intros entry'. by apply read_field_too_many.
Qed.
End main_bibtex.

(* ===================================================================== *)
(** * More on Entry.matches                                               *)
(* ===================================================================== *)

Section matches_more.
Import PyStr Parser Filters.

Lemma match_items_cases (d : fields) (flt : filter) (match_list : list bool) :
  match match_items d flt match_list with
  | Ok _ => forall item, item ∈ flt -> od_get item.1.1 d = None -> item.2 = []
  | Raise ex =>
      exists item, item ∈ flt /\ od_get item.1.1 d = None /\ item.2 <> []
                   /\ ex = KeyError item.1.1
  end.
Proof.
  revert match_list. induction flt as [|[key values] flt IH]; intros match_list.
  - simpl. by intros item ?%elem_of_nil.
  - destruct (od_get key.1 d) as [field|] eqn:Hget.
    + rewrite (match_items_present _ _ _ field) by done.
      specialize (IH (match_list ++ map (fun val => if negb (py_in val field)
                                                    then negb key.2 else key.2) values)).
      destruct (match_items d flt _) as [res|ex].
      * intros item [->|Hin]%elem_of_cons; [cbn [fst snd]; congruence | by apply IH].
      * destruct IH as (item & Hin & Hrest). exists item. split; [by right | done].
    + destruct values as [|val values].
      * rewrite match_items_absent_empty by done.
        specialize (IH (match_list ++ [negb key.2])).
        destruct (match_items d flt _) as [res|ex].
        -- intros item [->|Hin]%elem_of_cons; [done | by apply IH].
        -- destruct IH as (item & Hin & Hrest). exists item. split; [by right | done].
      * cbn [match_items]. rewrite match_values_absent by done. cbn [mbind result_bind].
        exists (key, val :: values). split; [by left | done].
Qed.

(** X26: whenever [matches] returns, every filter element whose field
    the entry lacks has an empty list of substrings: a filter that names
    a substring for a field that the entry does not have never gets an
    answer, wherever the element stands in the filter. *)
Theorem matches_returns_only_if (e : Entry) (flt : filter) (or_ : bool) (b : bool) :
  matches e flt or_ = Ok b ->
  forall item, item ∈ flt -> od_get item.1.1 (data e) = None -> item.2 = [].
Proof.
  unfold matches. pose proof (match_items_cases (data e) flt []) as H.
  destruct (match_items (data e) flt []) as [ml|ex]; cbn [mbind result_bind];
    [by intros _ | done].
Qed.

Lemma match_values_opposite (d : fields) (k : string) (flag : bool)
    (values : list string) (match_list : list bool) :
  match_values d (k, negb flag) values (map negb match_list)
  = (res ← match_values d (k, flag) values match_list; Ok (map negb res)).
Proof.
  revert match_list. induction values as [|val values IH]; intros match_list; [done |].
  cbn [match_values fst snd]. destruct (od_get k d) as [field|]; [|done].
  rewrite <- IH. f_equal. rewrite map_app. cbn [map]. f_equal.
  by destruct (negb (py_in val field)), flag.
Qed.

Lemma match_items_opposite (d : fields) (flt : filter) (match_list : list bool) :
  match_items d (opposite flt) (map negb match_list)
  = (res ← match_items d flt match_list; Ok (map negb res)).
Proof.
  revert match_list. induction flt as [|[[k flag] values] flt IH]; intros match_list;
    [done |].
  cbn [opposite map match_items fst snd].
  set (ml := if negb (od_in k d) then match_list ++ [negb flag] else match_list).
  replace (if negb (od_in k d) then map negb match_list ++ [negb (negb flag)]
           else map negb match_list) with (map negb ml).
  2: { unfold ml. destruct (negb (od_in k d)); [|done]. by rewrite map_app. }
  rewrite match_values_opposite.
  destruct (match_values d (k, flag) values ml) as [res|ex]; cbn [mbind result_bind];
    [|done].
  apply IH.
Qed.

Lemma existsb_map_negb (l : list bool) :
  existsb id (map negb l) = negb (forallb id l).
Proof. induction l as [|[] l IH]; simpl; [done | done | done]. Qed.

Lemma forallb_map_negb (l : list bool) :
  forallb id (map negb l) = negb (existsb id l).
Proof. induction l as [|[] l IH]; simpl; [done | done | done]. Qed.

(** X27: De Morgan for filters.  With every flag of the filter negated
    and the other combination ([and] for [or]), [matches] gives the
    negation of what it gave, and fails where it failed. *)
Theorem matches_opposite (e : Entry) (flt : filter) (or_ : bool) :
  matches e (opposite flt) (negb or_)
  = (b ← matches e flt or_; Ok (negb b)).
Proof.
  unfold matches. change [] with (map negb []) at 1.
  rewrite match_items_opposite.
  destruct (match_items (data e) flt []) as [res|ex]; cbn [mbind result_bind]; [|done].
  destruct or_; cbn [negb mbind result_bind].
  - by rewrite forallb_map_negb.
  - by rewrite existsb_map_negb.
Qed.
End matches_more.

(* ===================================================================== *)
(** * The theorems above at concrete inputs                               *)
(* ===================================================================== *)

Section more_instances.
Import PyStr PyStr2 Parser Add Undo Arxiv.

Lemma from_bibtex_labels_witness :
  let bib := [("knuth1984", Stub.bare "knuth1984")] in
  @from_bibtex Stub.bibtex "knuth1984" = Ok bib
  /\ NoDup (od_keys bib)
  /\ forall k e, (k, e) ∈ bib ->
       label e = k
       /\ od_get "ID" (data e) = Some (VStr k)
       /\ attrs e = []
       /\ exists r, r ∈ @bibtex_loads Stub.bibtex "knuth1984" /\ data e = of_record r.
Proof.
  intros bib. split; [reflexivity |].
  apply (@from_bibtex_labels Stub.bibtex "knuth1984" bib). reflexivity.
Defined.

Lemma from_bibtex_last_wins_witness :
  let bib := [("knuth", new "knuth" [("ENTRYTYPE", VStr "book"); ("ID", VStr "knuth")])] in
  @from_bibtex Sample.twice "knuth" = Ok bib
  /\ od_get "knuth" bib
     = Some (new "knuth" (of_record [("ENTRYTYPE", "book"); ("ID", "knuth")]))
  /\ od_get "lamport" bib = None.
Proof.
  intros bib.
  destruct (@from_bibtex_last_wins Sample.twice "knuth" bib "knuth" eq_refl) as [Hlast _].
  destruct (@from_bibtex_last_wins Sample.twice "knuth" bib "lamport" eq_refl) as [_ Hnone].
  split; [reflexivity |]. split.
  - apply (Hlast [[("ENTRYTYPE", "article"); ("ID", "knuth"); ("year", "1984")]]
             [("ENTRYTYPE", "book"); ("ID", "knuth")] []); [reflexivity | reflexivity |].
    by intros r' ?%elem_of_nil.
  - apply Hnone. intros r Hr.
    apply list_elem_of_In in Hr. simpl in Hr.
    destruct Hr as [<-|[<-|[]]]; by vm_compute.
Defined.

Lemma match_doi_shape_witness :
  match_doi "10.1000/a, and" = Some "10.1000/a"
  /\ (exists rest, "10.1000/a, and" = "10.1000/a" +:+ rest)
  /\ starts_with "10." "10.1000/a" = true
  /\ all_chars is_suffix_char "10.1000/a" = true
  /\ match_doi "10.1000/a" = Some "10.1000/a".
Proof.
  split; [reflexivity |].
  apply (match_doi_shape "10.1000/a, and" "10.1000/a"). reflexivity.
Defined.

Lemma most_common_unique_witness :
  let lst := ["10.1000/b"; "10.1000/a"; "10.1000/b"] in
  "10.1000/b" ∈ lst
  /\ count "10.1000/a" lst < count "10.1000/b" lst
  /\ @most_common Stub.forward_order lst = Ok "10.1000/b"
  /\ @most_common Stub.backward_order lst = Ok "10.1000/b".
Proof.
  intros lst.
  assert (Hin : "10.1000/b" ∈ lst) by apply list_elem_of_here.
  assert (Hmore : forall m, m ∈ lst -> m <> "10.1000/b"
                            -> count m lst < count "10.1000/b" lst).
  { intros m Hm Hne. apply list_elem_of_In in Hm. simpl in Hm.
    destruct Hm as [<-|[<-|[<-|[]]]]; try done. vm_compute. lia. }
  split; [exact Hin |]. split; [vm_compute; lia |]. split.
  - exact (@most_common_unique Stub.forward_order lst "10.1000/b" Hin Hmore).
  - exact (@most_common_unique Stub.backward_order lst "10.1000/b" Hin Hmore).
Defined.

Lemma undo_history_witness :
  let cfg := mkSetup true true in
  let h := [("c3", "Auto-commit: AddCommand");
            ("c2", "Auto-commit: AddCommand");
            ("c1", "Auto-commit: InitCommand")] in
  let h' := ("uc3", "Undo c3") :: h in
  well_formed h = true
  /\ @execute Stub.git cfg false h = Ok (Undone "c3", h')
  /\ h' = (@new_sha Stub.git "c3" h, "Undo " +:+ "c3") :: h
  /\ exists pre subject post first rest last,
       h = pre ++ ("c3", subject) :: post
       /\ split_ws subject = first :: rest
       /\ last_item (first :: rest) = Ok last
       /\ first <> "Undo"
       /\ eligible false first last = true
       /\ "c3" ∉ undone_after ∅ (map log_line pre).
Proof.
  intros cfg h h'. split; [reflexivity |]. split; [reflexivity |].
  exact (@undo_history Stub.git cfg false h (Undone "c3") h' eq_refl eq_refl).
Defined.

Lemma undo_not_repeated_witness :
  let cfg := mkSetup true true in
  let h := [("c3", "Auto-commit: AddCommand");
            ("c2", "Auto-commit: AddCommand");
            ("c1", "Auto-commit: InitCommand")] in
  let h1 := ("uc3", "Undo c3") :: h in
  let h2 := ("uc2", "Undo c2") :: h1 in
  well_formed h = true
  /\ @execute Stub.git cfg false h = Ok (Undone "c3", h1)
  /\ is_token (@new_sha Stub.git "c3" h) = true
  /\ (@new_sha Stub.git "c3" h ∉ map fst h)
  /\ @execute Stub.git cfg true h1 = Ok (Undone "c2", h2)
  /\ Undone "c2" <> Undone "c3" /\ Undone "c2" <> Undone (@new_sha Stub.git "c3" h).
Proof.
  intros cfg h h1 h2.
  assert (Hnew : @new_sha Stub.git "c3" h ∉ map fst h).
  { intros Hin. apply list_elem_of_In in Hin. simpl in Hin.
    destruct Hin as [Heq|[Heq|[Heq|[]]]]; discriminate Heq. }
  split; [reflexivity |]. split; [reflexivity |]. split; [reflexivity |].
  split; [exact Hnew |]. split; [reflexivity |].
  exact (@undo_not_repeated Stub.git false true h "c3" h1 (Undone "c2") h2
           eq_refl eq_refl eq_refl Hnew eq_refl).
Defined.

Lemma undo_newest_witness :
  let c := ("c1", "Auto-commit: InitCommand") in
  well_formed [c] = true
  /\ split_ws c.2 = ["Auto-commit:"; "InitCommand"]
  /\ last_item ["Auto-commit:"; "InitCommand"] = Ok "InitCommand"
  /\ eligible true "Auto-commit:" "InitCommand" = true
  /\ @execute Stub.git (mkSetup true true) true [c]
     = Ok (Undone "c1", [("uc1", "Undo c1"); c]).
Proof.
  intros c. split; [reflexivity |]. split; [reflexivity |].
  split; [reflexivity |]. split; [reflexivity |].
  exact (@undo_newest Stub.git true c [] "Auto-commit:" ["InitCommand"] "InitCommand"
           eq_refl eq_refl eq_refl ltac:(discriminate) eq_refl).
Defined.

Lemma undo_nothing_eligible_witness :
  let h := [("c2", "Update the notes by hand"); ("c1", "Auto-commit: InitCommand")] in
  well_formed h = true
  /\ @execute Stub.git (mkSetup true true) false h = Ok (NothingToUndo, h)
  /\ exit_status NothingToUndo = 1.
Proof.
  intros h. split; [reflexivity |].
  apply (@undo_nothing_eligible Stub.git h); [discriminate | reflexivity |].
  intros c first rest last Hc Hsplit Hlast Hundo Hauto.
  apply list_elem_of_In in Hc. simpl in Hc.
  destruct Hc as [<-|[<-|[]]].
  - vm_compute in Hsplit. injection Hsplit as <- <-. discriminate Hauto.
  - vm_compute in Hsplit. injection Hsplit as <- <-. vm_compute in Hlast.
    by injection Hlast as <-.
Defined.

Lemma add_overrides_need_one_witness :
  let largs := mkArgs (Some "L") None [("yaml", "a b")] [] in
  let w := mkWorld [] [] in
  parse_source (@avail_parsers Stub.parsers) largs
  = Some (Ok [("a", Stub.bare "a"); ("b", Stub.bare "b")])
  /\ @Add.execute Stub.parsers Stub.config Stub.editor Stub.setters Stub.update largs w
     = Raise AssertionError.
Proof.
  intros largs w. split; [reflexivity |].
  apply (@add_overrides_need_one Stub.parsers Stub.config Stub.editor Stub.setters
           Stub.update largs w
           [("a", Stub.bare "a"); ("b", Stub.bare "b")]).
  - reflexivity.
  - simpl. lia.
  - left. by exists "L".
Defined.

Lemma add_batch_keys_witness :
  let largs := mkArgs None None [("yaml", "a b")] [] in
  let w := mkWorld [] [] in
  let batch := [("a", Stub.bare "a"); ("b", Stub.bare "b")] in
  @merged_batch Stub.parsers Stub.config Stub.setters largs w = Ok (Some (batch, false))
  /\ false = false
  /\ exists parsed, parse_source (@avail_parsers Stub.parsers) largs = Some (Ok parsed)
                    /\ od_keys batch = od_keys parsed.
Proof.
  intros largs w batch. split; [reflexivity |].
  exact (@add_batch_keys Stub.parsers Stub.config Stub.setters largs w batch false
           eq_refl).
Defined.

Lemma add_saves_once_witness :
  let largs := mkArgs None None [("yaml", "a b")] [] in
  let w := mkWorld [] [] in
  let batch := [("a", Stub.bare "a"); ("b", Stub.bare "b")] in
  let w' := mkWorld batch
              [Save; GitCommit "add";
               PrintLine "'a' was added to the database.";
               LogInfo "'a' was added to the database.";
               PrintLine "'b' was added to the database.";
               LogInfo "'b' was added to the database."] in
  @Add.execute Stub.parsers Stub.config Stub.editor Stub.setters Stub.update largs w = Ok w'
  /\ ((@merged_batch Stub.parsers Stub.config Stub.setters largs w = Ok None
       /\ database w' = database w
       /\ trace w' = trace w ++
            [LogError "Neither an input to parse nor a label for manual creation specified!"])
      \/ exists batch edit before,
           @merged_batch Stub.parsers Stub.config Stub.setters largs w
           = Ok (Some (batch, edit))
           /\ trace w' = trace w ++ before ++ [Save; GitCommit "add"]
                         ++ flat_map (fun lbl => [PrintLine (added_msg lbl);
                                                  LogInfo (added_msg lbl)])
                              (od_keys (@Database.update Stub.update batch (database w)).2)
           /\ (Save ∉ before) /\ (GitCommit "add" ∉ before)).
Proof.
  intros largs w batch w'. split; [reflexivity |].
  exact (@add_saves_once Stub.parsers Stub.config Stub.editor Stub.setters Stub.update
           largs w w' eq_refl).
Defined.

Lemma from_arxiv_label_witness :
  let bib :=
    [("Planck2017",
      new "Planck2017"
        [("archivePrefix", VStr "arXiv");
         ("arxivid", VStr "1701.08213v1");
         ("eprint", VStr "http://arxiv.org/abs/1701.08213v1");
         ("year", VStr "2017"); ("ID", VStr "Planck2017");
         ("title", VStr "Bosonic quantum chemistry");
         ("author", VStr "Max Planck and Albert Einstein");
         ("doi", VStr "10.1000/a");
         ("primaryClass", VStr "quant-ph");
         ("ENTRYTYPE", VStr "article")])] in
  let out := ["The key 'updated' of this arXiv entry is not being processed!"] in
  @from_arxiv Stub.web Sample.feed "1701.08213" = Done (bib, out)
  /\ exists keys name others surname e,
       @feed_entry Sample.feed (@http_get Stub.web (ARXIV_URL +:+ "1701.08213")) = Some keys
       /\ authors keys = name :: others
       /\ last_item (split_ws name) = Ok surname
       /\ bib = [(surname +:+ concat (years keys), e)]
       /\ label e = surname +:+ concat (years keys)
       /\ od_get "ID" (data e) = Some (VStr (surname +:+ concat (years keys)))
       /\ od_get "author" (data e) = Some (VStr (join " and " (authors keys)))
       /\ od_get "ENTRYTYPE" (data e)
          = Some (VStr (if has_doi keys then "article" else "unpublished")).
Proof.
  intros bib out. split; [reflexivity |].
  exact (@from_arxiv_label Stub.web Sample.feed "1701.08213" bib out eq_refl).
Defined.

Lemma open_file_unbound_witness :
  @Open.execute Sample.argparse Sample.library "linux" ["knuth1984"] (Some Open.stdout)
  = Open.mkProc [] (Fail (UnboundLocalError "opener")).
Proof.
  apply (@open_file_unbound Sample.argparse Sample.library "linux" ["knuth1984"]
           (Some Open.stdout) "knuth1984"
           [("knuth1984", [("ID", Some "knuth1984");
                           ("file", Some "/home/user/knuth1984.pdf")])]
           [("ID", Some "knuth1984"); ("file", Some "/home/user/knuth1984.pdf")]
           "/home/user/knuth1984.pdf");
    [discriminate | reflexivity..].
Defined.

Ltac row_cases k Hget :=
  simpl in Hget;
  repeat match type of Hget with
         | (if String.eqb k ?x then _ else _) = _ =>
             destruct (String.eqb_spec k x) as [->|?];
             [try (injection Hget as <-); try done |]
         end;
  try done.

Lemma bibtex_round_trip_witness :
  (forall k v, od_get k Sample.knuth = Some (Some v) -> k <> "type" -> k <> "label" ->
               Main.plain k v = true)
  /\ exists text d,
       Main._dict_to_bibtex Sample.knuth = Done text
       /\ Main._bibtex_to_dict text = Ok d
       /\ forall k, od_get k d
                    = match od_get k Sample.knuth with
                      | Some (Some v) => Some v
                      | _ => None
                      end.
Proof.
  assert (Hplain : forall k v, od_get k Sample.knuth = Some (Some v) ->
                     k <> "type" -> k <> "label" -> Main.plain k v = true).
  { intros k v Hget H1 H2. row_cases k Hget. }
  split; [exact Hplain |].
  apply (bibtex_round_trip Sample.knuth "article" "knuth1984");
    [reflexivity | reflexivity | reflexivity | reflexivity | | exact Hplain].
  exists "year", "1984". by repeat split.
Defined.

Lemma bibtex_without_fields_witness :
  exists text,
    Main._dict_to_bibtex Sample.bare_row = Done text
    /\ Main._bibtex_to_dict text = Raise IndexError.
Proof.
  apply (bibtex_without_fields Sample.bare_row "article" "knuth1984");
    [reflexivity | reflexivity | reflexivity | reflexivity |].
  intros k v Hget. row_cases k Hget; (by left) || (by right).
Defined.

Lemma bibtex_equals_sign_witness :
  exists text,
    Main._dict_to_bibtex Sample.with_url = Done text
    /\ Main._bibtex_to_dict text = Raise ValueError.
Proof.
  apply (bibtex_equals_sign Sample.with_url "article" "knuth1984"
           "url" "http://example.org/?id=1984");
    [reflexivity | reflexivity | reflexivity | reflexivity | reflexivity
    | discriminate | discriminate | reflexivity |].
  intros k v Hget H1 H2. row_cases k Hget.
Defined.

Lemma matches_returns_only_if_witness :
  let e := new "einstein" [("ID", VStr "einstein"); ("year", VStr "1905")] in
  let flt := [(("year", true), ["1905"]); (("author", false), [])] in
  matches e flt false = Ok true
  /\ forall item, item ∈ flt -> od_get item.1.1 (data e) = None -> item.2 = [].
Proof.
  intros e flt. split; [reflexivity |].
  exact (matches_returns_only_if e flt false true eq_refl).
Defined.
End more_instances.
